(* ===== verification/_CoqProject ===== *)
-Q . S2P
Prelude.v
Timers.v
Ports.v
Runtime.v
Animator.v
SlowFlasherPigpio.v
StopContract.v
AnimatorSpec.v
SlowFlasher.v
Sensors.v
Flasher.v
Performance.v
System.v
ModeMachine.v
TestScript.v
