(* ===== verification/Prelude.v ===== *)
(** * A verification development for the Halloween 2015 installation controller

    The program ([src/halloween.js]) is a single Node.js script driving a
    Raspberry Pi: three motion sensors, a ground light ("net"), three
    animated lights (a dog and two skulls), two strobe lights and a sound
    player.  Its parts, and how they interact:

    - the port table [Ports] and the shortcuts [portOn], [portOff],
      [portPWM], [sendPigpioCommand], [init], [exit]: physical output, with
      an inverted port (the net light is active-low) and a PWM daemon
      reached through a named pipe whose completion callback is
      asynchronous;
    - the Node.js timer runtime ([setTimeout], [setInterval],
      [clearTimeout], [clearInterval]), on which every component is built;
    - [SensorWatch] (one per sensor) and [SensorArray]: sensor edges into
      the shared [State.sensorN] flags and a delayed trigger callback;
    - [Flasher]: the idle strobe alternating between two lights;
    - [SlowFlasher] (stepped software PWM with [createTransitionTable]) and
      [SlowFlasherPigpio] (continuous PWM through the daemon): the
      breathing animators; the running program builds three
      [SlowFlasherPigpio]s (the [SlowFlasher]s are commented out);
    - the main closure: [startPerformance], [stopPerformance], the pre-roll
      delay timer, the skull start timers, the player's close handler,
      the cool-down timer, the sensor setup timer, and the HTTP handlers
      [postStart], [postStop], [postEnabled], [getStatus].

    ** Files, in dependency order

    - [Prelude] (this file): the state monad [ST] with its notation in
      [hw_scope], JavaScript truthiness, the [hw] hint databases and the
      shared tactics ([mrun], [case_if], [zdiv_lia]).
    - [Timers]: the timer registry (a [gmap] from handles to timers, a
      clock, a handle counter): [set_timer], [clear_timer], [next_timer],
      [fire_timer]; handles are fresh, clearing a fired handle is a no-op,
      [next_timer] picks the earliest timer, the clock never goes back.
    - [Ports]: the [Ports] table, GPIO levels through [invert], the duty
      of [portPWM] ([Math.floor(value * 250)]), the text line
      [sendPigpioCommand] writes ([pigpio_line]), the writes of [init]
      and [exit]; the line reads back, under the daemon's grammar
      [p <gpio> <dutycycle>] ([parse_pigpio_line], the daemon's side, not
      code of the repository), as the command it encodes (C24), which is
      why the rest of the development keeps commands in flight as
      structured [PwmCmd]s; [exit] turns every output off once (C38).
    - [Runtime]: the shared [State] and [IOEnabled] objects, the program's
      closures as the data types [Callback] and [PwmCallback], the context
      [Ctx] (timers, state, flags, output log, commands in flight, player
      processes, exit flag) and the primitive effects over it, the
      sound player's spawn with its command line included.
    - [Animator]: the interface [Animator] the main closure uses
      ([start], [stop], their channel, the closures they arm, and their
      frame laws, among them that [start] and [stop] send no PWM
      command), [controlDogSound], the well-formed command in flight
      [pwm_typed], and the compositional predicates [ctx_frame],
      [adds_only], [keeps_exit], [keeps_pipe] with their tactics.
    - [SlowFlasherPigpio]: the animator the program runs.  Each closure
      and method as an [ST] computation; the functional behaviour of each
      (C19-C23); the step relation of the animator alone and its
      invariant, giving "at most one live timer, in its role" for every
      run of the normal regime (C1); and, from any state with two final
      commands of a ramp in flight, the two late acknowledgements and a
      [stop] that leave an orphaned hold timer (C10).
    - [StopContract]: the continuous animator alone under a driver that
      completes each command at once and otherwise fires the next timer
      (runs of its normal regime).  Its three phases (ramping, holding,
      quiet) read off the invariant; the spec's stop contract: a stopped
      animator halts dark within [stop_fuel] events (C2), at once in its
      off hold (C35); and its breathing cycle: back in the off hold every
      [cycle_period] ms, indefinitely (C3).  A write
      error on a ramp's final command leaves the animator ramping and
      the command is sent again on every tick (C36).
    - [AnimatorSpec]: the spec's animator as an abstract machine over
      five phases and a stop request ([astep]), the phase read off the
      animator ([abs]), and the refinement: every event of the normal
      regime stutters or takes one abstract step (C4), so the abstract
      states of every run from a fresh animator ([normal_trace]) form a
      path of the machine ([apath]) ending in its final state (C5).
    - [SlowFlasher]: the stepped animator and [createTransitionTable]:
      the table in closed form (C32), its [for] loop as the code runs it
      ([table_for], with fuel), which terminates after exactly
      [ceil(d/10)] passes (C33) and, given that many, computes the closed
      form (C34); the animator's ticks (C31) and its [Animator]
      instance.
    - [Sensors]: [SensorWatch.watch] on rising and falling edges and the
      array's [getState] (C25-C27).
    - [Flasher]: the strobe (C28, C29).
    - [Performance]: the main closure's handlers, generic in the
      [Animator] interface (a [Section] with the instance as [Context]):
      the start of the main closure (C18), forced and sensor starts,
      stop, re-entrancy (C14-C16), the HTTP
      handlers, with the request body as the values [body-parser] gives
      (C30), and [POST /stop] followed by the player's exit (C12).
    - [System]: the whole program on the event loop: a [world], the
      events the loop delivers ([sys_step], [sys_run]) and [boot].  The
      invariant of every run (C8) and the theorem that the process ends
      only on [SIGINT] or a pigpio pipe that cannot be opened (C7); and
      the typing of the pigpio pipe: in every run, each command in
      flight is a PWM command for the dog's or a skull's pin with a duty
      in [0, 250], a completion callback riding only on a duty-0 command
      of the light it ends a ramp of (C9).  Only an animator's ramp tick
      writes to the pipe; every other handler is shown to keep it.  A
      forced start clears only the strobe's and the dog's recorded
      timers ([force_keeps_timer]), so [POST /start] leaves the pre-roll's
      timer live and the loop, firing it, spawns a second player (C11),
      and leaves the cool-down's timer live, which sets the mode to
      [idle] mid-performance (C13).  A sensor's rising edge reaches the
      pre-roll through its timeout, [SENSOR_TIMEOUT] ms later, and the
      pre-roll's timer is due [START_DELAY] ms after that (C17).
      [run_until] and [settle] drive the loop for the witnesses.
    - [ModeMachine]: the spec's controller machine over [Idle],
      [Pending], [Active], [CoolDown] ([Spec.step], each transition
      labelled by its cause) and the invariant [ctrl_inv] tying the mode
      to the pre-roll and cool-down timers (live only in their mode, at
      most once, one-shot) and to the player process (only in [run],
      alone).  In every run driven by the sensors, every event leaves the
      mode or takes one step of the spec's machine of a label the event
      can cause, and a sound player runs only in [run], one at a time
      (C6); [POST /start] and [POST /stop] break it (C11-C13).
    - [TestScript]: the bench script [src/test.js] on the same timer
      registry: its own port table, [portOn]/[portOff] and the 2 s timer of
      [testOutput]; its whole run, which drives the active-low net light
      backwards (C37).

    ** Findings

    A late acknowledgement of the final PWM command orphans a hold timer
    (C10); a forced start during the pre-roll spawns a second player (C11);
    [POST /stop] is followed by the cool-down (C12); [POST /start] is
    honoured in the cool-down, whose timer then sets the mode to idle
    mid-performance (C13); sensors neither trigger at once nor re-arm
    (C25, C17); the strobe is not suppressed in the pre-roll (C16);
    [POST /enabled] disables a flag on any value but the string ['true'],
    a JSON [true] included, and sends no answer (C30); the two animator
    strategies ramp in different times (the stepped dog turns on at
    2010 ms, the continuous one at 2000 ms); the bench script
    [src/test.js] lacks the net light's [invert] flag and lights it in
    its "off" phase (C37); a failed final PWM command is retried every
    40 ms and the animation does not advance until it succeeds (C36).

    ** Modelling choices, bounds and fuel

    - Time is an [N] of milliseconds; the clock moves when a timer fires
      (to its due time) or when [ev_wait] lets time pass with no timer
      due.  Timers with equal due times fire in arming order, as Node's
      timer lists do for equal durations; an interval is re-armed one
      period after its due time.
    - PWM values ([elapsed / timeTransition]) are exact rationals [Q];
      floating-point rounding is not modelled.
    - The pigpio daemon's answers are events; the "normal regime" of C1
      assumes an animator's final command is acknowledged before its
      next event, the situation C10 shows necessary.
    - [Math.random] offsets are event arguments.
    - [StopContract.drive n] runs [n] events and stops early only when no
      event can happen; C2 proves that [stop_fuel T = 2 (2 (T/40 + 1) + 2) + 1]
      events suffice (two ramps of at most [T/40 + 1] ticks and their
      final ticks, each with its completion, and the on hold), and that
      the driver then has nothing left to do; C3 counts the events of a
      cycle exactly ([cycle_events]).
    - Fuel: [solo_run], [sys_run] run finite event lists and need none;
      the loop of [createTransitionTable] gets [fuel] loop tests, and C33
      shows that [ceil(d/10) + 1] are enough and necessary;
      [settle] (8 acknowledgements) and [run_until] (at most 300
      events, 200 being needed) only drive the loop to the concrete
      worlds of the witnesses of C13, each of which states the result
      [Some ...], so an exhausted fuel would make it false, not
      vacuous.
    - Not modelled: logging, the Express server's routing, JSON encoding
      and static files, the [Gpio] objects' creation and the [unexport]
      of the pins (no level is written), in both scripts; the pigpio
      daemon itself, of which only the reading of a command line
      ([parse_pigpio_line]) is written down, to state C24. *)

From stdpp Require Export base list.
From Stdlib Require Export Lia.
From Stdlib Require Import ZArith.

Declare Scope hw_scope.
Delimit Scope hw_scope with hw.

(** ** A state monad

    Every handler of the program mutates shared objects and arms timers;
    it is modelled as a computation [ST S A] threading the state [S]. *)

Definition ST (S A : Type) : Type := S -> A * S.

Definition ret {S A} (a : A) : ST S A := fun s => (a, s).

Definition bind {S A B} (m : ST S A) (k : A -> ST S B) : ST S B :=
  fun s => let (a, s') := m s in k a s'.

Definition get {S} : ST S S := fun s => (s, s).
Definition put {S} (s : S) : ST S unit := fun _ => (tt, s).
Definition modify {S} (f : S -> S) : ST S unit := fun s => (tt, f s).
Definition gets {S A} (f : S -> A) : ST S A := fun s => (f s, s).

(** [exec m s] is the state after running [m] from [s]. *)
Definition exec {S A} (m : ST S A) (s : S) : S := snd (m s).
Definition eval {S A} (m : ST S A) (s : S) : A := fst (m s).

(** [when b m] runs [m] only when [b] holds: JavaScript's one-armed [if]. *)
Definition when {S} (b : bool) (m : ST S unit) : ST S unit :=
  if b then m else ret tt.

Notation "x <- m ;; k" := (bind m (fun x => k))
  (at level 100, m at next level, right associativity) : hw_scope.
Notation "m ;; k" := (bind m (fun _ => k))
  (at level 100, right associativity) : hw_scope.

Arguments ret {S A} a s /.
Arguments bind {S A B} m k s /.
Arguments get {S} s /.
Arguments put {S} s _ /.
Arguments modify {S} f s /.
Arguments gets {S A} f s /.
Arguments exec {S A} m s /.
Arguments eval {S A} m s /.

Open Scope hw_scope.

(** ** JavaScript truthiness

    The program stores light states as numbers ([State.lightDog = 1]) and
    timer handles as objects or [null]; its tests are truthiness tests. *)

Definition truthy (n : nat) : bool := negb (Nat.eqb n 0).
Arguments truthy !n /.
Definition is_set {A} (o : option A) : bool :=
  match o with Some _ => true | None => false end.

(** ** Generic lemmas *)

Lemma bind_ret_l {S A B} (a : A) (k : A -> ST S B) s :
  bind (ret a) k s = k a s.
Proof. reflexivity. Qed.

Lemma bind_assoc {S A B C} (m : ST S A) (k : A -> ST S B) (h : B -> ST S C) s :
  bind (bind m k) h s = bind m (fun a => bind (k a) h) s.
Proof. simpl. destruct (m s). reflexivity. Qed.

Lemma truthy_false n : truthy n = false <-> n = 0.
Proof. unfold truthy. destruct n; simpl; split; congruence. Qed.

Lemma truthy_true n : truthy n = true <-> n <> 0.
Proof. unfold truthy. destruct n; simpl; split; congruence. Qed.

Lemma is_set_true {A} (o : option A) : is_set o = true <-> is_Some o.
Proof. destruct o; simpl; split; intros H; try done; by destruct H. Qed.

Lemma exec_bind {S A B} (m : ST S A) (k : A -> ST S B) s :
  exec (bind m k) s = exec (k (eval m s)) (exec m s).
Proof. simpl. destruct (m s). reflexivity. Qed.

Create HintDb hw.
Create Rewrite HintDb hw_rw.
#[export] Hint Rewrite @bind_ret_l @bind_assoc : hw_rw.
#[export] Hint Resolve truthy_true truthy_false : hw.

(** [mrun] unfolds a monadic computation on a concrete shape and
    simplifies the records it builds. *)
Ltac mrun := repeat (simpl in *; autorewrite with hw_rw in *).

(** [case_if] splits on the first [if] of the goal, recording the test. *)
Ltac case_if :=
  match goal with
  | |- context [if ?b then _ else _] =>
      let E := fresh "E" in destruct b eqn:E
  end.

(** [zdiv_lia] proves goals of linear integer arithmetic with divisions
    by positive divisors: each quotient and remainder becomes a variable
    bounded by [Z.div_mod] and [Z.mod_pos_bound]. *)
Ltac zdiv_lia :=
  repeat match goal with H : context [Z.div _ _] |- _ => revert H end;
  repeat match goal with
         | |- context [Z.div ?x ?y] =>
             let Hy := fresh in let Hd := fresh in let Hm := fresh in
             assert (Hy : (0 < y)%Z) by lia;
             pose proof (Z.div_mod x y ltac:(lia)) as Hd; pose proof (Z.mod_pos_bound x y Hy) as Hm;
             clear Hy; revert Hd Hm; generalize (Z.div x y) (Z.modulo x y); intros ? ?
         end;
  intros; nia.
