(* ===== verification/Timers.v ===== *)
(** * The Node.js timer registry

    The program's only suspension points are [setTimeout] and
    [setInterval]; every component keeps timer handles in its fields and
    cancels them with [clearTimeout] / [clearInterval].  This file models
    the registry those calls act on: a clock, a [gmap] from handles to live
    timers, and a counter that hands out handles (never reused).  The
    callback type [C] is a parameter: the program's closures are
    enumerated in [Runtime.Callback].

    [set_timer] is both [setTimeout] ([period = None]) and [setInterval]
    ([period = Some d]); [clear_timer] is both clear functions, taking the
    field's value ([None] is JavaScript's [null], a no-op); [next_timer]
    is the timer the event loop fires next; [fire_timer] fires it,
    re-arming an interval.  Node clamps a delay outside
    [1 .. TIMEOUT_MAX] to 1 ms; [clamp_delay] does the same. *)

From stdpp Require Import gmap.
From Stdlib Require Import NArith.
From S2P Require Import Prelude.

Record timer (C : Type) := mkTimer {
  t_due : N;               (** absolute due time (ms) *)
  t_seq : nat;             (** arming order, breaks ties between equal due times *)
  t_period : option N;     (** [Some d] for [setInterval(f, d)] *)
  t_cb : C                 (** the closure to run *)
}.
Arguments mkTimer {C}.
Arguments t_due {C}.
Arguments t_seq {C}.
Arguments t_period {C}.
Arguments t_cb {C}.

Record timers (C : Type) := mkTimers {
  tm_now : N;                      (** the event loop's clock (ms) *)
  tm_live : gmap nat (timer C);    (** live timers by handle *)
  tm_next : nat                    (** next handle / arming number *)
}.
Arguments mkTimers {C}.
Arguments tm_now {C}.
Arguments tm_live {C}.
Arguments tm_next {C}.

#[local] Open Scope N_scope.

Definition TIMEOUT_MAX : N := 2147483647.

(** Node: [if (!(after >= 1 && after <= TIMEOUT_MAX)) after = 1]. *)
Definition clamp_delay (d : N) : N :=
  if (1 <=? d) && (d <=? TIMEOUT_MAX) then d else 1.

Section Registry.
Context {C : Type}.
Implicit Types (tm : timers C) (t : timer C).

Definition empty_timers (now : N) : timers C := mkTimers now ∅ 0.

(** [setTimeout(cb, d)] and [setInterval(cb, d)]: a fresh handle. *)
Definition set_timer (d : N) (period : bool) (cb : C) tm : nat * timers C :=
  let d' := clamp_delay d in
  let h := tm_next tm in
  (h, mkTimers (tm_now tm)
        (<[h := mkTimer (tm_now tm + d') h (if period then Some d' else None) cb]>
           (tm_live tm))
        (S h)).

(** [clearTimeout(x)] / [clearInterval(x)] for a field [x] that may be null. *)
Definition clear_timer (h : option nat) tm : timers C :=
  match h with
  | Some h => mkTimers (tm_now tm) (delete h (tm_live tm)) (tm_next tm)
  | None => tm
  end.

(** The order in which timers fire: due time, then arming order. *)
Definition earlier t1 t2 : bool :=
  (t_due t1 <? t_due t2) || ((t_due t1 =? t_due t2) && (t_seq t1 <? t_seq t2)%nat).

Definition pick (x : nat * timer C) (acc : option (nat * timer C)) :=
  match acc with
  | None => Some x
  | Some y => if earlier (snd y) (snd x) then Some y else Some x
  end.

Definition next_timer tm : option (nat * timer C) :=
  foldr pick None (map_to_list (tm_live tm)).

(** Firing the next timer: the clock jumps to its due time; a timeout is
    removed, an interval re-armed one period later (before its callback
    runs, so that a [clearInterval] inside the callback cancels it). *)
Definition fire_timer tm : option (nat * C * timers C) :=
  match next_timer tm with
  | None => None
  | Some (h, t) =>
      let live' :=
        match t_period t with
        | None => delete h (tm_live tm)
        | Some p => <[h := mkTimer (t_due t + p) (tm_next tm) (Some p) (t_cb t)]> (tm_live tm)
        end in
      Some (h, t_cb t, mkTimers (t_due t) live' (S (tm_next tm)))
  end.

(** External events (sensor edges, HTTP requests, pipe completions) may
    happen at any time before the next timer is due. *)
Definition can_advance (t : N) tm : Prop :=
  tm_now tm <= t /\ forall h x, tm_live tm !! h = Some x -> t <= t_due x.

Definition advance (t : N) tm : timers C := mkTimers t (tm_live tm) (tm_next tm).

(** Well-formedness: handles and arming numbers below the counter, no
    timer due in the past. *)
Definition timers_wf tm : Prop :=
  forall h t, tm_live tm !! h = Some t ->
    (h < tm_next tm)%nat /\ (t_seq t < tm_next tm)%nat /\ tm_now tm <= t_due t.

(** [timers_wf] as a test on the registry. *)
Definition timers_wf_b tm : bool :=
  bool_decide (map_Forall (fun h t => (h < tm_next tm)%nat /\ (t_seq t < tm_next tm)%nat /\ tm_now tm <= t_due t)
                          (tm_live tm)).

Definition is_live (h : option nat) tm : bool :=
  match h with
  | Some h => bool_decide (is_Some (tm_live tm !! h))
  | None => false
  end.

(** ** Lemmas *)

Lemma timers_wf_b_spec tm : timers_wf_b tm = true -> timers_wf tm.
Proof. intros H h t Hl. apply bool_decide_eq_true in H. exact (H h t Hl). Qed.

Lemma clamp_delay_pos d : 1 <= clamp_delay d.
Proof. unfold clamp_delay. case_if; [apply andb_true_iff in E as [E _]; apply N.leb_le in E|]; lia. Qed.

Lemma clamp_delay_id d : 1 <= d <= TIMEOUT_MAX -> clamp_delay d = d.
Proof.
  intros [H1 H2]. unfold clamp_delay.
  apply N.leb_le in H1, H2. by rewrite H1, H2.
Qed.

Lemma set_timer_fresh d p cb tm :
  timers_wf tm -> tm_live tm !! fst (set_timer d p cb tm) = None.
Proof.
  intros Hwf. simpl. destruct (tm_live tm !! tm_next tm) eqn:E; [|done].
  apply Hwf in E. lia.
Qed.

Lemma set_timer_lookup d p cb tm h :
  tm_live (snd (set_timer d p cb tm)) !! h =
  if decide (h = tm_next tm)
  then Some (mkTimer (tm_now tm + clamp_delay d) (tm_next tm)
               (if p then Some (clamp_delay d) else None) cb)
  else tm_live tm !! h.
Proof. simpl. case_decide; subst; [by rewrite lookup_insert_eq | by rewrite lookup_insert_ne]. Qed.

Lemma clear_timer_lookup h tm h' :
  tm_live (clear_timer h tm) !! h' =
  if decide (h = Some h') then None else tm_live tm !! h'.
Proof.
  destruct h as [h|]; simpl; [|done].
  destruct (decide (h = h')) as [<-|Hne].
  - rewrite decide_True by done. by rewrite lookup_delete_eq.
  - rewrite decide_False by congruence. by rewrite lookup_delete_ne.
Qed.

(** Clearing a handle that already fired (a stale field) changes nothing. *)
Lemma clear_timer_stale h tm :
  is_live h tm = false -> clear_timer h tm = tm.
Proof.
  destruct h as [h|]; simpl; [|done]. intros H.
  apply bool_decide_eq_false in H. destruct tm; simpl in *.
  rewrite delete_id; [done|]. by apply eq_None_not_Some.
Qed.

Lemma set_timer_wf d p cb tm : timers_wf tm -> timers_wf (snd (set_timer d p cb tm)).
Proof.
  intros Hwf h t. rewrite set_timer_lookup. simpl.
  case_decide; [intros [= <-]; simpl; pose proof (clamp_delay_pos d); lia|].
  intros Ht. apply Hwf in Ht. lia.
Qed.

Lemma clear_timer_wf h tm : timers_wf tm -> timers_wf (clear_timer h tm).
Proof.
  intros Hwf h' t. rewrite clear_timer_lookup. case_decide; [done|].
  destruct h; apply Hwf.
Qed.

Lemma clear_timer_now h tm : tm_now (clear_timer h tm) = tm_now tm.
Proof. by destruct h. Qed.

Lemma clear_timer_next h tm : tm_next (clear_timer h tm) = tm_next tm.
Proof. by destruct h. Qed.

(** *** The timer fired next is the earliest *)

Definition fires_before t1 t2 : Prop :=
  t_due t1 < t_due t2 \/ (t_due t1 = t_due t2 /\ (t_seq t1 <= t_seq t2)%nat).

Lemma earlier_false t1 t2 : earlier t1 t2 = false -> fires_before t2 t1.
Proof.
  unfold earlier, fires_before. intros H.
  apply orb_false_iff in H as [H1 H2]. apply N.ltb_ge in H1.
  apply andb_false_iff in H2 as [H2|H2];
    [apply N.eqb_neq in H2 | apply Nat.ltb_ge in H2]; lia.
Qed.

Lemma earlier_true t1 t2 : earlier t1 t2 = true -> fires_before t1 t2.
Proof.
  unfold earlier, fires_before. intros H.
  apply orb_true_iff in H as [H|H]; [apply N.ltb_lt in H; lia|].
  apply andb_true_iff in H as [H1 H2]. apply N.eqb_eq in H1. apply Nat.ltb_lt in H2. lia.
Qed.

Lemma fires_before_trans t1 t2 t3 :
  fires_before t1 t2 -> fires_before t2 t3 -> fires_before t1 t3.
Proof. unfold fires_before. lia. Qed.

Lemma foldr_pick_none (l : list (nat * timer C)) : foldr pick None l = None -> l = [].
Proof.
  destruct l as [|x l]; [done|]. cbn [foldr]. intros H.
  exfalso. revert H. unfold pick at 1.
  destruct (foldr pick None l) as [y|]; [destruct (earlier (snd y) (snd x))|]; discriminate.
Qed.

Lemma foldr_pick_spec (l : list (nat * timer C)) r :
  foldr pick None l = Some r ->
  r ∈ l /\ forall x, x ∈ l -> fires_before (snd r) (snd x).
Proof.
  revert r. induction l as [|x l IH]; intros r; simpl; [done|].
  destruct (foldr pick None l) as [y|] eqn:Ey; simpl.
  - destruct (IH y eq_refl) as [Hy Hmin].
    destruct (earlier (snd y) (snd x)) eqn:E; intros [= <-]; split.
    + by right.
    + intros z [-> | Hz]%elem_of_cons; [by apply earlier_true | by apply Hmin].
    + by left.
    + apply earlier_false in E.
      intros z [-> | Hz]%elem_of_cons; [unfold fires_before; lia|].
      eapply fires_before_trans; [exact E | by apply Hmin].
  - intros [= <-]. apply foldr_pick_none in Ey as ->. split; [by left|].
    intros z [-> | Hz]%elem_of_cons; [unfold fires_before; lia | inversion Hz].
Qed.


(** [next_timer] returns a live timer that fires no later than any other. *)
Lemma next_timer_spec tm h t :
  next_timer tm = Some (h, t) ->
  tm_live tm !! h = Some t /\
  forall h' t', tm_live tm !! h' = Some t' -> fires_before t t'.
Proof.
  unfold next_timer. intros [Hin Hmin]%foldr_pick_spec.
  split; [by apply elem_of_map_to_list|].
  intros h' t' Ht'. apply (Hmin (h', t')). by apply elem_of_map_to_list.
Qed.

Lemma next_timer_none tm : next_timer tm = None -> tm_live tm = ∅.
Proof.
  unfold next_timer. intros H%foldr_pick_none.
  by apply map_to_list_empty_iff.
Qed.

Lemma fire_timer_wf tm h cb tm' :
  timers_wf tm -> fire_timer tm = Some (h, cb, tm') -> timers_wf tm'.
Proof.
  unfold fire_timer. intros Hwf.
  destruct (next_timer tm) as [[h0 t]|] eqn:En; [|done].
  apply next_timer_spec in En as [Ht Hmin]. intros [= <- <- <-].
  pose proof (Hwf _ _ Ht) as [? [? ?]].
  intros h' t'. simpl. destruct (t_period t) as [p|].
  - destruct (decide (h' = h0)) as [->|Hne].
    + rewrite lookup_insert_eq. intros [= <-]. simpl. lia.
    + rewrite lookup_insert_ne by done. intros Ht'.
      pose proof (Hwf _ _ Ht'). specialize (Hmin _ _ Ht'). unfold fires_before in Hmin. lia.
  - destruct (decide (h' = h0)) as [->|Hne]; [by rewrite lookup_delete_eq|].
    rewrite lookup_delete_ne by done. intros Ht'.
    pose proof (Hwf _ _ Ht'). specialize (Hmin _ _ Ht'). unfold fires_before in Hmin. lia.
Qed.

(** What firing does: the earliest timer [x] at [h] runs, the clock jumps
    to its due time, and [x] is removed or re-armed one period later. *)
Lemma fire_timer_spec tm h cb tm' :
  fire_timer tm = Some (h, cb, tm') ->
  exists x, tm_live tm !! h = Some x /\ cb = t_cb x /\
    (forall h' x', tm_live tm !! h' = Some x' -> fires_before x x') /\
    tm' = mkTimers (t_due x)
            (match t_period x with
             | None => delete h (tm_live tm)
             | Some p => <[h := mkTimer (t_due x + p) (tm_next tm) (Some p) (t_cb x)]> (tm_live tm)
             end) (S (tm_next tm)).
Proof.
  unfold fire_timer. destruct (next_timer tm) as [[h0 x]|] eqn:En; [|done].
  apply next_timer_spec in En as [Hx Hmin]. intros [= <- <- <-]. eauto 10.
Qed.

(** The clock never goes backwards. *)
Lemma fire_timer_monotone tm h cb tm' :
  timers_wf tm -> fire_timer tm = Some (h, cb, tm') -> tm_now tm <= tm_now tm'.
Proof.
  unfold fire_timer. intros Hwf.
  destruct (next_timer tm) as [[h0 t]|] eqn:En; [|done].
  apply next_timer_spec in En as [Ht _]. intros [= <- <- <-]. simpl.
  by apply Hwf in Ht as [_ [_ ?]].
Qed.

End Registry.

#[export] Hint Resolve set_timer_wf clear_timer_wf fire_timer_wf : hw.
