(* ===== verification/Ports.v ===== *)
(** * Ports: the GPIO table and the output shortcuts

    [src/halloween.js] lines 54-65 ([Ports]), 90-108 ([portOn], [portOff],
    [portPWM]) and 372-393 ([init], [exit]).  A port is a pin, a direction
    and an optional [invert] flag (the net light is active-low).  [portOn]
    and [portOff] write the physical level of an output port and do
    nothing on an input port; [portPWM] sends the daemon the command
    [p <pin> <Math.floor(value * 250)>]; [exit] writes every output port
    its off level synchronously.  The writes themselves are effects of
    [Runtime]; here are their values, and the text of a PWM command as
    [sendPigpioCommand] writes it to the pipe, with the daemon's reading
    of that text to show that it determines the command. *)

From Stdlib Require Import QArith Qround ZArith Ascii String.
From Stdlib Require DecimalString DecimalNat DecimalZ.
From S2P Require Import Prelude.

Inductive PortName :=
  | sensor1 | sensor2 | sensor3
  | lightNet | lightDog | soundDog | lightSkull1 | lightSkull2
  | flashLight1 | flashLight2.

Inductive Dir := dir_in | dir_out.

Record Port := mkPort { pin : nat; dir : Dir; invert : bool }.

#[export] Instance PortName_eq_dec : EqDecision PortName.
Proof. solve_decision. Defined.
#[export] Instance Dir_eq_dec : EqDecision Dir.
Proof. solve_decision. Defined.

(** The port table, in the object's key order. *)
Definition Ports (p : PortName) : Port :=
  match p with
  | sensor1 => mkPort 22 dir_in false
  | sensor2 => mkPort 23 dir_in false
  | sensor3 => mkPort 27 dir_in false
  | lightNet => mkPort 2 dir_out true
  | lightDog => mkPort 18 dir_out false
  | soundDog => mkPort 17 dir_out false
  | lightSkull1 => mkPort 14 dir_out false
  | lightSkull2 => mkPort 15 dir_out false
  | flashLight1 => mkPort 3 dir_out false
  | flashLight2 => mkPort 4 dir_out false
  end.

(** [for (var port in Ports)]. *)
Definition all_ports : list PortName :=
  [sensor1; sensor2; sensor3; lightNet; lightDog; soundDog;
   lightSkull1; lightSkull2; flashLight1; flashLight2].

Definition is_out (p : PortName) : bool := bool_decide (dir (Ports p) = dir_out).

(** [portOn]: [gpio.write(invert ? 0 : 1)] on an output port, nothing
    otherwise. *)
Definition portOn_level (p : PortName) : option nat :=
  if is_out p then Some (if invert (Ports p) then 0 else 1) else None.

(** [portOff]: [gpio.write(invert ? 1 : 0)] on an output port. *)
Definition portOff_level (p : PortName) : option nat :=
  if is_out p then Some (if invert (Ports p) then 1 else 0) else None.

(** A command of the pigpio pipe: [p <pin> <duty>]. *)
Record PwmCmd := mkPwmCmd { cmd_pin : nat; cmd_duty : Z }.

(** [Math.floor(value * 250)]. *)
Definition pwm_duty (value : Q) : Z := Qfloor (value * 250).

(** [portPWM]: only when [Ports[portName].pin] is truthy. *)
Definition portPWM_cmd (p : PortName) (value : Q) : option PwmCmd :=
  if truthy (pin (Ports p)) then Some (mkPwmCmd (pin (Ports p)) (pwm_duty value)) else None.

(** [sendPigpioCommand] ends the command with ['\n']. *)
Definition newline : Ascii.ascii := Ascii.ascii_of_nat 10.

(** The text written to the pipe: ['p ' + pin + ' ' + duty] followed by
    ['\n'] ([sendPigpioCommand]), the two integers in the decimal form
    JavaScript prints them in (no leading zero, a minus sign when
    negative). *)
Definition pigpio_line (c : PwmCmd) : String.string :=
  String.append "p "%string
    (String.append (DecimalString.NilZero.string_of_uint (Nat.to_uint (cmd_pin c)))
       (String.String " "%char
          (String.append (DecimalString.NilZero.string_of_int (Z.to_int (cmd_duty c)))
             (String.String newline String.EmptyString)))).

(** The daemon's side of the pipe, for the grammar [p <gpio> <dutycycle>]
    of the pigpio pipe interface: a word ends at the separator. *)
Fixpoint split_at (sep : Ascii.ascii) (s : String.string) : option (String.string * String.string) :=
  match s with
  | String.EmptyString => None
  | String.String a s' =>
      if Ascii.eqb a sep then Some (String.EmptyString, s')
      else option_map (fun '(w, r) => (String.String a w, r)) (split_at sep s')
  end.

Definition parse_nat (w : String.string) : option nat :=
  option_map Nat.of_uint (DecimalString.NilZero.uint_of_string w).

Definition parse_int (w : String.string) : option Z :=
  option_map Z.of_int (DecimalString.NilZero.int_of_string w).

(** Reading one command line: [p], a space, the pin, a space, the duty
    and the newline ending the line. *)
Definition parse_pigpio_line (s : String.string) : option PwmCmd :=
  match s with
  | String.String a (String.String b rest) =>
      if Ascii.eqb a "p"%char && Ascii.eqb b " "%char then
        match split_at " "%char rest with
        | Some (w1, r1) =>
            match split_at newline r1 with
            | Some (w2, String.EmptyString) =>
                match parse_nat w1, parse_int w2 with
                | Some n, Some z => Some (mkPwmCmd n z)
                | _, _ => None
                end
            | _ => None
            end
        | None => None
        end
      else None
  | _ => None
  end.

(** [exit]: [gpio.writeSync(invert ? 1 : 0)] on every output port, in
    table order. *)
Definition exit_writes : list (PortName * nat) :=
  omap (fun p => if is_out p then Some (p, if invert (Ports p) then 1 else 0) else None)
       all_ports.

(** [init]: [portOff(port)] on every port, in table order. *)
Definition init_writes : list (PortName * nat) :=
  omap (fun p => (fun l => (p, l)) <$> portOff_level p) all_ports.

(** ** Lemmas *)

Lemma all_ports_complete p : p ∈ all_ports.
Proof. apply list_elem_of_In. destruct p; simpl; tauto. Qed.

Lemma all_ports_nodup : NoDup all_ports.
Proof. apply (bool_decide_unpack _). reflexivity. Qed.

(** On and off levels of an output port are distinct and 0/1. *)
Lemma port_levels p :
  is_out p = true ->
  exists on off, portOn_level p = Some on /\ portOff_level p = Some off /\
                 on <> off /\ on <= 1 /\ off <= 1.
Proof.
  unfold portOn_level, portOff_level. intros ->.
  destruct (invert (Ports p)); eauto 10.
Qed.

Lemma Qfloor_div_250 (a b : Z) :
  (0 < b)%Z -> pwm_duty (inject_Z a / inject_Z b) = (a * 250 / b)%Z.
Proof.
  intros Hb. unfold pwm_duty. rewrite Zdiv_Qdiv. apply Qfloor_comp.
  rewrite inject_Z_mult. field. intros Hq.
  unfold Qeq in Hq. simpl in Hq. lia.
Qed.

(** The characters of a printed number. *)
Definition number_chars : list Ascii.ascii :=
  ["0"; "1"; "2"; "3"; "4"; "5"; "6"; "7"; "8"; "9"; "-"]%char.

Lemma split_at_digits sep u t :
  sep ∉ number_chars ->
  split_at sep (String.append (DecimalString.NilEmpty.string_of_uint u) (String.String sep t)) =
    Some (DecimalString.NilEmpty.string_of_uint u, t).
Proof.
  intros Hsep. induction u; cbn [DecimalString.NilEmpty.string_of_uint String.append split_at];
    [by rewrite Ascii.eqb_refl|..];
    (case Ascii.eqb_spec; [intros <-; destruct Hsep; rewrite list_elem_of_In; simpl; tauto|intros _]);
    by rewrite IHu.
Qed.

Lemma split_at_uint sep u t :
  sep ∉ number_chars ->
  split_at sep (String.append (DecimalString.NilZero.string_of_uint u) (String.String sep t)) =
    Some (DecimalString.NilZero.string_of_uint u, t).
Proof.
  intros Hsep. destruct u; [|by apply split_at_digits ..].
  exact (split_at_digits sep (Decimal.D0 Decimal.Nil) t Hsep).
Qed.

Lemma split_at_int sep d t :
  sep ∉ number_chars ->
  split_at sep (String.append (DecimalString.NilZero.string_of_int d) (String.String sep t)) =
    Some (DecimalString.NilZero.string_of_int d, t).
Proof.
  intros Hsep. destruct d as [u|u]; [by apply split_at_uint|].
  cbn [DecimalString.NilZero.string_of_int String.append split_at].
  case Ascii.eqb_spec; [intros <-; destruct Hsep; rewrite list_elem_of_In; simpl; tauto|intros _].
  by rewrite split_at_uint.
Qed.

Lemma parse_nat_print n : parse_nat (DecimalString.NilZero.string_of_uint (Nat.to_uint n)) = Some n.
Proof.
  unfold parse_nat. rewrite <- (DecimalNat.Unsigned.of_to n) at 2.
  destruct (Nat.to_uint n); try done; by rewrite DecimalString.NilZero.usu.
Qed.

Lemma parse_int_print z : parse_int (DecimalString.NilZero.string_of_int (Z.to_int z)) = Some z.
Proof.
  unfold parse_int. rewrite <- (DecimalZ.of_to z) at 2.
  destruct (Z.to_int z) as [u|u]; destruct u; try done; by rewrite DecimalString.NilZero.isi.
Qed.

Lemma separators_not_number : (" "%char ∉ number_chars) /\ (newline ∉ number_chars).
Proof. split; rewrite list_elem_of_In; simpl; intuition discriminate. Qed.

(** C24: the text [portPWM] writes to the pigpio pipe reads back as the
    command it encodes: the daemon's reading of the line recovers the pin
    and the duty, the line ending at its newline. *)
Theorem pigpio_line_roundtrip c : parse_pigpio_line (pigpio_line c) = Some c.
Proof.
  destruct c as [p d]. destruct separators_not_number as [Hsp Hnl].
  unfold pigpio_line. cbn [String.append parse_pigpio_line Ascii.eqb Bool.eqb andb].
  rewrite split_at_uint, split_at_int by done.
  by rewrite parse_nat_print, parse_int_print.
Qed.

(** C38: the exit handler writes each output port once, at its safe off
    level (the inverted net light at 1, every other output at 0), and
    writes nothing to an input. *)
Theorem exit_writes_safe :
  NoDup (map fst exit_writes) /\
  forall p l, (p, l) ∈ exit_writes <-> is_out p = true /\ portOff_level p = Some l.
Proof.
  split; [apply (bool_decide_unpack _); reflexivity|].
  intros p l. rewrite list_elem_of_In. unfold portOff_level.
  destruct p; simpl; intuition congruence.
Qed.
