(* ===== verification/Runtime.v ===== *)
(** * Runtime: the shared objects, the closures, and the primitive effects

    [src/halloween.js] lines 67-87 ([State], [IOEnabled]), 89-130 (the
    output shortcuts and [sendPigpioCommand]) and 132-134 ([curtime]).

    Every closure the program passes to a timer or to the pigpio pipe is a
    constructor of [Callback] or [PwmCallback] (defunctionalisation): the
    event loop of [System] dispatches on it.  The context [Ctx] is what
    every handler shares: the timer registry (with the clock), the
    [State] and [IOEnabled] objects, the log of physical outputs, the
    pigpio commands in flight with their completion callbacks, and the
    player processes.  Handlers are [ST Ctx] computations. *)

From stdpp Require Import gmap.
From Stdlib Require Import NArith QArith ZArith String.
From S2P Require Import Prelude Timers Ports.

#[local] Open Scope N_scope.

(** ** Configuration (lines 13-51) *)

Definition SENSOR_SETUP_TIME : N := 30000.
Definition SENSOR_TIMEOUT : N := 5000.
Definition START_DELAY : N := 4000.
Definition FLASH_INTERVAL : N := 2000.
Definition FLASH_DURATION : N := 500.
Definition COOL_DOWN_DURATION : N := 90000.
Definition DOG_ON_DURATION : N := 16000.
Definition DOG_OFF_DURATION : N := 15000.
Definition DOG_TRANSITION : N := 2000.
Definition SKULL1_ON_DURATION : N := 2000.
Definition SKULL1_OFF_DURATION : N := 1500.
Definition SKULL1_TRANSITION : N := 1500.
Definition SKULL2_ON_DURATION : N := 3000.
Definition SKULL2_OFF_DURATION : N := 2000.
Definition SKULL2_TRANSITION : N := 1500.
Definition PWM_PRECISION : N := 10.
Definition TRANSITION_INTERVAL : N := 40.

Close Scope N_scope.

(** ** The [State] object *)

Inductive Mode := idle | delay | run | cool_down.

#[export] Instance Mode_eq_dec : EqDecision Mode.
Proof. solve_decision. Defined.

Inductive Sensor := Sensor1 | Sensor2 | Sensor3.

#[export] Instance Sensor_eq_dec : EqDecision Sensor.
Proof. solve_decision. Defined.

Definition sensor_port (x : Sensor) : PortName :=
  match x with Sensor1 => sensor1 | Sensor2 => sensor2 | Sensor3 => sensor3 end.

Record JState := mkJState {
  st_mode : Mode;
  st_sensor1 : bool; st_sensor2 : bool; st_sensor3 : bool;
  st_lightNet : nat; st_lightDog : nat; st_lightSkull1 : nat;
  st_lightSkull2 : nat; st_soundDog : nat;
  st_uptime : option N          (** added by the first [getStatus] *)
}.

Definition State0 : JState := mkJState idle false false false 0 0 0 0 0 None.

Definition set_mode (m : Mode) (s : JState) : JState :=
  mkJState m (st_sensor1 s) (st_sensor2 s) (st_sensor3 s) (st_lightNet s)
    (st_lightDog s) (st_lightSkull1 s) (st_lightSkull2 s) (st_soundDog s) (st_uptime s).

(** [State[sensorName]]. *)
Definition state_sensor (x : Sensor) (s : JState) : bool :=
  match x with Sensor1 => st_sensor1 s | Sensor2 => st_sensor2 s | Sensor3 => st_sensor3 s end.

Definition set_state_sensor (x : Sensor) (b : bool) (s : JState) : JState :=
  let 'mkJState m s1 s2 s3 ln ld l1 l2 sd up := s in
  match x with
  | Sensor1 => mkJState m b s2 s3 ln ld l1 l2 sd up
  | Sensor2 => mkJState m s1 b s3 ln ld l1 l2 sd up
  | Sensor3 => mkJState m s1 s2 b ln ld l1 l2 sd up
  end.

(** [State[channelName]] for the light entries; any other key is
    [undefined] (falsy) and is never written by the program. *)
Definition state_light (ch : PortName) (s : JState) : nat :=
  match ch with
  | lightNet => st_lightNet s | lightDog => st_lightDog s
  | lightSkull1 => st_lightSkull1 s | lightSkull2 => st_lightSkull2 s
  | soundDog => st_soundDog s | _ => 0
  end.

Definition set_state_light (ch : PortName) (n : nat) (s : JState) : JState :=
  let 'mkJState m s1 s2 s3 ln ld l1 l2 sd up := s in
  match ch with
  | lightNet => mkJState m s1 s2 s3 n ld l1 l2 sd up
  | lightDog => mkJState m s1 s2 s3 ln n l1 l2 sd up
  | lightSkull1 => mkJState m s1 s2 s3 ln ld n l2 sd up
  | lightSkull2 => mkJState m s1 s2 s3 ln ld l1 n sd up
  | soundDog => mkJState m s1 s2 s3 ln ld l1 l2 n up
  | _ => s
  end.

(** ** The [IOEnabled] object *)

Record IOEnabled := mkIOEnabled {
  en_sensor1 : bool; en_sensor2 : bool; en_sensor3 : bool; en_music : bool
}.

Definition IOEnabled0 : IOEnabled := mkIOEnabled true true true true.

Definition enabled_sensor (x : Sensor) (io : IOEnabled) : bool :=
  match x with Sensor1 => en_sensor1 io | Sensor2 => en_sensor2 io | Sensor3 => en_sensor3 io end.

(** ** The closures *)

Inductive Callback :=
  | CbSensorTimeout (x : Sensor)      (** [setTimeout(cb, SENSOR_TIMEOUT)] of [SensorWatch] *)
  | CbFlashOn | CbFlashOff            (** [Flasher]'s [flashOn], [flashOff] *)
  | CbSFTransitionStep (ch : PortName)  (** [SlowFlasher]'s closures *)
  | CbSFChannelOn (ch : PortName)
  | CbSFChannelOff (ch : PortName)
  | CbSFRunTransition (ch : PortName)
  | CbSFPTransitionStep (ch : PortName) (** [SlowFlasherPigpio]'s closures *)
  | CbSFPRunTransition (ch : PortName)
  | CbStartSkull1 | CbStartSkull2     (** the randomly delayed skull starts *)
  | CbStartDelay                      (** the pre-roll delay of [startPerformance] *)
  | CbCoolDownEnd                     (** [State.mode = 'idle'] after the cool-down *)
  | CbSensorSetup.                    (** [new SensorArray(startPerformance)] *)

#[export] Instance Callback_eq_dec : EqDecision Callback.
Proof. solve_decision. Defined.

(** The completion callback given to [portPWM]. *)
Inductive PwmCallback := PcEndTransition (ch : PortName).

#[export] Instance PwmCallback_eq_dec : EqDecision PwmCallback.
Proof. solve_decision. Defined.

(** ** Outputs and the context *)

Inductive Output :=
  | OGpio (p : PortName) (level : nat)   (** [gpio.write(level)] *)
  | OPwm (c : PwmCmd)                    (** a line written to the pigpio pipe *)
  | OSpawn (pid : nat) (cmd : string) (args : list string) (cwd : string)
                                         (** [spawn(cmd, args, { cwd: cwd })] *)
  | OQuit (pid : nat).                   (** [playerProcess.stdin.write('q')] *)

Record Ctx := mkCtx {
  c_timers : timers Callback;
  c_state : JState;
  c_enabled : IOEnabled;
  c_out : list Output;                           (** chronological *)
  c_pipe : list (PwmCmd * option PwmCallback);   (** commands in flight *)
  c_procs : list nat;                            (** live player processes *)
  c_next_pid : nat;
  c_exited : bool                                (** [process.exit] was called *)
}.

Definition Ctx0 : Ctx := mkCtx (empty_timers 0) State0 IOEnabled0 [] [] [] 0 false.

Definition upd_timers (f : timers Callback -> timers Callback) (c : Ctx) : Ctx :=
  mkCtx (f (c_timers c)) (c_state c) (c_enabled c) (c_out c) (c_pipe c) (c_procs c) (c_next_pid c) (c_exited c).
Definition upd_state (f : JState -> JState) (c : Ctx) : Ctx :=
  mkCtx (c_timers c) (f (c_state c)) (c_enabled c) (c_out c) (c_pipe c) (c_procs c) (c_next_pid c) (c_exited c).
Definition upd_enabled (f : IOEnabled -> IOEnabled) (c : Ctx) : Ctx :=
  mkCtx (c_timers c) (c_state c) (f (c_enabled c)) (c_out c) (c_pipe c) (c_procs c) (c_next_pid c) (c_exited c).
Definition emit (o : Output) (c : Ctx) : Ctx :=
  mkCtx (c_timers c) (c_state c) (c_enabled c) (c_out c ++ [o]) (c_pipe c) (c_procs c) (c_next_pid c) (c_exited c).
Definition upd_pipe (f : list (PwmCmd * option PwmCallback) -> list (PwmCmd * option PwmCallback)) (c : Ctx) : Ctx :=
  mkCtx (c_timers c) (c_state c) (c_enabled c) (c_out c) (f (c_pipe c)) (c_procs c) (c_next_pid c) (c_exited c).
Definition upd_procs (f : list nat -> list nat) (c : Ctx) : Ctx :=
  mkCtx (c_timers c) (c_state c) (c_enabled c) (c_out c) (c_pipe c) (f (c_procs c)) (c_next_pid c) (c_exited c).

Abbreviation M := (ST Ctx).

(** ** Primitive effects *)

(** [curtime()]: the event loop's clock. *)
Definition curtime : M N := gets (fun c => tm_now (c_timers c)).

Definition setTimeout (cb : Callback) (d : N) : M nat :=
  fun c => let (h, tm) := set_timer d false cb (c_timers c) in (h, upd_timers (fun _ => tm) c).
Definition setInterval (cb : Callback) (d : N) : M nat :=
  fun c => let (h, tm) := set_timer d true cb (c_timers c) in (h, upd_timers (fun _ => tm) c).
(** [clearTimeout(x)] and [clearInterval(x)], [x] possibly [null]. *)
Definition clearTimer (h : option nat) : M unit := modify (upd_timers (clear_timer h)).

Definition getState : M JState := gets c_state.
Definition modifyState (f : JState -> JState) : M unit := modify (upd_state f).
Definition getLight (ch : PortName) : M nat := gets (fun c => state_light ch (c_state c)).
Definition setLight (ch : PortName) (n : nat) : M unit := modifyState (set_state_light ch n).
Definition setMode (m : Mode) : M unit := modifyState (set_mode m).
Definition getMode : M Mode := gets (fun c => st_mode (c_state c)).

Definition gpio_write (o : option nat) (p : PortName) : M unit :=
  match o with Some l => modify (emit (OGpio p l)) | None => ret tt end.

(** [portOn(portName)] and [portOff(portName)] (no caller passes [cb]). *)
Definition portOn (p : PortName) : M unit := gpio_write (portOn_level p) p.
Definition portOff (p : PortName) : M unit := gpio_write (portOff_level p) p.

(** [portPWM(portName, value, cb)]: [sendPigpioCommand] opens the pipe
    and writes the line asynchronously; the command is in flight until
    its completion ([pipe_complete]) runs [cb]. *)
Definition portPWM (p : PortName) (value : Q) (cb : option PwmCallback) : M unit :=
  match portPWM_cmd p value with
  | Some cmd => modify (emit (OPwm cmd)) ;; modify (upd_pipe (fun l => l ++ [(cmd, cb)]))
  | None => ret tt
  end.

(** How a [sendPigpioCommand] completes. *)
Inductive PipeResult := pipe_ok | pipe_write_error | pipe_open_error.

(** Whether a completion hands an error to its callback. *)
Definition pipe_failed (r : PipeResult) : bool := match r with pipe_ok => false | _ => true end.

(** The completion of the [i]-th command in flight: on an open error the
    process exits ([process.exit(1)]); otherwise the callback, if any, is
    returned with the error flag ([cb(err)] or [cb()]). *)
Definition pipe_complete (i : nat) (r : PipeResult) (c : Ctx) : option (option (PwmCallback * bool) * Ctx) :=
  match c_pipe c !! i with
  | None => None
  | Some (_, cb) =>
      let c' := upd_pipe (fun l => take i l ++ drop (S i) l) c in
      match r with
      | pipe_open_error =>
          Some (None, mkCtx (c_timers c') (c_state c') (c_enabled c') (c_out c') (c_pipe c')
                            (c_procs c') (c_next_pid c') true)
      | pipe_write_error => Some ((fun f => (f, true)) <$> cb, c')
      | pipe_ok => Some ((fun f => (f, false)) <$> cb, c')
      end
  end.

(** The sound player's command line (lines 40-43). *)
Definition SOUND_PLAYER_CMD : string := "omxplayer".
Definition SOUND_PLAYER_ARGS : list string := ["-o"; "local"; "sound2.mp3"]%string.
Definition SOUND_PLAYER_ARGS_MUTE : list string := ["--vol"; "-6000"]%string ++ SOUND_PLAYER_ARGS.
(** [SOUND_PLAYER_OPTIONS = { cwd: '/opt/halloween' }]. *)
Definition SOUND_PLAYER_CWD : string := "/opt/halloween".

(** [IOEnabled.music ? SOUND_PLAYER_ARGS : SOUND_PLAYER_ARGS_MUTE]. *)
Definition player_args (music : bool) : list string :=
  if music then SOUND_PLAYER_ARGS else SOUND_PLAYER_ARGS_MUTE.

(** [spawn(SOUND_PLAYER_CMD, player_args, SOUND_PLAYER_OPTIONS)]: a new
    process, numbered by the context's counter. *)
Definition spawnPlayer : M nat :=
  fun c =>
    let pid := c_next_pid c in
    (pid, mkCtx (c_timers c) (c_state c) (c_enabled c)
                (c_out c ++ [OSpawn pid SOUND_PLAYER_CMD (player_args (en_music (c_enabled c))) SOUND_PLAYER_CWD])
                (c_pipe c) (c_procs c ++ [pid]) (S pid) (c_exited c)).

(** [playerProcess.stdin.write('q')]. *)
Definition quitPlayer (pid : nat) : M unit := modify (emit (OQuit pid)).

(** ** Lemmas *)

(** A sequence of GPIO writes, as [init] and [exit] make them. *)
Lemma fold_emit l c :
  fold_left (fun c pl => emit (OGpio pl.1 pl.2) c) l c =
  mkCtx (c_timers c) (c_state c) (c_enabled c) (c_out c ++ ((fun pl => OGpio pl.1 pl.2) <$> l))
        (c_pipe c) (c_procs c) (c_next_pid c) (c_exited c).
Proof.
  revert c. induction l as [|pl l IH]; intros c; simpl; [by destruct c; rewrite app_nil_r|].
  rewrite IH. simpl. by rewrite <- app_assoc.
Qed.

Lemma state_light_set ch n s :
  ch ∈ [lightNet; lightDog; lightSkull1; lightSkull2; soundDog] ->
  state_light ch (set_state_light ch n s) = n.
Proof. destruct s; intros Hin; repeat (apply elem_of_cons in Hin as [->|Hin]; [done|]); inversion Hin. Qed.

Lemma state_light_set_ne ch ch' n s :
  ch <> ch' -> state_light ch' (set_state_light ch n s) = state_light ch' s.
Proof. destruct s, ch, ch'; simpl; congruence. Qed.

Lemma mode_set_light ch n s : st_mode (set_state_light ch n s) = st_mode s.
Proof. by destruct s, ch. Qed.

Lemma state_light_set_mode ch m s : state_light ch (set_mode m s) = state_light ch s.
Proof. by destruct s, ch. Qed.

Lemma state_sensor_set x b s : state_sensor x (set_state_sensor x b s) = b.
Proof. by destruct s, x. Qed.

Lemma state_sensor_set_ne x y b s :
  x <> y -> state_sensor y (set_state_sensor x b s) = state_sensor y s.
Proof. destruct s, x, y; simpl; congruence. Qed.

Lemma mode_set_sensor x b s : st_mode (set_state_sensor x b s) = st_mode s.
Proof. by destruct s, x. Qed.

#[export] Hint Rewrite state_light_set_mode mode_set_light state_sensor_set mode_set_sensor : hw_rw.

(** What a completion changes: the pipe (and, on an open error, the exit
    flag); the callback it runs is the one the command was sent with. *)
Lemma pipe_complete_ctx i r c o c' :
  pipe_complete i r c = Some (o, c') ->
  c_timers c' = c_timers c /\ c_state c' = c_state c /\
  (r <> pipe_open_error -> c_exited c' = c_exited c) /\
  (r = pipe_open_error -> o = None) /\
  (forall pcb err, o = Some (pcb, err) -> exists cmd, c_pipe c !! i = Some (cmd, Some pcb) /\ err = pipe_failed r).
Proof.
  unfold pipe_complete. destruct (c_pipe c !! i) as [[cmd cb]|]; [|done].
  destruct r; intros [= <- <-]; split_and!; try done;
    intros pcb err; destruct cb; cbn; intros [= -> <-]; by eexists.
Qed.

(** A completion removes its command from those in flight. *)
Lemma pipe_complete_pipe i r c o c' :
  pipe_complete i r c = Some (o, c') -> c_pipe c' = take i (c_pipe c) ++ drop (S i) (c_pipe c).
Proof.
  unfold pipe_complete. destruct (c_pipe c !! i) as [[cmd cb]|]; [|done].
  by destruct r; intros [= <- <-].
Qed.

