(* ===== verification/Animator.v ===== *)
(** * The animator interface

    The program has two animators with the same shape, [SlowFlasher] and
    [SlowFlasherPigpio]: both are built from a channel, on/off durations,
    a transition and an optional [stateCallback], and both offer [start]
    and [stop].  The main closure switches from one to the other by
    commenting code out (lines 510-542).  [Animator] is what the main
    closure relies on: [start] and [stop] as [ST Ctx] computations that
    leave the performance's own part of the context alone ([ctx_frame]).
    [Performance] is proved against this class; [SlowFlasherPigpio] and
    [SlowFlasher] are its instances.  The class also names the closures
    an animator arms ([anim_cb]), so that a client can tell its own
    timers from the animators'.

    Four compositional predicates on [ST Ctx] computations, with a lemma
    per primitive effect and a tactic that chains them: [ctx_frame] (the
    controller's part of the context is untouched), [adds_only Q] (every
    new live timer holds a closure satisfying [Q]), [keeps_exit] (the
    process is not ended) and [keeps_pipe] (no command is sent to the
    pigpio daemon).  [pwm_typed] is the well-formedness of a command in
    flight that the whole program keeps (System.v).

    The only [stateCallback] of the program is [controlDogSound]
    (lines 491-499), which copies the dog light's state to the dog sound. *)

From stdpp Require Import gmap.
From Stdlib Require Import NArith.
From S2P Require Import Prelude Timers Ports Runtime.

Inductive StateCb := ControlDogSound.

(** [controlDogSound]. *)
Definition controlDogSound : M unit :=
  d <- gets (fun c => st_lightDog (c_state c)) ;;
  if truthy d then portOn soundDog ;; setLight soundDog 1
  else portOff soundDog ;; setLight soundDog 0.

(** [stateCallback && stateCallback()]. *)
Definition runStateCallback (cb : option StateCb) : M unit :=
  match cb with
  | Some ControlDogSound => controlDogSound
  | None => ret tt
  end.

(** The part of the context an animator must not change: the mode, the
    net light, the sensors, the enabled flags, the player processes. *)
Definition ctx_frame (c c' : Ctx) : Prop :=
  st_mode (c_state c') = st_mode (c_state c) /\
  st_lightNet (c_state c') = st_lightNet (c_state c) /\
  (forall x, state_sensor x (c_state c') = state_sensor x (c_state c)) /\
  c_enabled c' = c_enabled c /\
  c_procs c' = c_procs c /\ c_next_pid c' = c_next_pid c /\ c_exited c' = c_exited c /\
  exists l, c_out c' = c_out c ++ l.

#[export] Instance ctx_frame_refl : Reflexive ctx_frame.
Proof. intros c. repeat split; try done. exists []. by rewrite app_nil_r. Qed.

#[export] Instance ctx_frame_trans : Transitive ctx_frame.
Proof.
  intros c1 c2 c3 (?&?&Hs&?&?&?&?&[l1 Hl1]) (?&?&Hs'&?&?&?&?&[l2 Hl2]).
  repeat split; try congruence. exists (l1 ++ l2). by rewrite Hl2, Hl1, app_assoc.
Qed.

(** The timers a computation may arm: every live timer afterwards was
    live before or holds a closure satisfying [Q].  (It may cancel any.) *)
Definition adds_only {A} (Q : Callback -> Prop) (m : M A) : Prop :=
  forall c h x, tm_live (c_timers (exec m c)) !! h = Some x ->
    tm_live (c_timers c) !! h = Some x \/ Q (t_cb x).

(** A computation that sends no command to the pigpio daemon: the
    commands in flight are untouched. *)
Definition keeps_pipe {A} (m : M A) : Prop := forall c, c_pipe (exec m c) = c_pipe c.

Class Animator (A : Type) := {
  anim_channel : A -> PortName;
  anim_start : A -> M A;
  anim_stop : A -> M A;
  anim_cb : Callback -> Prop;
  anim_start_channel a c : anim_channel (eval (anim_start a) c) = anim_channel a;
  anim_stop_channel a c : anim_channel (eval (anim_stop a) c) = anim_channel a;
  anim_start_frame a c : anim_channel a <> lightNet -> ctx_frame c (exec (anim_start a) c);
  anim_stop_frame a c : anim_channel a <> lightNet -> ctx_frame c (exec (anim_stop a) c);
  anim_start_adds a : adds_only anim_cb (anim_start a);
  anim_stop_adds a : adds_only anim_cb (anim_stop a);
  anim_start_pipe a : keeps_pipe (anim_start a);
  anim_stop_pipe a : keeps_pipe (anim_stop a)
}.

(** The animated lights: every animator of the program drives one. *)
Definition anim_lights : list PortName := [lightDog; lightSkull1; lightSkull2].

(** A well-formed command in flight: a PWM command for the pin of an
    animated light with a duty in the daemon's range [0, 250]; a
    completion callback, when there is one, ends a ramp of that same
    light and rides on a duty-0 command. *)
Definition pwm_typed (e : PwmCmd * option PwmCallback) : Prop :=
  exists ch, ch ∈ anim_lights /\ cmd_pin e.1 = pin (Ports ch) /\ (0 <= cmd_duty e.1 <= 250)%Z /\
    match e.2 with None => True | Some (PcEndTransition ch') => ch' = ch /\ cmd_duty e.1 = 0%Z end.

(** The light state after a ramp: [State[ch] ? 0 : 1]. *)
Definition flipped (s : nat) : nat := if truthy s then 0 else 1.

(** Whether the end of a ramp arms the hold timer:
    [!that._stopFlag || State[channelName]]. *)
Definition rearms (stopFlag : bool) (s : nat) : bool := negb stopFlag || truthy s.

(** A context with new timers, state, output and pipe. *)
Definition mkctx_with (c : Ctx) (tm : timers Callback) (st : JState) (out : list Output)
    (pipe : list (PwmCmd * option PwmCallback)) : Ctx :=
  mkCtx tm st (c_enabled c) out pipe (c_procs c) (c_next_pid c) (c_exited c).

Ltac chan_cases H := repeat (apply elem_of_cons in H as [->|H]); [..|by apply elem_of_nil in H].

(** Case on the truthiness of the light states the goal mentions. *)
Ltac case_truthy :=
  repeat match goal with
         | |- context [truthy ?n] => is_var n; destruct (truthy n) eqn:?; simpl
         end.

(** ** Frame lemmas for the primitive effects *)

Lemma frame_timers f c : ctx_frame c (upd_timers f c).
Proof. destruct c. repeat split. exists []. by rewrite app_nil_r. Qed.

Lemma frame_emit o c : ctx_frame c (emit o c).
Proof. destruct c. repeat split. by exists [o]. Qed.

Lemma frame_pipe f c : ctx_frame c (upd_pipe f c).
Proof. destruct c. repeat split. exists []. by rewrite app_nil_r. Qed.

Lemma frame_set_light ch n c :
  ch <> lightNet -> ctx_frame c (upd_state (set_state_light ch n) c).
Proof.
  intros Hch. destruct c as [tm [] ? ? ? ? ? ?]; simpl.
  repeat split; try (destruct ch; simpl; congruence).
  - intros x. destruct ch, x; simpl; congruence.
  - exists []. by rewrite app_nil_r.
Qed.

#[export] Hint Resolve frame_timers frame_emit frame_pipe frame_set_light : hw.

Lemma frame_portOn p c : ctx_frame c (exec (portOn p) c).
Proof. unfold portOn, gpio_write. destruct (portOn_level p); simpl; auto with hw. reflexivity. Qed.

Lemma frame_portOff p c : ctx_frame c (exec (portOff p) c).
Proof. unfold portOff, gpio_write. destruct (portOff_level p); simpl; auto with hw. reflexivity. Qed.

Lemma frame_portPWM p v cb c : ctx_frame c (exec (portPWM p v cb) c).
Proof.
  unfold portPWM. destruct (portPWM_cmd p v); simpl; [|reflexivity].
  etransitivity; [apply frame_emit | apply frame_pipe].
Qed.

Lemma frame_setTimeout cb d c : ctx_frame c (exec (setTimeout cb d) c).
Proof. unfold setTimeout. simpl. destruct (set_timer d false cb (c_timers c)). apply frame_timers. Qed.

Lemma frame_setInterval cb d c : ctx_frame c (exec (setInterval cb d) c).
Proof. unfold setInterval. simpl. destruct (set_timer d true cb (c_timers c)). apply frame_timers. Qed.

Lemma frame_clearTimer h c : ctx_frame c (exec (clearTimer h) c).
Proof. apply frame_timers. Qed.

Lemma frame_setLight ch n c : ch <> lightNet -> ctx_frame c (exec (setLight ch n) c).
Proof. apply frame_set_light. Qed.

(** A computation that is a sequence of framed steps is framed. *)
Lemma frame_bind {A B} (m : M A) (k : A -> M B) c :
  ctx_frame c (exec m c) ->
  (forall a c', ctx_frame c' (exec (k a) c')) ->
  ctx_frame c (exec (bind m k) c).
Proof.
  intros H1 H2. rewrite exec_bind. etransitivity; [exact H1 | apply H2].
Qed.

Lemma frame_controlDogSound c : ctx_frame c (exec controlDogSound c).
Proof.
  unfold controlDogSound. apply frame_bind; [reflexivity|]. intros d c'.
  destruct (truthy d); apply frame_bind;
    first [apply frame_portOn | apply frame_portOff | intros; apply frame_setLight; discriminate].
Qed.

Lemma frame_runStateCallback cb c : ctx_frame c (exec (runStateCallback cb) c).
Proof. destruct cb as [[]|]; [apply frame_controlDogSound | reflexivity]. Qed.

#[export] Hint Resolve frame_portOn frame_portOff frame_portPWM frame_setTimeout
  frame_setInterval frame_clearTimer frame_setLight frame_controlDogSound
  frame_runStateCallback : hw.

(** [frame_chain] proves [ctx_frame c (exec m c)] for a computation [m]
    built by [bind] and [if] from the framed primitives. *)
Ltac frame_chain :=
  repeat first
    [ reflexivity
    | apply frame_bind; [first [ reflexivity | apply frame_portOff | apply frame_portOn
                               | apply frame_clearTimer | apply frame_setInterval
                               | apply frame_setTimeout | apply frame_setLight; done
                               | apply frame_runStateCallback ] | intros ? ?]
    | case_if ].

(** The state callback touches neither the timers nor the pipe nor the
    animated lights. *)
Lemma runStateCallback_frame cb c ch :
  ch ∈ anim_lights ->
  let c' := exec (runStateCallback cb) c in
  c_timers c' = c_timers c /\ c_pipe c' = c_pipe c /\
  state_light ch (c_state c') = state_light ch (c_state c) /\ ctx_frame c c'.
Proof.
  intros Hch. split_and!; try apply frame_runStateCallback;
    destruct cb as [[]|]; try reflexivity;
    destruct c as [tm [] io out pipe procs pid ex]; unfold runStateCallback, controlDogSound; simpl;
    case_truthy; try reflexivity; chan_cases Hch; reflexivity.
Qed.

(** ** The timers a computation arms *)

Section AddsOnly.
Context {Q : Callback -> Prop}.

Lemma adds_only_ret {A} (a : A) : adds_only Q (ret a).
Proof. intros c h x H. by left. Qed.

Lemma adds_only_bind {A B} (m : M A) (k : A -> M B) :
  adds_only Q m -> (forall a, adds_only Q (k a)) -> adds_only Q (bind m k).
Proof.
  intros Hm Hk c h x. rewrite exec_bind. intros [H|H]%Hk; [|by right]. by apply Hm.
Qed.

Lemma adds_only_if {A} (b : bool) (m1 m2 : M A) :
  adds_only Q m1 -> adds_only Q m2 -> adds_only Q (if b then m1 else m2).
Proof. by destruct b. Qed.

(** A step that leaves the timers alone. *)
Lemma adds_only_timers_same {A} (m : M A) :
  (forall c, c_timers (exec m c) = c_timers c) -> adds_only Q m.
Proof. intros Hm c h x. rewrite Hm. by left. Qed.

Lemma adds_only_clearTimer h : adds_only Q (clearTimer h).
Proof.
  intros c h' x. destruct h as [h|]; simpl; [|by left].
  destruct (decide (h' = h)) as [->|Hne]; [by rewrite lookup_delete_eq|].
  rewrite lookup_delete_ne by done. by left.
Qed.

Lemma adds_only_setTimeout cb d : Q cb -> adds_only Q (setTimeout cb d).
Proof.
  intros Hq c h x. unfold setTimeout. simpl.
  destruct (decide (h = tm_next (c_timers c))) as [->|Hne].
  - rewrite lookup_insert_eq. intros [= <-]. by right.
  - rewrite lookup_insert_ne by done. by left.
Qed.

Lemma adds_only_setInterval cb d : Q cb -> adds_only Q (setInterval cb d).
Proof.
  intros Hq c h x. unfold setInterval. simpl.
  destruct (decide (h = tm_next (c_timers c))) as [->|Hne].
  - rewrite lookup_insert_eq. intros [= <-]. by right.
  - rewrite lookup_insert_ne by done. by left.
Qed.

Lemma adds_only_mono (Q' : Callback -> Prop) {A} (m : M A) :
  (forall cb, Q' cb -> Q cb) -> adds_only Q' m -> adds_only Q m.
Proof. intros HQ Hm c h x [H|H]%Hm; [by left | right; auto]. Qed.

End AddsOnly.

Lemma timers_portOn p c : c_timers (exec (portOn p) c) = c_timers c.
Proof. unfold portOn, gpio_write. by destruct (portOn_level p). Qed.
Lemma timers_portOff p c : c_timers (exec (portOff p) c) = c_timers c.
Proof. unfold portOff, gpio_write. by destruct (portOff_level p). Qed.
Lemma timers_portPWM p v cb c : c_timers (exec (portPWM p v cb) c) = c_timers c.
Proof. unfold portPWM. by destruct (portPWM_cmd p v). Qed.
Lemma timers_runStateCallback cb c : c_timers (exec (runStateCallback cb) c) = c_timers c.
Proof.
  destruct cb as [[]|]; [|done]. destruct c as [tm [] io out pipe procs pid ex].
  unfold runStateCallback, controlDogSound. simpl. by destruct (truthy _).
Qed.

(** [adds_chain] proves [adds_only Q m] for a computation built from the
    primitives; [tac] proves [Q] of the closures armed. *)
Ltac adds_chain tac :=
  repeat first
    [ apply adds_only_ret
    | apply adds_only_bind; [|intros ?]
    | apply adds_only_if
    | apply adds_only_clearTimer
    | apply adds_only_setTimeout; tac
    | apply adds_only_setInterval; tac
    | apply adds_only_timers_same; intros ?;
      first [ reflexivity | apply timers_portOn | apply timers_portOff | apply timers_portPWM
            | apply timers_runStateCallback ]
    | progress unfold setLight, setMode, modifyState, getLight, getMode, curtime, quitPlayer
    | match goal with |- adds_only _ (match ?x with _ => _ end) => destruct x end ].

(** ** Computations that do not end the process *)

Definition keeps_exit {A} (m : M A) : Prop := forall c, c_exited (exec m c) = c_exited c.

Lemma keeps_exit_ret {A} (a : A) : keeps_exit (ret a).
Proof. done. Qed.

Lemma keeps_exit_bind {A B} (m : M A) (k : A -> M B) :
  keeps_exit m -> (forall a, keeps_exit (k a)) -> keeps_exit (bind m k).
Proof. intros Hm Hk c. rewrite exec_bind, Hk. apply Hm. Qed.

Lemma keeps_exit_if {A} (b : bool) (m1 m2 : M A) :
  keeps_exit m1 -> keeps_exit m2 -> keeps_exit (if b then m1 else m2).
Proof. by destruct b. Qed.

Lemma keeps_exit_frame {A} (m : M A) : (forall c, ctx_frame c (exec m c)) -> keeps_exit m.
Proof. intros Hm c. apply Hm. Qed.

Lemma keeps_exit_anim_start `{Animator A} (a : A) :
  anim_channel a <> lightNet -> keeps_exit (anim_start a).
Proof. intros Ha c. by apply anim_start_frame. Qed.

Lemma keeps_exit_anim_stop `{Animator A} (a : A) :
  anim_channel a <> lightNet -> keeps_exit (anim_stop a).
Proof. intros Ha c. by apply anim_stop_frame. Qed.

(** [keeps_chain] proves [keeps_exit m] for a computation built from the
    primitives and the animators' [start] and [stop]. *)
Ltac keeps_chain :=
  repeat first
    [ apply keeps_exit_ret
    | apply keeps_exit_bind; [|intros ?]
    | apply keeps_exit_if
    | apply keeps_exit_anim_start; by auto
    | apply keeps_exit_anim_stop; by auto
    | apply keeps_exit_frame; intros ?;
      first [ apply frame_portOn | apply frame_portOff | apply frame_portPWM
            | apply frame_setTimeout | apply frame_setInterval | apply frame_clearTimer
            | apply frame_runStateCallback ]
    | intros ?; reflexivity
    | progress unfold setLight, setMode, modifyState, getLight, getMode, curtime, quitPlayer
    | match goal with |- keeps_exit (match ?x with _ => _ end) => destruct x end ].

(** ** Computations that send no PWM command *)

Lemma keeps_pipe_ret {A} (a : A) : keeps_pipe (ret a).
Proof. done. Qed.

Lemma keeps_pipe_bind {A B} (m : M A) (k : A -> M B) :
  keeps_pipe m -> (forall a, keeps_pipe (k a)) -> keeps_pipe (bind m k).
Proof. intros Hm Hk c. rewrite exec_bind, Hk. apply Hm. Qed.

Lemma keeps_pipe_if {A} (b : bool) (m1 m2 : M A) :
  keeps_pipe m1 -> keeps_pipe m2 -> keeps_pipe (if b then m1 else m2).
Proof. by destruct b. Qed.

Lemma keeps_pipe_portOn p : keeps_pipe (portOn p).
Proof. intros c. unfold portOn, gpio_write. by destruct (portOn_level p). Qed.
Lemma keeps_pipe_portOff p : keeps_pipe (portOff p).
Proof. intros c. unfold portOff, gpio_write. by destruct (portOff_level p). Qed.
Lemma keeps_pipe_setTimeout cb d : keeps_pipe (setTimeout cb d).
Proof. intros c. unfold setTimeout. simpl. by destruct (set_timer d false cb (c_timers c)). Qed.
Lemma keeps_pipe_setInterval cb d : keeps_pipe (setInterval cb d).
Proof. intros c. unfold setInterval. simpl. by destruct (set_timer d true cb (c_timers c)). Qed.
Lemma keeps_pipe_runStateCallback cb : keeps_pipe (runStateCallback cb).
Proof.
  intros c. destruct cb as [[]|]; [|done]. unfold runStateCallback, controlDogSound. simpl.
  destruct (truthy _); unfold portOn, portOff, gpio_write; simpl; by repeat case_match.
Qed.

(** [pipe_chain] proves [keeps_pipe m] for a computation built from the
    primitives other than [portPWM] and the animators' [start] and
    [stop]. *)
Ltac pipe_chain :=
  repeat first
    [ apply keeps_pipe_ret
    | apply keeps_pipe_bind; [|intros ?]
    | apply keeps_pipe_if
    | apply anim_start_pipe
    | apply anim_stop_pipe
    | apply keeps_pipe_portOn | apply keeps_pipe_portOff | apply keeps_pipe_setTimeout
    | apply keeps_pipe_setInterval | apply keeps_pipe_runStateCallback
    | intros ?; reflexivity
    | progress unfold setLight, setMode, modifyState, getLight, getMode, curtime, quitPlayer,
        clearTimer, spawnPlayer
    | match goal with |- keeps_pipe (match ?x with _ => _ end) => destruct x end ].

