(* ===== verification/SlowFlasherPigpio.v ===== *)
(** * SlowFlasherPigpio: the continuous breathing animator

    [src/halloween.js] lines 302-370.  The object's fields are the record
    [t]; its closures [endTansition], [transitionStep], [runTransition]
    and its methods [start], [stop] are [ST Ctx] computations over it.
    A ramp is an interval of [TRANSITION_INTERVAL] ms whose every tick
    sends the daemon the duty [elapsed / timeTransition] (ramp up, light
    state 0) or [1 - elapsed / timeTransition] (ramp down, light state 1);
    the first tick past the transition sends duty 0 with [endTansition] as
    completion callback, which flips the light state, clears the interval
    and arms the hold timer ([timeOn] or [timeOff]) unless the animator
    was stopped and the light is now off. *)

From stdpp Require Import gmap.
From Stdlib Require Import NArith QArith Qround ZArith.
From S2P Require Import Prelude Timers Ports Runtime Animator.

Module SlowFlasherPigpio.

Record t := mk {
  channelName : PortName;
  timeOn : N; timeOff : N; timeTransition : N;
  stateCallback : option StateCb;
  _transitionStartTime : N;
  _transitionInterval : option nat;
  _stateTimeout : option nat;
  _stopFlag : bool
}.

(** [new SlowFlasherPigpio(channelName, timeOn, timeOff, timeTransition, stateCallback)]. *)
Definition create (ch : PortName) (on off tr : N) (cb : option StateCb) : t :=
  mk ch on off tr cb 0 None None true.

Definition set_start (f : t) (x : N) : t :=
  mk (channelName f) (timeOn f) (timeOff f) (timeTransition f) (stateCallback f)
     x (_transitionInterval f) (_stateTimeout f) (_stopFlag f).
Definition set_interval (f : t) (h : option nat) : t :=
  mk (channelName f) (timeOn f) (timeOff f) (timeTransition f) (stateCallback f)
     (_transitionStartTime f) h (_stateTimeout f) (_stopFlag f).
Definition set_stateTimeout (f : t) (h : option nat) : t :=
  mk (channelName f) (timeOn f) (timeOff f) (timeTransition f) (stateCallback f)
     (_transitionStartTime f) (_transitionInterval f) h (_stopFlag f).
Definition set_stopFlag (f : t) (b : bool) : t :=
  mk (channelName f) (timeOn f) (timeOff f) (timeTransition f) (stateCallback f)
     (_transitionStartTime f) (_transitionInterval f) (_stateTimeout f) b.

(** [elapsed / timeTransition] as a JavaScript number. *)
Definition ratio (a b : N) : Q := inject_Z (Z.of_N a) / inject_Z (Z.of_N b).

(** [endTansition(err)]: the completion of the final duty-0 command. *)
Definition endTansition (f : t) (err : bool) : M t :=
  if err then ret f else
  let ch := channelName f in
  s <- getLight ch ;;
  (if negb (truthy s) then portOn ch ;; setLight ch 1
   else portOff ch ;; setLight ch 0) ;;
  clearTimer (_transitionInterval f) ;;
  let f := set_interval f None in
  s' <- getLight ch ;;
  f <- (if negb (_stopFlag f) || truthy s'
        then h <- setTimeout (CbSFPRunTransition ch) (if truthy s' then timeOn f else timeOff f) ;;
             ret (set_stateTimeout f (Some h))
        else ret f) ;;
  runStateCallback (stateCallback f) ;;
  ret f.

(** [transitionStep()]: one tick of the ramp interval. *)
Definition transitionStep (f : t) : M unit :=
  let ch := channelName f in
  now <- curtime ;;
  let elapsed := (now - _transitionStartTime f)%N in
  if (elapsed <? timeTransition f)%N then
    s <- getLight ch ;;
    if negb (truthy s) then portPWM ch (ratio elapsed (timeTransition f)) None
    else portPWM ch (1 - ratio elapsed (timeTransition f)) None
  else portPWM ch 0 (Some (PcEndTransition ch)).

(** [runTransition()]: start a ramp. *)
Definition runTransition (f : t) : M t :=
  now <- curtime ;;
  let f := set_start f now in
  (if is_set (_transitionInterval f) then clearTimer (_transitionInterval f) else ret tt) ;;
  h <- setInterval (CbSFPTransitionStep (channelName f)) TRANSITION_INTERVAL ;;
  ret (set_interval f (Some h)).

(** [this.start()]. *)
Definition start (f : t) : M t :=
  portOff (channelName f) ;;
  setLight (channelName f) 0 ;;
  f <- (if is_set (_stateTimeout f)
        then clearTimer (_stateTimeout f) ;; ret (set_stateTimeout f None)
        else ret f) ;;
  runTransition (set_stopFlag f false).

(** [this.stop()]: cancel the hold timer only in the off state; the flag
    makes the current cycle the last one. *)
Definition stop (f : t) : M t :=
  s <- getLight (channelName f) ;;
  f <- (if is_set (_stateTimeout f) && negb (truthy s)
        then clearTimer (_stateTimeout f) ;; ret (set_stateTimeout f None)
        else ret f) ;;
  ret (set_stopFlag f true).

(** The three instances of the program (lines 527-542): no
    [stateCallback] is passed (the dog's [controlDogSound] is commented
    out). *)
Definition skull1Flasher : t := create lightSkull1 SKULL1_ON_DURATION SKULL1_OFF_DURATION SKULL1_TRANSITION None.
Definition skull2Flasher : t := create lightSkull2 SKULL2_ON_DURATION SKULL2_OFF_DURATION SKULL2_TRANSITION None.
Definition dogFlasher : t := create lightDog DOG_ON_DURATION DOG_OFF_DURATION DOG_TRANSITION None.

(** ** The animator on its own

    The closures an animator hands to the runtime, dispatched: the events
    the spec's animator properties speak about are its timers firing,
    completions of its pigpio commands, and calls of [start] and [stop]. *)

Definition on_timer (f : t) (cb : Callback) : M t :=
  match cb with
  | CbSFPTransitionStep ch => if decide (ch = channelName f) then transitionStep f ;; ret f else ret f
  | CbSFPRunTransition ch => if decide (ch = channelName f) then runTransition f else ret f
  | _ => ret f
  end.

Definition on_pwm (f : t) (cb : option (PwmCallback * bool)) : M t :=
  match cb with
  | Some (PcEndTransition ch, err) => if decide (ch = channelName f) then endTansition f err else ret f
  | None => ret f
  end.

Inductive event := ev_timer | ev_pipe (i : nat) (r : PipeResult) | ev_start | ev_stop.

Definition solo_step (e : event) (s : t * Ctx) : option (t * Ctx) :=
  let (f, c) := s in
  if c_exited c then None else
  match e with
  | ev_timer =>
      match fire_timer (c_timers c) with
      | Some (_, cb, tm') => Some (on_timer f cb (upd_timers (fun _ => tm') c))
      | None => None
      end
  | ev_pipe i r =>
      match pipe_complete i r c with
      | Some (cb, c') => Some (on_pwm f cb c')
      | None => None
      end
  | ev_start => Some (start f c)
  | ev_stop => Some (stop f c)
  end.

Fixpoint solo_run (es : list event) (s : t * Ctx) : option (t * Ctx) :=
  match es with
  | [] => Some s
  | e :: es => match solo_step e s with Some s' => solo_run es s' | None => None end
  end.

(** The live timers whose closure belongs to channel [ch]. *)
Definition owns (ch : PortName) (cb : Callback) : bool :=
  match cb with
  | CbSFPTransitionStep ch' | CbSFPRunTransition ch' => bool_decide (ch = ch')
  | _ => false
  end.

Definition live_of (ch : PortName) (c : Ctx) : list (nat * timer Callback) :=
  filter (fun hx => owns ch (t_cb (snd hx)) = true) (map_to_list (tm_live (c_timers c))).

(** The commands in flight whose completion is [endTansition] of [ch]. *)
Definition is_end (ch : PortName) (x : PwmCmd * option PwmCallback) : Prop :=
  snd x = Some (PcEndTransition ch).
#[export] Instance is_end_dec ch x : Decision (is_end ch x).
Proof. unfold is_end. apply _. Defined.

Definition end_pending (ch : PortName) (c : Ctx) : nat :=
  length (filter (is_end ch) (c_pipe c)).

(** Every live timer of channel [ch] is the one a field records, with the
    closure and period of that field's role. *)
Definition roles (ch : PortName) (iv sto : option nat) (live : gmap nat (timer Callback)) : Prop :=
  forall h x, live !! h = Some x -> owns ch (t_cb x) = true ->
    (iv = Some h /\ t_cb x = CbSFPTransitionStep ch /\ t_period x = Some TRANSITION_INTERVAL) \/
    (sto = Some h /\ t_cb x = CbSFPRunTransition ch /\ t_period x = None).

Definition none_owned (ch : PortName) (live : gmap nat (timer Callback)) : Prop :=
  forall h x, live !! h = Some x -> owns ch (t_cb x) = false.

Arguments roles : simpl never.
Arguments none_owned : simpl never.

(** ** The invariant

    The animator's live timers are exactly what its two fields record:
    the ramp interval (closure [transitionStep], period
    [TRANSITION_INTERVAL]) and the hold timer (closure [runTransition],
    one shot); the recorded interval is live; while a ramp runs no hold
    timer is live; at most one final command is in flight, and only
    during a ramp. *)
Record inv (f : t) (c : Ctx) : Prop := {
  inv_wf : timers_wf (c_timers c);
  inv_chan : channelName f ∈ [lightDog; lightSkull1; lightSkull2];
  inv_light : state_light (channelName f) (c_state c) <= 1;
  inv_roles : roles (channelName f) (_transitionInterval f) (_stateTimeout f) (tm_live (c_timers c));
  inv_interval : forall h, _transitionInterval f = Some h ->
      exists x, tm_live (c_timers c) !! h = Some x /\ t_cb x = CbSFPTransitionStep (channelName f);
  inv_excl : is_Some (_transitionInterval f) -> is_live (_stateTimeout f) (c_timers c) = false;
  inv_pipe : end_pending (channelName f) c <= 1 /\
             (end_pending (channelName f) c = 1 -> is_Some (_transitionInterval f));
  inv_clock : (_transitionStartTime f <= tm_now (c_timers c))%N;
  inv_below : forall a, _transitionInterval f = Some a \/ _stateTimeout f = Some a ->
              (a < tm_next (c_timers c))%nat;
  inv_distinct : forall a, _transitionInterval f = Some a -> _stateTimeout f <> Some a
}.

(** The environment assumption of the normal regime: the completion of a
    ramp's final command arrives before the animator's next event. *)
Definition settled (f : t) (c : Ctx) : Prop := end_pending (channelName f) c = 0.

(** The runs of the normal regime. *)
Inductive step : t * Ctx -> t * Ctx -> Prop :=
  | step_timer f c s' : settled f c -> solo_step ev_timer (f, c) = Some s' -> step (f, c) s'
  | step_pipe f c i r s' : solo_step (ev_pipe i r) (f, c) = Some s' -> step (f, c) s'
  | step_start f c s' : settled f c -> solo_step ev_start (f, c) = Some s' -> step (f, c) s'
  | step_stop f c s' : settled f c -> solo_step ev_stop (f, c) = Some s' -> step (f, c) s'.

(** ** Functional behaviour of the operations *)

(** A handle below the counter is not the fresh one. *)
Lemma fresh_ne (tm : timers Callback) h x :
  timers_wf tm -> tm_live tm !! h = Some x -> h <> tm_next tm.
Proof. intros Hwf Hh ->. apply Hwf in Hh. lia. Qed.

(** C20: [start] forces the channel off, forgets the hold timer, clears the
    stop flag and begins a ramp up: a fresh interval of
    [TRANSITION_INTERVAL] ms is the only timer it arms, and both timers
    the fields recorded are cancelled. *)
Theorem start_spec f c :
  channelName f ∈ anim_lights ->
  let '(f', c') := start f c in
  state_light (channelName f) (c_state c') = 0 /\
  c_out c' = c_out c ++ [OGpio (channelName f) 0] /\
  _stopFlag f' = false /\ _stateTimeout f' = None /\
  _transitionStartTime f' = tm_now (c_timers c) /\
  _transitionInterval f' = Some (tm_next (c_timers c)) /\
  tm_live (c_timers c') =
    <[tm_next (c_timers c) := mkTimer (tm_now (c_timers c) + TRANSITION_INTERVAL)
                                (tm_next (c_timers c)) (Some TRANSITION_INTERVAL)
                                (CbSFPTransitionStep (channelName f))]>
      (tm_live (clear_timer (_transitionInterval f) (clear_timer (_stateTimeout f) (c_timers c)))).
Proof.
  intros Hch. destruct f as [ch on off tr cb st iv sto sflag]; simpl in Hch.
  destruct c as [[now live next] [] io out pipe procs pid ex]; simpl.
  chan_cases Hch; destruct sto, iv; simpl; repeat split.
Qed.

(** C21: [stop] sets the stop flag; in the off state it also cancels the
    hold timer; in the on state (holding or ramping down) it changes
    nothing else, so the current cycle runs to its end. *)
Theorem stop_spec f c :
  channelName f ∈ anim_lights ->
  let '(f', c') := stop f c in
  _stopFlag f' = true /\ _transitionInterval f' = _transitionInterval f /\
  c_state c' = c_state c /\ c_out c' = c_out c /\ c_pipe c' = c_pipe c /\
  if truthy (state_light (channelName f) (c_state c))
  then c_timers c' = c_timers c /\ _stateTimeout f' = _stateTimeout f
  else c_timers c' = clear_timer (_stateTimeout f) (c_timers c) /\ _stateTimeout f' = None.
Proof.
  intros Hch. destruct f as [ch on off tr cb st iv sto sflag]; simpl in Hch.
  destruct c as [tm [] io out pipe procs pid ex]; simpl.
  unfold stop. chan_cases Hch; simpl; destruct sto; simpl;
    repeat match goal with |- context [truthy ?n] => destruct (truthy n) end;
    simpl; repeat split.
Qed.

(** The duty of the ramp up at [elapsed < timeTransition]. *)
Lemma duty_up e T : (0 < T)%N ->
  pwm_duty (ratio e T) = (Z.of_N e * 250 / Z.of_N T)%Z.
Proof. intros HT. unfold ratio. apply Qfloor_div_250. lia. Qed.

(** The duty of the ramp down: [1 - elapsed / timeTransition]. *)
Lemma duty_down e T : (e < T)%N ->
  pwm_duty (1 - ratio e T) = (Z.of_N (T - e) * 250 / Z.of_N T)%Z.
Proof.
  intros HT. rewrite <- Qfloor_div_250 by lia. unfold pwm_duty, ratio.
  apply Qfloor_comp. rewrite N2Z.inj_sub by lia. unfold Z.sub. rewrite inject_Z_plus, inject_Z_opp.
  field. intros Hq. unfold Qeq in Hq. simpl in Hq. lia.
Qed.

(** The duty [transitionStep] sends when the ramp is [elapsed] ms old. *)
Definition step_duty (light : nat) (elapsed T : N) : Z :=
  if (elapsed <? T)%N then
    if truthy light then (Z.of_N (T - elapsed) * 250 / Z.of_N T)%Z
    else (Z.of_N elapsed * 250 / Z.of_N T)%Z
  else 0%Z.

(** The command a ramp tick appends to the commands in flight. *)
Lemma transitionStep_pipe_cmd f c :
  channelName f ∈ anim_lights ->
  let e := (tm_now (c_timers c) - _transitionStartTime f)%N in
  c_pipe (exec (transitionStep f) c) = c_pipe c ++
    [(mkPwmCmd (pin (Ports (channelName f)))
        (step_duty (state_light (channelName f) (c_state c)) e (timeTransition f)),
      if (e <? timeTransition f)%N then None else Some (PcEndTransition (channelName f)))].
Proof.
  intros Hch. destruct f as [ch on off tr cb st iv sto sflag]; simpl in Hch |- *.
  destruct c as [tm [] io out pipe procs pid ex]; unfold transitionStep; simpl.
  unfold step_duty. destruct (N.ltb_spec (tm_now tm - st) tr) as [Hlt|Hge].
  - chan_cases Hch; simpl;
      repeat match goal with |- context [truthy ?n] => destruct (truthy n) end;
      simpl; rewrite ?duty_up, ?duty_down by lia; reflexivity.
  - chan_cases Hch; reflexivity.
Qed.

(** C22: one tick of the ramp sends exactly one command to the daemon, for
    the channel's pin: the duty [step_duty] computed from the time since
    [runTransition], with [endTansition] as completion callback exactly
    when the transition time has elapsed; nothing else changes. *)
Theorem transitionStep_spec f c :
  channelName f ∈ anim_lights ->
  let e := (tm_now (c_timers c) - _transitionStartTime f)%N in
  let c' := exec (transitionStep f) c in
  c_pipe c' = c_pipe c ++
    [(mkPwmCmd (pin (Ports (channelName f)))
        (step_duty (state_light (channelName f) (c_state c)) e (timeTransition f)),
      if (e <? timeTransition f)%N then None else Some (PcEndTransition (channelName f)))] /\
  c_timers c' = c_timers c /\ c_state c' = c_state c.
Proof.
  intros Hch. split; [by apply transitionStep_pipe_cmd|].
  destruct f as [ch on off tr cb st iv sto sflag]; simpl in Hch |- *.
  destruct c as [tm [] io out pipe procs pid ex]; unfold transitionStep; simpl.
  destruct (tm_now tm - st <? tr)%N; chan_cases Hch; simpl;
    repeat match goal with |- context [truthy ?n] => destruct (truthy n) end; done.
Qed.

Lemma step_duty_range light e T : (0 <= step_duty light e T <= 250)%Z.
Proof.
  unfold step_duty. destruct (N.ltb_spec e T); [|lia].
  assert (0 < Z.of_N T)%Z by lia.
  destruct (truthy light); (split; [apply Z.div_pos | apply Z.div_le_upper_bound]); lia.
Qed.

(** C23: every duty a tick sends is within [0, 250] (the daemon's range);
    during a ramp up the duty never decreases as time passes, during a
    ramp down it never increases. *)
Theorem step_duty_bounds light T :
  (forall e, 0 <= step_duty light e T <= 250)%Z /\
  (forall e1 e2, (e1 <= e2 < T)%N ->
     if truthy light then (step_duty light e2 T <= step_duty light e1 T)%Z
     else (step_duty light e1 T <= step_duty light e2 T)%Z).
Proof.
  split; [intros e; apply step_duty_range|].
  intros e1 e2 H. unfold step_duty.
  destruct (N.ltb_spec e1 T), (N.ltb_spec e2 T); try lia.
  destruct (truthy light); apply Z.div_le_mono; lia.
Qed.

(** C19: a failed completion of the final command changes nothing (the
    interval keeps ticking and sends it again); a successful one flips the
    light state, writes the matching level to the channel's GPIO, clears
    the ramp interval and arms the hold timer of the new state, except
    when the animator is stopped and the light is now off. *)
Theorem endTansition_spec f c :
  channelName f ∈ anim_lights ->
  endTansition f true c = (f, c) /\
  let s' := flipped (state_light (channelName f) (c_state c)) in
  let '(f', c') := endTansition f false c in
  state_light (channelName f) (c_state c') = s' /\
  (exists rest, c_out c' = c_out c ++ OGpio (channelName f) s' :: rest) /\
  c_pipe c' = c_pipe c /\
  _transitionInterval f' = None /\ _stopFlag f' = _stopFlag f /\
  let tm := clear_timer (_transitionInterval f) (c_timers c) in
  if rearms (_stopFlag f) s'
  then _stateTimeout f' = Some (tm_next tm) /\
       tm_live (c_timers c') =
         <[tm_next tm := mkTimer (tm_now tm + clamp_delay (if truthy s' then timeOn f else timeOff f))
                           (tm_next tm) None (CbSFPRunTransition (channelName f))]> (tm_live tm)
  else _stateTimeout f' = _stateTimeout f /\ c_timers c' = tm.
Proof.
  intros Hch. split; [reflexivity|].
  destruct f as [ch on off tr cb st iv sto sflag]; simpl in Hch |- *.
  destruct c as [[now live next] [] io out pipe procs pid ex]; 
  unfold endTansition, flipped, rearms, runStateCallback, controlDogSound; simpl.
  chan_cases Hch; simpl;
    destruct sflag, iv, cb as [[]|]; simpl; case_truthy; repeat split;
    try (eexists; rewrite <- ?app_assoc; reflexivity).
Qed.

(** ** Lemmas on roles *)

Implicit Types (iv sto : option nat) (live : gmap nat (timer Callback)) (ch : PortName).

Lemma roles_none_owned ch iv sto live : none_owned ch live -> roles ch iv sto live.
Proof. intros H h x Hx Ho. by rewrite (H h x Hx) in Ho. Qed.

Lemma none_owned_clear_both ch iv sto (tm : timers Callback) :
  roles ch iv sto (tm_live tm) ->
  none_owned ch (tm_live (clear_timer iv (clear_timer sto tm))).
Proof.
  intros Hr h x. rewrite !clear_timer_lookup.
  do 2 (case_decide; [done|]). intros Hx.
  destruct (owns ch (t_cb x)) eqn:Ho; [|done].
  destruct (Hr h x Hx Ho) as [[-> _]|[-> _]]; congruence.
Qed.

(** Clearing the ramp interval while no hold timer is live leaves no
    timer of the channel. *)
Lemma none_owned_clear_interval ch iv sto (tm : timers Callback) :
  roles ch iv sto (tm_live tm) -> is_live sto tm = false ->
  none_owned ch (tm_live (clear_timer iv tm)).
Proof.
  intros Hr Hsto h x. rewrite clear_timer_lookup. case_decide; [done|]. intros Hx.
  destruct (owns ch (t_cb x)) eqn:Ho; [|done].
  destruct (Hr h x Hx Ho) as [[-> _]|[-> _]]; [congruence|].
  simpl in Hsto. apply bool_decide_eq_false in Hsto. rewrite Hx in Hsto. by destruct Hsto.
Qed.

(** Cancelling the hold timer keeps the roles of what is left. *)
Lemma roles_clear_hold ch iv sto (tm : timers Callback) :
  roles ch iv sto (tm_live tm) -> roles ch iv None (tm_live (clear_timer sto tm)).
Proof.
  intros Hr h x. rewrite clear_timer_lookup. case_decide; [done|]. intros Hx Ho.
  destruct (Hr h x Hx Ho) as [?|[-> _]]; [by left | congruence].
Qed.

(** Arming a fresh timer in its role. *)
Lemma roles_insert ch live k x iv' sto' :
  none_owned ch live ->
  (iv' = Some k /\ t_cb x = CbSFPTransitionStep ch /\ t_period x = Some TRANSITION_INTERVAL) \/
  (sto' = Some k /\ t_cb x = CbSFPRunTransition ch /\ t_period x = None) ->
  roles ch iv' sto' (<[k := x]> live).
Proof.
  intros Hn Hx h y. destruct (decide (h = k)) as [->|Hne].
  - rewrite lookup_insert_eq. by intros [= <-] _.
  - rewrite lookup_insert_ne by congruence. intros Hy Ho. by rewrite (Hn h y Hy) in Ho.
Qed.

(** With no hold timer live, a ramp's interval is the channel's only
    timer: the invariant's "at most one timer per channel". *)
Lemma roles_at_most_one ch iv sto (tm : timers Callback) h1 h2 x1 x2 :
  roles ch iv sto (tm_live tm) ->
  (is_Some iv -> is_live sto tm = false) ->
  tm_live tm !! h1 = Some x1 -> owns ch (t_cb x1) = true ->
  tm_live tm !! h2 = Some x2 -> owns ch (t_cb x2) = true -> h1 = h2.
Proof.
  intros Hr Hex H1 O1 H2 O2.
  destruct (Hr _ _ H1 O1) as [[? _]|[? _]], (Hr _ _ H2 O2) as [[? _]|[? _]]; simplify_eq; try done.
  - specialize (Hex (mk_is_Some _ _ eq_refl)). simpl in Hex.
    apply bool_decide_eq_false in Hex. rewrite H2 in Hex. by destruct Hex.
  - specialize (Hex (mk_is_Some _ _ eq_refl)). simpl in Hex.
    apply bool_decide_eq_false in Hex. rewrite H1 in Hex. by destruct Hex.
Qed.

(** ** Each operation as one update of the context *)

Lemma start_eq f c :
  channelName f ∈ anim_lights ->
  start f c =
    (mk (channelName f) (timeOn f) (timeOff f) (timeTransition f) (stateCallback f)
        (tm_now (c_timers c)) (Some (tm_next (c_timers c))) None false,
     mkctx_with c (snd (set_timer TRANSITION_INTERVAL true (CbSFPTransitionStep (channelName f))
                          (clear_timer (_transitionInterval f) (clear_timer (_stateTimeout f) (c_timers c)))))
       (set_state_light (channelName f) 0 (c_state c)) (c_out c ++ [OGpio (channelName f) 0]) (c_pipe c)).
Proof.
  intros Hch. destruct f as [ch on off tr cb st iv sto sflag]; simpl in Hch.
  destruct c as [[now live next] [] io out pipe procs pid ex].
  unfold start, runTransition. chan_cases Hch; destruct iv, sto; reflexivity.
Qed.

Lemma stop_eq f c :
  stop f c =
    if truthy (state_light (channelName f) (c_state c))
    then (set_stopFlag f true, c)
    else (set_stopFlag (set_stateTimeout f None) true,
          mkctx_with c (clear_timer (_stateTimeout f) (c_timers c)) (c_state c) (c_out c) (c_pipe c)).
Proof.
  destruct f as [ch on off tr cb st iv sto sflag].
  destruct c as [[now live next] [] io out pipe procs pid ex].
  unfold stop. simpl. destruct (truthy _), sto; reflexivity.
Qed.

Lemma runTransition_eq f c :
  runTransition f c =
    (mk (channelName f) (timeOn f) (timeOff f) (timeTransition f) (stateCallback f)
        (tm_now (c_timers c)) (Some (tm_next (c_timers c))) (_stateTimeout f) (_stopFlag f),
     mkctx_with c (snd (set_timer TRANSITION_INTERVAL true (CbSFPTransitionStep (channelName f))
                          (clear_timer (_transitionInterval f) (c_timers c))))
       (c_state c) (c_out c) (c_pipe c)).
Proof.
  destruct f as [ch on off tr cb st iv sto sflag].
  destruct c as [[now live next] [] io out pipe procs pid ex].
  unfold runTransition. destruct iv; reflexivity.
Qed.

Lemma transitionStep_eq f c :
  channelName f ∈ anim_lights ->
  let e := (tm_now (c_timers c) - _transitionStartTime f)%N in
  let cmd := (mkPwmCmd (pin (Ports (channelName f)))
                (step_duty (state_light (channelName f) (c_state c)) e (timeTransition f)),
              if (e <? timeTransition f)%N then None else Some (PcEndTransition (channelName f))) in
  exec (transitionStep f) c = mkctx_with c (c_timers c) (c_state c) (c_out c ++ [OPwm (fst cmd)]) (c_pipe c ++ [cmd]).
Proof.
  intros Hch. destruct f as [ch on off tr cb st iv sto sflag]; simpl in Hch |- *.
  destruct c as [tm [] io out pipe procs pid ex]; unfold transitionStep; simpl.
  unfold step_duty. destruct (N.ltb_spec (tm_now tm - st) tr).
  - chan_cases Hch; simpl; case_truthy; rewrite ?duty_up, ?duty_down by lia; reflexivity.
  - chan_cases Hch; reflexivity.
Qed.

Lemma endTansition_eq f c :
  channelName f ∈ anim_lights ->
  let ch := channelName f in
  let s' := flipped (state_light ch (c_state c)) in
  let tm1 := clear_timer (_transitionInterval f) (c_timers c) in
  let c1 := fun tm => mkctx_with c tm (set_state_light ch s' (c_state c)) (c_out c ++ [OGpio ch s']) (c_pipe c) in
  endTansition f false c =
    if rearms (_stopFlag f) s'
    then (set_stateTimeout (set_interval f None) (Some (tm_next tm1)),
          exec (runStateCallback (stateCallback f))
            (c1 (snd (set_timer (if truthy s' then timeOn f else timeOff f) false (CbSFPRunTransition ch) tm1))))
    else (set_interval f None, exec (runStateCallback (stateCallback f)) (c1 tm1)).
Proof.
  intros Hch. destruct f as [ch on off tr cb st iv sto sflag]; simpl in Hch |- *.
  destruct c as [[now live next] [] io out pipe procs pid ex].
  unfold endTansition, flipped, rearms. simpl.
  chan_cases Hch; simpl; destruct sflag, iv; simpl; case_truthy;
    destruct (runStateCallback cb _); reflexivity.
Qed.

(** ** The invariant is preserved *)

Lemma tm_now_clear h (tm : timers Callback) : tm_now (clear_timer h tm) = tm_now tm.
Proof. by destruct h. Qed.
Lemma tm_next_clear h (tm : timers Callback) : tm_next (clear_timer h tm) = tm_next tm.
Proof. by destruct h. Qed.
#[local] Hint Rewrite tm_now_clear tm_next_clear : hw_rw.

Lemma anim_light_set ch n st :
  ch ∈ anim_lights -> state_light ch (set_state_light ch n st) = n.
Proof. intros H. apply state_light_set. chan_cases H; set_unfold; tauto. Qed.

Lemma inv_start f c : inv f c -> settled f c -> inv (start f c).1 (start f c).2.
Proof.
  intros Hi Hs. rewrite start_eq by apply Hi.
  destruct Hi as [Hwf Hch Hl Hr Hiv Hex Hp Hclk Hbl Hd].
  unfold settled, end_pending in *.
  constructor; [apply set_timer_wf, clear_timer_wf, clear_timer_wf, Hwf|..]; simpl; autorewrite with hw_rw.
  - done.
  - rewrite anim_light_set by done. lia.
  - apply roles_insert; [by apply none_owned_clear_both | by left].
  - intros h [= <-]. rewrite lookup_insert_eq. eauto.
  - done.
  - unfold end_pending, mkctx_with. simpl. rewrite Hs. lia.
  - lia.
  - intros a [[= <-]|?]; [lia|done].
  - done.
Qed.

Lemma inv_stop f c : inv f c -> inv (stop f c).1 (stop f c).2.
Proof.
  intros Hi. rewrite stop_eq. destruct (truthy _) eqn:E.
  - destruct Hi; by constructor.
  - destruct Hi as [Hwf Hch Hl Hr Hiv Hex Hp Hclk Hbl Hd].
    constructor; [by apply clear_timer_wf|..]; simpl; autorewrite with hw_rw; try done.
    + by apply roles_clear_hold.
    + intros h Hh. rewrite clear_timer_lookup. case_decide; [|by apply Hiv].
      exfalso. by apply (Hd h Hh).
    + intros a [?|[=]]. apply Hbl. by left.
Qed.

Lemma on_timer_other f cb : owns (channelName f) cb = false -> on_timer f cb = ret f.
Proof.
  destruct cb; simpl; try done; intros H; apply bool_decide_eq_false in H;
    case_decide; congruence.
Qed.

Lemma owns_step ch : owns ch (CbSFPTransitionStep ch) = true.
Proof. simpl. by apply bool_decide_eq_true_2. Qed.
Lemma owns_run ch : owns ch (CbSFPRunTransition ch) = true.
Proof. simpl. by apply bool_decide_eq_true_2. Qed.
#[local] Hint Resolve owns_step owns_run : core.

Lemma is_live_lookup o (tm : timers Callback) :
  is_live o tm = match o with Some h => bool_decide (is_Some (tm_live tm !! h)) | None => false end.
Proof. done. Qed.

(** A tick of the ramp interval. *)
Lemma inv_tick_step f c h x tm' :
  inv f c -> settled f c -> tm_live (c_timers c) !! h = Some x ->
  t_cb x = CbSFPTransitionStep (channelName f) ->
  fire_timer (c_timers c) = Some (h, t_cb x, tm') ->
  tm' = mkTimers (t_due x) (<[h := mkTimer (t_due x + TRANSITION_INTERVAL) (tm_next (c_timers c))
                                  (Some TRANSITION_INTERVAL) (t_cb x)]> (tm_live (c_timers c)))
                 (S (tm_next (c_timers c))) ->
  inv f (exec (transitionStep f) (upd_timers (fun _ => tm') c)).
Proof.
  intros Hi Hs Hx Hcb Hfire ->.
  pose proof (fire_timer_wf _ _ _ _ (inv_wf _ _ Hi) Hfire) as Hwf'.
  pose proof (inv_wf _ _ Hi _ _ Hx) as (_ & _ & Hdue).
  destruct (inv_roles _ _ Hi h x Hx ltac:(by rewrite Hcb)) as [(Hiv & _ & Hp)|(_ & Hc & _)];
    [|by rewrite Hcb in Hc].
  rewrite transitionStep_eq by apply Hi.
  destruct Hi as [Hwf Hch Hl Hr Hi Hex Hpipe Hclk Hbl Hd]. unfold settled, end_pending in *.
  constructor; simpl; try done.
  - intros h' y. destruct (decide (h' = h)) as [->|Hne].
    + rewrite lookup_insert_eq. intros [= <-] _. left. by rewrite Hcb.
    + rewrite lookup_insert_ne by done. apply Hr.
  - intros a Ha. rewrite Hiv in Ha. injection Ha as <-. rewrite lookup_insert_eq. eauto.
  - intros _. destruct (_stateTimeout f) as [b|] eqn:Hsto; [|done]. simpl.
    rewrite lookup_insert_ne by (intros Heq; subst b; by apply (Hd h)).
    by specialize (Hex ltac:(rewrite Hiv; eauto)).
  - unfold end_pending, mkctx_with. cbn [c_pipe]. rewrite filter_app, length_app, Hs.
    split; [match goal with |- context [filter ?P [?y]] => pose proof (length_filter P [y]) end;
            simpl in *; lia|].
    intros _. rewrite Hiv. eauto.
  - lia.
  - intros a Ha. specialize (Hbl a Ha). lia.
Qed.

(** The hold timer fires: a new ramp starts. *)
Lemma inv_tick_run f c h x tm' :
  inv f c -> tm_live (c_timers c) !! h = Some x ->
  t_cb x = CbSFPRunTransition (channelName f) ->
  fire_timer (c_timers c) = Some (h, t_cb x, tm') ->
  tm' = mkTimers (t_due x) (delete h (tm_live (c_timers c))) (S (tm_next (c_timers c))) ->
  inv (runTransition f (upd_timers (fun _ => tm') c)).1 (runTransition f (upd_timers (fun _ => tm') c)).2.
Proof.
  intros Hi Hx Hcb Hfire ->.
  pose proof (fire_timer_wf _ _ _ _ (inv_wf _ _ Hi) Hfire) as Hwf'.
  destruct (inv_roles _ _ Hi h x Hx ltac:(by rewrite Hcb)) as [(_ & Hc & _)|(Hsto & _ & Hp)];
    [by rewrite Hcb in Hc|].
  assert (_transitionInterval f = None) as Hiv0.
  { destruct (_transitionInterval f) eqn:E; [|done].
    pose proof (inv_excl _ _ Hi ltac:(rewrite E; eauto)) as Hex. rewrite Hsto in Hex. simpl in Hex.
    apply bool_decide_eq_false in Hex. rewrite Hx in Hex. by destruct Hex. }
  rewrite runTransition_eq, Hiv0.
  destruct Hi as [Hwf Hch Hl Hr Hi Hex Hpipe Hclk Hbl Hd]. unfold end_pending in *.
  constructor; [apply set_timer_wf, Hwf'|..]; simpl; try done.
  - apply roles_insert; [|by left]. intros h' y. destruct (decide (h' = h)) as [->|Hne].
    + by rewrite lookup_delete_eq.
    + rewrite lookup_delete_ne by congruence. intros Hy.
      destruct (owns (channelName f) (t_cb y)) eqn:Ho; [|done].
      destruct (Hr h' y Hy Ho) as [[? _]|[? _]]; congruence.
  - intros a [= <-]. rewrite lookup_insert_eq. eauto.
  - intros _. rewrite Hsto. simpl. apply bool_decide_eq_false.
    rewrite lookup_insert_ne, lookup_delete_eq; [by intros []|].
    pose proof (Hbl h ltac:(by right)). lia.
  - rewrite Hiv0 in Hpipe. destruct Hpipe as [? Hpipe]. split; [done|]. eauto.
  - intros a [[= <-]|Ha]; [lia|]. specialize (Hbl a ltac:(by right)). lia.
  - intros a [= <-] Ha. specialize (Hbl _ ltac:(right; exact Ha)). lia.
Qed.

(** Another component's timer fires: the animator's timers are untouched. *)
Lemma inv_tick_other f c h x tm' :
  inv f c -> tm_live (c_timers c) !! h = Some x -> owns (channelName f) (t_cb x) = false ->
  fire_timer (c_timers c) = Some (h, t_cb x, tm') ->
  tm' = mkTimers (t_due x)
          (match t_period x with
           | None => delete h (tm_live (c_timers c))
           | Some p => <[h := mkTimer (t_due x + p) (tm_next (c_timers c)) (Some p) (t_cb x)]> (tm_live (c_timers c))
           end) (S (tm_next (c_timers c))) ->
  inv f (upd_timers (fun _ => tm') c).
Proof.
  intros Hi Hx Ho Hfire Htm.
  pose proof (fire_timer_wf _ _ _ _ (inv_wf _ _ Hi) Hfire) as Hwf'.
  pose proof (inv_wf _ _ Hi _ _ Hx) as (_ & _ & Hdue).
  (* the fired handle is neither of the animator's *)
  assert (forall a, _transitionInterval f = Some a -> a <> h) as Hna.
  { intros a Ha ->. destruct (inv_interval _ _ Hi h Ha) as (y & Hy & Hc).
    rewrite Hx in Hy. injection Hy as <-. rewrite Hc in Ho. by rewrite owns_step in Ho. }
  assert (forall h', h' <> h -> tm_live tm' !! h' = tm_live (c_timers c) !! h') as Hsame.
  { intros h' Hne. subst tm'. simpl. destruct (t_period x);
      [by rewrite lookup_insert_ne | by rewrite lookup_delete_ne]. }
  assert (forall y, tm_live tm' !! h = Some y -> t_cb y = t_cb x) as Hcb.
  { intros y. subst tm'. simpl. destruct (t_period x);
      [rewrite lookup_insert_eq; by intros [= <-] | by rewrite lookup_delete_eq]. }
  destruct Hi as [Hwf Hch Hl Hr Hi Hex Hpipe Hclk Hbl Hd].
  constructor; simpl; try done.
  - intros h' y Hy Hoy. destruct (decide (h' = h)) as [->|Hne].
    + rewrite (Hcb y Hy) in Hoy. congruence.
    + rewrite Hsame in Hy by done. by apply Hr.
  - intros a Ha. rewrite Hsame by (by apply Hna). by apply Hi.
  - intros Hs. specialize (Hex Hs). destruct (_stateTimeout f) as [b|] eqn:Hsto; [|done].
    simpl in *. destruct (decide (b = h)) as [->|Hne].
    + apply bool_decide_eq_false in Hex. rewrite Hx in Hex. by destruct Hex.
    + by rewrite Hsame.
  - subst tm'. simpl. lia.
  - intros a Ha. specialize (Hbl a Ha). subst tm'. simpl. lia.
Qed.

(** The invariant only reads the timers, the light state and the pipe. *)
Lemma inv_ext f c c' :
  inv f c -> c_timers c' = c_timers c -> c_state c' = c_state c ->
  end_pending (channelName f) c' <= end_pending (channelName f) c -> inv f c'.
Proof.
  intros [Hwf Hch Hl Hr Hi Hex Hpipe Hclk Hbl Hd] Ht Hs Hp.
  constructor; rewrite ?Ht, ?Hs; try done. split; [lia|].
  intros H1. apply Hpipe. lia.
Qed.

(** A successful completion of the final command ends the ramp. *)
Lemma inv_end_ok f c :
  inv f c -> is_Some (_transitionInterval f) -> settled f c ->
  inv (endTansition f false c).1 (endTansition f false c).2.
Proof.
  intros Hi Hiv Hs. pose proof (inv_chan _ _ Hi) as Hch.
  pose proof (none_owned_clear_interval _ _ _ _ (inv_roles _ _ Hi) (inv_excl _ _ Hi Hiv)) as Hn.
  rewrite endTansition_eq by done.
  destruct Hi as [Hwf Hch' Hl Hr Hi Hex Hpipe Hclk Hbl Hd]. unfold settled, end_pending in *.
  set (tm1 := clear_timer (_transitionInterval f) (c_timers c)).
  destruct (rearms _ _) eqn:Er;
    match goal with |- context [exec (runStateCallback ?cb) ?c1] =>
      destruct (runStateCallback_frame cb c1 (channelName f) Hch) as (Ht & Hp & Hlt & _) end;
    constructor; unfold end_pending;
    cbn [fst snd channelName _transitionInterval _stateTimeout _stopFlag _transitionStartTime
         set_stateTimeout set_interval];
    rewrite ?Ht, ?Hp, ?Hlt; unfold mkctx_with; cbn [c_timers c_state c_pipe]; try done.
  - apply set_timer_wf, clear_timer_wf, Hwf.
  - rewrite anim_light_set by done. unfold flipped. case_if; lia.
  - apply roles_insert; [done|by right].
  - rewrite Hs. split; lia.
  - subst tm1. simpl. rewrite tm_now_clear. lia.
  - subst tm1. intros a [[=]|[= <-]]. simpl. rewrite tm_next_clear. lia.
  - apply clear_timer_wf, Hwf.
  - rewrite anim_light_set by done. unfold flipped. case_if; lia.
  - by apply roles_none_owned.
  - rewrite Hs. split; lia.
  - subst tm1. rewrite tm_now_clear. lia.
  - intros a [[=]|Ha]. subst tm1. rewrite tm_next_clear. apply Hbl. by right.
Qed.

Lemma end_pending_remove ch c i y :
  c_pipe c !! i = Some y ->
  end_pending ch (upd_pipe (fun l => take i l ++ drop (S i) l) c) +
    (if decide (is_end ch y) then 1 else 0) = end_pending ch c.
Proof.
  intros Hy. unfold end_pending. simpl.
  replace (length (filter (is_end ch) (c_pipe c)))
    with (length (filter (is_end ch) (take i (c_pipe c) ++ y :: drop (S i) (c_pipe c))))
    by (by rewrite take_drop_middle).
  rewrite !filter_app, filter_cons, !length_app. case_decide; simpl; lia.
Qed.

(** A completion of a command of the pipe. *)
Lemma inv_pipe_event f c i r cb c' :
  inv f c -> pipe_complete i r c = Some (cb, c') -> inv (on_pwm f cb c').1 (on_pwm f cb c').2.
Proof.
  intros Hi. unfold pipe_complete. destruct (c_pipe c !! i) as [[cmd cbo]|] eqn:Hy; [|done].
  pose proof (end_pending_remove (channelName f) c i _ Hy) as Hrm.
  assert (inv f (upd_pipe (fun l => take i l ++ drop (S i) l) c)) as Hi'.
  { apply (inv_ext _ _ _ Hi); try done. lia. }
  destruct r; intros [= <- <-]; simpl.
  - destruct cbo as [[ch']|]; simpl; [|exact Hi'].
    destruct (decide (ch' = channelName f)) as [->|Hne]; [|exact Hi'].
    rewrite decide_True in Hrm by done.
    pose proof (inv_pipe _ _ Hi) as [Hp1 Hp2].
    apply inv_end_ok; [exact Hi'| |unfold settled; lia].
    apply Hp2. lia.
  - destruct cbo as [[ch']|]; simpl; [|exact Hi'].
    by destruct (decide (ch' = channelName f)).
  - apply (inv_ext _ _ _ Hi'); try done.
Qed.

Lemma bind_const {A} (m : M A) (f : t) c : bind m (fun _ => ret f) c = (f, exec m c).
Proof. simpl. by destruct (m c). Qed.

(** A timer fires. *)
Lemma inv_timer f c h cb tm' :
  inv f c -> settled f c -> fire_timer (c_timers c) = Some (h, cb, tm') ->
  inv (on_timer f cb (upd_timers (fun _ => tm') c)).1 (on_timer f cb (upd_timers (fun _ => tm') c)).2.
Proof.
  intros Hi Hs Hfire.
  destruct (fire_timer_spec _ _ _ _ Hfire) as (x & Hx & -> & _ & Htm).
  destruct (owns (channelName f) (t_cb x)) eqn:Ho.
  - destruct (inv_roles _ _ Hi h x Hx Ho) as [(_ & Hcb & Hp)|(_ & Hcb & Hp)];
      rewrite Hp in Htm; simpl in Htm.
    + assert (on_timer f (t_cb x) = (transitionStep f ;; ret f)) as ->.
      { rewrite Hcb. simpl. by rewrite decide_True. }
      rewrite bind_const. cbn [fst snd]. eapply inv_tick_step; eauto.
    + assert (on_timer f (t_cb x) = runTransition f) as ->.
      { rewrite Hcb. simpl. by rewrite decide_True. }
      eapply inv_tick_run; eauto.
  - rewrite on_timer_other by done. simpl. eapply inv_tick_other; eauto.
Qed.

Theorem inv_step s s' : inv s.1 s.2 -> step s s' -> inv s'.1 s'.2.
Proof.
  intros Hi Hst. destruct Hst as [f c s' Hs E|f c i r s' E|f c s' Hs E|f c s' Hs E];
    simpl in *; destruct (c_exited c); try done.
  - destruct (fire_timer (c_timers c)) as [[[h cb] tm']|] eqn:Hf; [|done].
    injection E as <-. by eapply inv_timer.
  - destruct (pipe_complete i r c) as [[cb c']|] eqn:Hp; [|done].
    injection E as <-. by eapply inv_pipe_event.
  - injection E as <-. by apply inv_start.
  - injection E as <-. by apply inv_stop.
Qed.

(** The initial state: a fresh animator in a context holding none of its
    timers and none of its commands. *)
Lemma inv_init ch on off tr cb c :
  ch ∈ anim_lights -> timers_wf (c_timers c) -> none_owned ch (tm_live (c_timers c)) ->
  end_pending ch c = 0 -> state_light ch (c_state c) <= 1 ->
  inv (create ch on off tr cb) c.
Proof.
  intros Hch Hwf Hn Hp Hl. constructor; simpl; try done.
  - by apply roles_none_owned.
  - split; lia.
  - lia.
  - by intros a [|].
Qed.

(** ** Runs of the normal regime, computably *)

Definition needs_settled (e : event) : bool :=
  match e with ev_pipe _ _ => false | _ => true end.

Definition normal_step (e : event) (s : t * Ctx) : option (t * Ctx) :=
  if needs_settled e && negb (Nat.eqb (end_pending (channelName s.1) s.2) 0) then None
  else solo_step e s.

Fixpoint normal_run (es : list event) (s : t * Ctx) : option (t * Ctx) :=
  match es with
  | [] => Some s
  | e :: es => match normal_step e s with Some s' => normal_run es s' | None => None end
  end.

Lemma normal_step_step e s s' : normal_step e s = Some s' -> step s s'.
Proof.
  unfold normal_step. destruct s as [f c]. cbn [fst snd].
  destruct e as [| i r | |]; cbn [needs_settled andb]; [| intros E; by eapply step_pipe | |];
    (destruct (Nat.eqb_spec (end_pending (channelName f) c) 0) as [H0|H0]; simpl; [|done]);
    intros E; [apply step_timer|apply step_start|apply step_stop]; done.
Qed.

Lemma normal_run_inv es s s' : inv s.1 s.2 -> normal_run es s = Some s' -> inv s'.1 s'.2.
Proof.
  revert s. induction es as [|e es IH]; intros s Hi; simpl; [by intros [= <-]|].
  destruct (normal_step e s) as [s1|] eqn:E; [|done].
  intros Hr. apply (IH s1); [|done]. eapply inv_step; [exact Hi|]. by apply (normal_step_step e).
Qed.

Lemma on_timer_channel f cb c : channelName (on_timer f cb c).1 = channelName f.
Proof.
  destruct cb; simpl; try done; case_decide; try done.
  - by rewrite bind_const.
  - by rewrite runTransition_eq.
Qed.

Lemma endTansition_channel f err c :
  channelName f ∈ anim_lights -> channelName (endTansition f err c).1 = channelName f.
Proof.
  intros Hch. destruct err; [done|]. rewrite endTansition_eq by done. by destruct (rearms _ _).
Qed.

Lemma on_pwm_channel f cb c :
  channelName f ∈ anim_lights -> channelName (on_pwm f cb c).1 = channelName f.
Proof.
  intros Hch. destruct cb as [[[ch'] err]|]; simpl; try done. case_decide; try done.
  destruct err; [done|]. rewrite endTansition_eq by done. by destruct (rearms _ _).
Qed.

Lemma step_channel s s' : inv s.1 s.2 -> step s s' -> channelName s'.1 = channelName s.1.
Proof.
  intros Hi Hst. pose proof (inv_chan _ _ Hi) as Hch.
  destruct Hst as [f c s' Hs E|f c i r s' E|f c s' Hs E|f c s' Hs E];
    simpl in *; destruct (c_exited c); try done.
  - destruct (fire_timer (c_timers c)) as [[[h cb] tm']|]; [|done].
    injection E as <-. apply on_timer_channel.
  - destruct (pipe_complete i r c) as [[cb c']|]; [|done].
    injection E as <-. by apply on_pwm_channel.
  - injection E as <-. by rewrite start_eq.
  - injection E as <-. rewrite stop_eq. by destruct (truthy _).
Qed.

Lemma normal_run_channel es s s' :
  inv s.1 s.2 -> normal_run es s = Some s' -> channelName s'.1 = channelName s.1.
Proof.
  revert s. induction es as [|e es IH]; intros s Hi; simpl; [by intros [= <-]|].
  destruct (normal_step e s) as [s1|] eqn:E; [|done].
  intros Hr. apply normal_step_step in E.
  rewrite (IH s1); [|by eapply inv_step|done]. by eapply step_channel.
Qed.

(** C1: in every run of the normal regime from a fresh animator, the
    animator's live timers are the ones its two fields record, in their
    roles (the ramp interval and the hold timer), and at most one of them
    is live at any time: the spec's "at most one live timer per timer role
    per channel", and more. *)
Theorem normal_run_one_timer ch on off tr cb es f c :
  ch ∈ anim_lights ->
  normal_run es (create ch on off tr cb, Ctx0) = Some (f, c) ->
  roles ch (_transitionInterval f) (_stateTimeout f) (tm_live (c_timers c)) /\
  forall h1 h2 x1 x2,
    tm_live (c_timers c) !! h1 = Some x1 -> owns ch (t_cb x1) = true ->
    tm_live (c_timers c) !! h2 = Some x2 -> owns ch (t_cb x2) = true -> h1 = h2.
Proof.
  intros Hch Hrun.
  assert (inv (create ch on off tr cb) Ctx0) as H0.
  { apply inv_init.
    - done.
    - intros h x. simpl. by rewrite lookup_empty.
    - unfold none_owned. intros h x. simpl. by rewrite lookup_empty.
    - done.
    - simpl. destruct ch; simpl; lia. }
  pose proof (normal_run_inv es (create ch on off tr cb, Ctx0) _ H0 Hrun) as Hi. simpl in Hi.
  pose proof (normal_run_channel es (create ch on off tr cb, Ctx0) _ H0 Hrun) as Hc.
  simpl in Hc. rewrite <- Hc.
  split; [apply Hi|]. intros. eapply roles_at_most_one; eauto; apply Hi.
Qed.

(** ** The animator interface *)

Lemma runTransition_frame f c : ctx_frame c (runTransition f c).2.
Proof. unfold runTransition. frame_chain. Qed.

Lemma start_frame f c : channelName f <> lightNet -> ctx_frame c (start f c).2.
Proof.
  intros Hch. unfold start.
  apply frame_bind; [apply frame_portOff | intros ? ?].
  apply frame_bind; [by apply frame_setLight | intros ? ?].
  apply frame_bind; [frame_chain | intros ? ?]. apply runTransition_frame.
Qed.

Lemma stop_frame f c : ctx_frame c (stop f c).2.
Proof. unfold stop. frame_chain. Qed.

Lemma start_channel f c : channelName (start f c).1 = channelName f.
Proof.
  destruct f as [ch on off tr cb st iv sto sflag].
  destruct c as [[now live next] [] io out pipe procs pid ex].
  unfold start, runTransition. destruct ch, sto, iv; reflexivity.
Qed.

(** The closures this animator arms. *)
Definition arms (cb : Callback) : Prop :=
  exists ch, cb = CbSFPTransitionStep ch \/ cb = CbSFPRunTransition ch.

Ltac arms_tac := first [by eexists; left | by eexists; right].

Lemma runTransition_adds f : adds_only arms (runTransition f).
Proof. unfold runTransition. adds_chain arms_tac. Qed.

Lemma start_adds f : adds_only arms (start f).
Proof. unfold start. adds_chain arms_tac. Qed.

Lemma stop_adds f : adds_only arms (stop f).
Proof. unfold stop. adds_chain arms_tac. Qed.

Lemma endTansition_adds f err : adds_only arms (endTansition f err).
Proof. unfold endTansition. adds_chain arms_tac. Qed.

Lemma on_timer_adds f cb : adds_only arms (on_timer f cb).
Proof.
  unfold on_timer, transitionStep. destruct cb; adds_chain arms_tac.
Qed.

Lemma on_timer_keeps f cb : keeps_exit (on_timer f cb).
Proof. unfold on_timer, transitionStep, runTransition. destruct cb; keeps_chain. Qed.

Lemma endTansition_keeps f err : keeps_exit (endTansition f err).
Proof. unfold endTansition. keeps_chain. Qed.

(** Only a ramp tick writes to the pigpio pipe. *)
Lemma runTransition_pipe f : keeps_pipe (runTransition f).
Proof. unfold runTransition. pipe_chain. Qed.

Lemma start_pipe f : keeps_pipe (start f).
Proof. unfold start. pipe_chain. Qed.

Lemma stop_pipe f : keeps_pipe (stop f).
Proof. unfold stop. pipe_chain. Qed.

Lemma endTansition_pipe f err : keeps_pipe (endTansition f err).
Proof. unfold endTansition. pipe_chain. Qed.

(** A ramp tick of an animated light keeps every command in flight well
    formed: its own command is for the light's pin, with a duty in
    [0, 250], and carries [endTansition] only at duty 0. *)
Lemma transitionStep_typed f c :
  channelName f ∈ anim_lights -> Forall pwm_typed (c_pipe c) ->
  Forall pwm_typed (c_pipe (exec (transitionStep f) c)).
Proof.
  intros Hch Hp. rewrite transitionStep_pipe_cmd by done. apply Forall_app; split; [done|].
  apply Forall_singleton. exists (channelName f).
  do 2 (split; [done|]). split; [apply step_duty_range|].
  simpl. unfold step_duty.
  destruct (N.ltb_spec (tm_now (c_timers c) - _transitionStartTime f) (timeTransition f)); done.
Qed.

Lemma animator_on_timer_typed f cb c :
  channelName f ∈ anim_lights -> Forall pwm_typed (c_pipe c) ->
  Forall pwm_typed (c_pipe (exec (on_timer f cb) c)).
Proof.
  intros Hch Hp. destruct cb; unfold on_timer; try done; case_decide; try done.
  - rewrite exec_bind. by apply transitionStep_typed.
  - by rewrite runTransition_pipe.
Qed.

#[export] Instance SlowFlasherPigpio_animator : Animator t := {
  anim_channel := channelName;
  anim_start := start;
  anim_stop := stop;
  anim_cb := arms;
  anim_start_channel := start_channel;
  anim_stop_channel f c := ltac:(unfold eval; rewrite stop_eq; by destruct (truthy _));
  anim_start_frame := start_frame;
  anim_stop_frame f c _ := stop_frame f c;
  anim_start_adds := start_adds;
  anim_stop_adds := stop_adds;
  anim_start_pipe := start_pipe;
  anim_stop_pipe := stop_pipe
}.

(** ** The late completion of a ramp's final command

    [transitionStep] sends the final duty-0 command on every tick until
    its completion clears the interval.  When the completion of the first
    one takes longer than one tick ([TRANSITION_INTERVAL] = 40 ms), two
    final commands are in flight and both completions run [endTansition]:
    the light state flips twice and two hold timers are armed, the field
    keeping only the second.  A [stop] then cancels that one, and the first
    stays live: the dog restarts its cycle 16 s after it was stopped. *)

Definition prompt_ticks (n : nat) : list event := concat (repeat [ev_timer; ev_pipe 0 pipe_ok] n).

(** The two late completions, then [stop]. *)
Definition late_tail : list event := [ev_pipe 0 pipe_ok; ev_pipe 0 pipe_ok; ev_stop].

(** C10: whenever a running animator (stop flag clear) has two final
    duty-0 commands of its ramp in flight, in whatever light state, the
    two completions and a [stop] leave it stopped with no interval, yet a
    [runTransition] timer of its channel that no field records is still
    live: the first completion's hold timer, which [stop] cannot cancel
    and nothing else ever will. *)
Theorem late_completion_orphan_timer f c e1 e2 rest :
  channelName f ∈ anim_lights -> c_exited c = false -> _stopFlag f = false ->
  c_pipe c = (e1, Some (PcEndTransition (channelName f))) ::
             (e2, Some (PcEndTransition (channelName f))) :: rest ->
  match solo_run late_tail (f, c) with
  | Some (f', c') =>
      _stopFlag f' = true /\ _transitionInterval f' = None /\ c_pipe c' = rest /\
      exists h x, tm_live (c_timers c') !! h = Some x /\
                  t_cb x = CbSFPRunTransition (channelName f) /\ _stateTimeout f' <> Some h
  | None => False
  end.
Proof.
  intros Hch Hex Hs Hp. destruct f as [ch on off tr cb st iv sto sflag]; simpl in *; subst sflag.
  destruct c as [[now live next] [] io out pipe procs pid ex]; simpl in *; subst ex pipe.
  chan_cases Hch; destruct cb as [[]|]; destruct iv; simpl.
  all: repeat (try (match goal with |- context [truthy ?n] => is_var n; destruct n end);
               unfold controlDogSound; simpl).
  all: try split_and!; try done.
  all: eexists next, _; split; [by rewrite ?lookup_delete_ne, ?lookup_insert_ne, lookup_insert_eq by lia|].
  all: split; [reflexivity | intros [=]; lia].
Qed.

(** Start the dog, run 49 ticks whose commands complete at once, then two
    ticks whose final commands are both still in flight. *)
Definition late_completion_prefix : list event :=
  [ev_start] ++ prompt_ticks 49 ++ [ev_timer; ev_timer].

(** ** Witnesses *)

Lemma lightDog_anim : lightDog ∈ anim_lights.
Proof. by left. Qed.

Lemma start_spec_witness :
  let '(f', c') := start dogFlasher Ctx0 in
  _stopFlag f' = false /\ _transitionInterval f' = Some 0 /\ state_light lightDog (c_state c') = 0.
Proof.
  pose proof (start_spec dogFlasher Ctx0 lightDog_anim) as H.
  destruct (start dogFlasher Ctx0) as [f' c']. simpl in H. tauto.
Defined.

Lemma stop_spec_witness :
  let '(f', c') := stop dogFlasher Ctx0 in _stopFlag f' = true /\ c_timers c' = c_timers Ctx0.
Proof.
  pose proof (stop_spec dogFlasher Ctx0 lightDog_anim) as H.
  destruct (stop dogFlasher Ctx0) as [f' c']. simpl in H. tauto.
Defined.

Lemma transitionStep_spec_witness :
  c_pipe (exec (transitionStep dogFlasher) Ctx0) = [(mkPwmCmd 18 0, None)].
Proof. apply (transitionStep_spec dogFlasher Ctx0 lightDog_anim). Defined.

Lemma endTansition_spec_witness : endTansition dogFlasher true Ctx0 = (dogFlasher, Ctx0).
Proof. apply (endTansition_spec dogFlasher Ctx0 lightDog_anim). Defined.


Lemma normal_run_one_timer_witness :
  match normal_run ([ev_start] ++ prompt_ticks 3 ++ [ev_stop]) (dogFlasher, Ctx0) with
  | Some (f, c) => roles lightDog (_transitionInterval f) (_stateTimeout f) (tm_live (c_timers c))
  | None => False
  end.
Proof.
  destruct (normal_run _ _) as [[f c]|] eqn:E.
  - exact (proj1 (normal_run_one_timer lightDog _ _ _ _ _ f c lightDog_anim E)).
  - vm_compute in E. discriminate.
Defined.

Lemma step_duty_bounds_witness : (step_duty 0 400 2000 <= step_duty 0 1000 2000)%Z.
Proof. apply (proj2 (step_duty_bounds 0 2000) 400%N 1000%N). lia. Defined.

Lemma late_completion_orphan_timer_witness :
  match solo_run late_completion_prefix (dogFlasher, Ctx0) with
  | Some (f, c) =>
      match solo_run late_tail (f, c) with
      | Some (f', c') => _stopFlag f' = true /\ _transitionInterval f' = None
      | None => False
      end
  | None => False
  end.
Proof.
  destruct (solo_run late_completion_prefix (dogFlasher, Ctx0)) as [[f c]|] eqn:E;
    [|vm_compute in E; discriminate].
  pose proof (late_completion_orphan_timer f c) as H.
  vm_compute in E. injection E as <- <-.
  specialize (H _ _ _ lightDog_anim eq_refl eq_refl eq_refl).
  destruct (solo_run late_tail _) as [[f' c']|]; [tauto | exact H].
Defined.

End SlowFlasherPigpio.
