(* ===== verification/StopContract.v ===== *)
(** * The stop contract of the continuous animator

    The spec (sections 4.4 and 8) promises that a stopped animator
    finishes the cycle it is in and then halts dark: stopped in its off
    hold it halts at once; stopped while on or ramping it completes the
    ramp down to logical 0, and then no timer of it is left.  This file
    proves it of [SlowFlasherPigpio] ([src/halloween.js] lines 302-370),
    with a bound on the number of events.

    The animator runs alone under the prompt driver [drive]: each
    command in flight completes at once, and otherwise the next timer
    fires.  These are runs of the normal regime of [SlowFlasherPigpio]
    ([drive_steps]).  The animator is always in one of three phases:
    ramping ([ramp_at], its interval the one live timer), holding
    ([hold_at], its hold timer the one live timer) or quiet ([quiet], no
    timer, nothing in flight); [phase_of_inv] reads the phase off the
    invariant [inv].

    The same phase lemmas, with the ramp's ticks counted exactly
    ([ramp_count]), give the breathing cycle of a running animator and
    its period ([cycle_repeats]); and with the
    completion failing, the error path of the final command
    ([final_command_retried]). *)

From stdpp Require Import gmap.
From Stdlib Require Import NArith QArith.
From S2P Require Import Prelude Timers Ports Runtime Animator SlowFlasherPigpio.

Module PigpioStop.
Import SlowFlasherPigpio.

(** ** The prompt driver *)

(** The event the driver delivers: the completion of the oldest command
    in flight, or else the next timer. *)
Definition prompt_event (c : Ctx) : event :=
  match c_pipe c with [] => ev_timer | _ :: _ => ev_pipe 0 pipe_ok end.

(** [n] events of the driver; it halts when no event can happen. *)
Fixpoint drive (n : nat) (s : t * Ctx) : t * Ctx :=
  match n with
  | 0 => s
  | S n => match solo_step (prompt_event s.2) s with Some s' => drive n s' | None => s end
  end.

(** ** Phases *)

(** What a stop must leave: no live timer and nothing in flight. *)
Definition quiet (c : Ctx) : Prop := tm_live (c_timers c) = ∅ /\ c_pipe c = [].

(** The animator alone in its context, with nothing in flight. *)
Definition alone (f : t) (c : Ctx) : Prop :=
  channelName f ∈ anim_lights /\ c_exited c = false /\ c_pipe c = [].

(** Ramping: the recorded interval, due at [d], is the one live timer. *)
Definition ramp_at (f : t) (c : Ctx) (d : N) : Prop :=
  alone f c /\ (_transitionStartTime f <= d)%N /\
  exists h q, _transitionInterval f = Some h /\
    tm_live (c_timers c) = {[h := mkTimer d q (Some TRANSITION_INTERVAL) (CbSFPTransitionStep (channelName f))]}.

(** Holding: no interval, and a hold timer due at [d] is the one live
    timer. *)
Definition hold_at (f : t) (c : Ctx) (d : N) : Prop :=
  alone f c /\ _transitionInterval f = None /\
  exists h q, tm_live (c_timers c) = {[h := mkTimer d q None (CbSFPRunTransition (channelName f))]}.

(** The fields no closure of the animator changes. *)
Definition cfg (f : t) : PortName * N * N * N * option StateCb * bool :=
  (channelName f, timeOn f, timeOff f, timeTransition f, stateCallback f, _stopFlag f).

(** Ticks of a ramp whose final command has not been sent yet. *)
Definition ramp_ticks (T : N) : nat := N.to_nat (T / TRANSITION_INTERVAL) + 1.

(** Events enough for a stopped animator to halt: a ramp up (ticks and
    their completions, and the final tick with its completion), the on
    hold, and a ramp down. *)
Definition stop_fuel (T : N) : nat := 2 * (2 * ramp_ticks T + 2) + 1.

(** ** The driver *)

Lemma drive_stuck n s : solo_step (prompt_event s.2) s = None -> drive n s = s.
Proof. intros E. destruct n; simpl; [done|]. by rewrite E. Qed.

Lemma drive_add a b s : drive (a + b) s = drive b (drive a s).
Proof.
  revert s. induction a as [|a IH]; intros s; simpl; [done|].
  destruct (solo_step (prompt_event s.2) s) eqn:E; [apply IH|]. by rewrite drive_stuck.
Qed.

Lemma quiet_stuck n f c : quiet c -> drive n (f, c) = (f, c).
Proof.
  intros [Hl Hp]. apply drive_stuck. simpl. unfold prompt_event. rewrite Hp.
  destruct (c_exited c); [done|]. unfold fire_timer, next_timer. by rewrite Hl, map_to_list_empty.
Qed.

(** Every run of the driver is a run of the normal regime. *)
Lemma drive_steps n s : rtc step s (drive n s).
Proof.
  revert s. induction n as [|n IH]; intros s; [apply rtc_refl|]. cbn [drive].
  destruct (solo_step (prompt_event s.2) s) as [s'|] eqn:E; [|apply rtc_refl].
  eapply rtc_l; [|apply IH]. destruct s as [f c]. unfold prompt_event in E. cbn [snd] in E.
  destruct (c_pipe c) eqn:Hp.
  - apply step_timer; [|done]. unfold settled, end_pending. by rewrite Hp.
  - by eapply step_pipe.
Qed.

(** ** One live timer *)

Lemma fire_single now h (x : timer Callback) next :
  fire_timer (mkTimers now {[h := x]} next) =
    Some (h, t_cb x, mkTimers (t_due x)
      (match t_period x with
       | None => ∅
       | Some p => {[h := mkTimer (t_due x + p) next (Some p) (t_cb x)]}
       end) (S next)).
Proof.
  unfold fire_timer, next_timer. cbn [tm_live tm_next]. rewrite map_to_list_singleton.
  cbn [foldr pick]. destruct (t_period x).
  - by rewrite insert_singleton_eq.
  - by rewrite delete_singleton_eq.
Qed.

Lemma pipe_single c x r :
  r <> pipe_open_error -> c_pipe c = [x] ->
  pipe_complete 0 r c =
    Some ((fun g => (g, pipe_failed r)) <$> snd x, mkctx_with c (c_timers c) (c_state c) (c_out c) []).
Proof. intros Hr. destruct c, x. simpl. intros ->. by destruct r. Qed.

Lemma solo_timer_single f c h x :
  c_exited c = false -> tm_live (c_timers c) = {[h := x]} ->
  solo_step ev_timer (f, c) =
    Some (on_timer f (t_cb x) (upd_timers (fun _ => mkTimers (t_due x)
      (match t_period x with
       | None => ∅
       | Some p => {[h := mkTimer (t_due x + p) (tm_next (c_timers c)) (Some p) (t_cb x)]}
       end) (S (tm_next (c_timers c)))) c)).
Proof.
  intros Hex Hl. unfold solo_step. rewrite Hex.
  destruct c as [[now live next] st io out pipe procs pid ex]. cbn [c_timers tm_live] in Hl |- *.
  subst live. by rewrite fire_single.
Qed.

Lemma solo_pipe_single f c x r :
  r <> pipe_open_error -> c_exited c = false -> c_pipe c = [x] ->
  solo_step (ev_pipe 0 r) (f, c) =
    Some (on_pwm f ((fun g => (g, pipe_failed r)) <$> snd x) (mkctx_with c (c_timers c) (c_state c) (c_out c) [])).
Proof. intros Hr Hex Hp. unfold solo_step. rewrite Hex. by rewrite (pipe_single c x r Hr Hp). Qed.

(** ** A tick of the ramp

    The interval fires at [d] and [transitionStep] sends one command:
    the duty [step_duty] of the ramp's age, with no callback while the
    ramp is younger than [timeTransition] and with [endTansition] once it
    is not.  The interval is re-armed [TRANSITION_INTERVAL] later. *)

Definition tick_cmd (f : t) (c : Ctx) (d : N) : PwmCmd * option PwmCallback :=
  (mkPwmCmd (pin (Ports (channelName f)))
     (step_duty (state_light (channelName f) (c_state c)) (d - _transitionStartTime f) (timeTransition f)),
   if (d - _transitionStartTime f <? timeTransition f)%N then None
   else Some (PcEndTransition (channelName f))).

Lemma ramp_send f c d :
  ramp_at f c d ->
  exists c1, solo_step ev_timer (f, c) = Some (f, c1) /\
    c_exited c1 = false /\ c_pipe c1 = [tick_cmd f c d] /\ c_state c1 = c_state c /\
    c_out c1 = c_out c ++ [OPwm (fst (tick_cmd f c d))] /\ tm_now (c_timers c1) = d /\
    exists q', tm_live (c_timers c1) =
      {[default 0 (_transitionInterval f) := mkTimer (d + TRANSITION_INTERVAL) q' (Some TRANSITION_INTERVAL) (CbSFPTransitionStep (channelName f))]}.
Proof.
  intros [[Hch [Hex Hp]] [Hst [h [q [Hiv Hl]]]]]. rewrite Hiv. cbn [default].
  rewrite (solo_timer_single f c h _ Hex Hl). cbn [t_cb t_due t_period].
  unfold on_timer. rewrite decide_True by done. rewrite bind_const.
  rewrite transitionStep_eq by done. cbn [fst snd c_timers c_pipe mkctx_with upd_timers tm_now].
  eexists. split; [reflexivity|]. cbn [mkctx_with c_exited c_pipe c_state c_out c_timers upd_timers tm_now tm_live].
  rewrite Hp. split_and!; try done. by eexists.
Qed.

(** The driver completes the command at once. *)
Lemma ramp_tick f c d :
  ramp_at f c d ->
  exists c', drive 2 (f, c) = on_pwm f ((fun g => (g, false)) <$> snd (tick_cmd f c d)) c' /\
    c_exited c' = false /\ c_pipe c' = [] /\ c_state c' = c_state c /\ tm_now (c_timers c') = d /\
    exists q', tm_live (c_timers c') =
      {[default 0 (_transitionInterval f) := mkTimer (d + TRANSITION_INTERVAL) q' (Some TRANSITION_INTERVAL) (CbSFPTransitionStep (channelName f))]}.
Proof.
  intros Hr. pose proof Hr as ([_ [_ Hp]] & _).
  destruct (ramp_send f c d Hr) as (c1 & E1 & Hx1 & Hp1 & Hs1 & _ & Hn1 & Hl1).
  cbn [drive]. unfold prompt_event at 1. cbn [snd]. rewrite Hp, E1.
  unfold prompt_event at 1. cbn [snd]. rewrite Hp1.
  rewrite (solo_pipe_single f c1 _ pipe_ok) by done. cbn [drive].
  eexists. split; [reflexivity|]. by cbn [mkctx_with c_exited c_pipe c_state c_timers].
Qed.

(** A tick while the ramp is younger than [timeTransition]: the
    animator's fields and the light state do not change. *)
Lemma ramp_mid f c d :
  ramp_at f c d -> (d - _transitionStartTime f < timeTransition f)%N ->
  exists c', drive 2 (f, c) = (f, c') /\ ramp_at f c' (d + TRANSITION_INTERVAL) /\ c_state c' = c_state c.
Proof.
  intros Hr Hlt. pose proof Hr as ([Hch _] & Hst & h & _ & Hiv & _).
  destruct (ramp_tick f c d Hr) as (c' & E & Hex & Hp & Hs & _ & q' & Hl).
  unfold tick_cmd in E. cbn [snd] in E. rewrite (proj2 (N.ltb_lt _ _) Hlt) in E. exists c'. split; [exact E|]. split; [|done].
  split; [done|]. split; [lia|]. exists h, q'. rewrite Hiv in Hl |- *. by split.
Qed.

(** The ticks of a ramp up to the first one at or past [timeTransition]:
    at most [n] of them when [n] intervals cover what is left. *)
Lemma ramp_run n f c d :
  ramp_at f c d ->
  (timeTransition f <= d - _transitionStartTime f + TRANSITION_INTERVAL * N.of_nat n)%N ->
  exists k c' d', k <= n /\ drive (2 * k) (f, c) = (f, c') /\ ramp_at f c' d' /\
    (timeTransition f <= d' - _transitionStartTime f)%N /\ c_state c' = c_state c.
Proof.
  revert c d. induction n as [|n IH]; intros c d Hr Hn.
  - exists 0, c, d. split_and!; [lia|done|done|lia|done].
  - destruct (N.lt_ge_cases (d - _transitionStartTime f) (timeTransition f)) as [Hlt|Hge].
    + destruct (ramp_mid f c d Hr Hlt) as (c1 & E1 & Hr1 & Hs1).
      pose proof Hr as (_ & Hst & _).
      destruct (IH c1 (d + TRANSITION_INTERVAL)%N Hr1) as (k & c' & d' & Hk & E & Hr' & Hd' & Hs');
        [unfold TRANSITION_INTERVAL in *; lia|].
      exists (S k), c', d'. split_and!; try done; [lia| |congruence].
      replace (2 * S k) with (2 + 2 * k) by lia. by rewrite drive_add, E1.
    + exists 0, c, d. split_and!; [lia|done|done|lia|done].
Qed.

(** The final tick: the driver completes the duty-0 command at once, so
    [endTansition] runs on a context whose only live timer is the
    interval it clears. *)
Lemma ramp_last f c d :
  ramp_at f c d -> (timeTransition f <= d - _transitionStartTime f)%N ->
  exists c', drive 2 (f, c) = endTansition f false c' /\
    c_exited c' = false /\ c_pipe c' = [] /\ c_state c' = c_state c /\ tm_now (c_timers c') = d /\
    tm_live (clear_timer (_transitionInterval f) (c_timers c')) = ∅.
Proof.
  intros Hr Hge. pose proof Hr as ([Hch _] & _ & h & _ & Hiv & _).
  destruct (ramp_tick f c d Hr) as (c' & E & Hex & Hp & Hs & Hn & q' & Hl).
  unfold tick_cmd in E. cbn [snd] in E. rewrite (proj2 (N.ltb_ge _ _) Hge) in E. cbn [fmap option_fmap option_map] in E.
  exists c'. split_and!; try done.
  - rewrite E. unfold on_pwm. by rewrite decide_True.
  - rewrite Hiv in Hl |- *. cbn [clear_timer tm_live]. rewrite Hl. apply delete_singleton_eq.
Qed.

Lemma cfg_set_stateTimeout f h : cfg (set_stateTimeout f h) = cfg f.
Proof. by destruct f. Qed.
Lemma cfg_set_interval f h : cfg (set_interval f h) = cfg f.
Proof. by destruct f. Qed.
#[local] Hint Rewrite cfg_set_stateTimeout cfg_set_interval : hw_rw.

Lemma anim_light_in ch : ch ∈ anim_lights -> ch ∈ [lightNet; lightDog; lightSkull1; lightSkull2; soundDog].
Proof. intros H. chan_cases H; set_solver. Qed.

(** [endTansition] on the final completion: the light flips, nothing is
    in flight, and the only timer left is the hold timer it arms, when it
    arms one. *)
Lemma end_outcome f c :
  channelName f ∈ anim_lights -> c_exited c = false -> c_pipe c = [] ->
  tm_live (clear_timer (_transitionInterval f) (c_timers c)) = ∅ ->
  let '(f', c') := endTansition f false c in
  let s' := flipped (state_light (channelName f) (c_state c)) in
  cfg f' = cfg f /\ _transitionInterval f' = None /\
  state_light (channelName f) (c_state c') = s' /\ c_exited c' = false /\ c_pipe c' = [] /\
  if rearms (_stopFlag f) s'
  then hold_at f' c' (tm_now (c_timers c) + clamp_delay (if truthy s' then timeOn f else timeOff f))
  else tm_live (c_timers c') = ∅.
Proof.
  intros Hch Hex Hp Hl. rewrite endTansition_eq by done. cbv zeta.
  set (ch := channelName f). set (s' := flipped (state_light ch (c_state c))).
  set (tm1 := clear_timer (_transitionInterval f) (c_timers c)).
  set (c1 := fun tm => mkctx_with c tm (set_state_light ch s' (c_state c)) (c_out c ++ [OGpio ch s']) (c_pipe c)).
  assert (Hc1 : forall tm, state_light ch (c_state (c1 tm)) = s' /\ c_exited (c1 tm) = false /\ c_pipe (c1 tm) = [])
    by (intros; split_and!; [apply state_light_set, anim_light_in|..]; done).
  destruct (rearms (_stopFlag f) s') eqn:R.
  - set (tm2 := snd (set_timer (if truthy s' then timeOn f else timeOff f) false (CbSFPRunTransition ch) tm1)).
    destruct (runStateCallback_frame (stateCallback f) (c1 tm2) ch Hch) as (Ht & Hp' & Hs & _ & _ & _ & _ & _ & _ & Hx & _).
    destruct (Hc1 tm2) as (Hs1 & Hx1 & Hp1). unfold c1 in *.
    split_and!; autorewrite with hw_rw; try done; try congruence.
    split; [split_and!; [done|congruence|congruence]|]. split; [done|].
    exists (tm_next tm1), (tm_next tm1). rewrite Ht. cbn [mkctx_with c_timers].
    unfold tm2, set_timer. cbn [snd tm_live tm_now]. rewrite (Hl : tm_live tm1 = ∅).
    unfold tm1. rewrite tm_now_clear. apply insert_empty.
  - destruct (runStateCallback_frame (stateCallback f) (c1 tm1) ch Hch) as (Ht & Hp' & Hs & _ & _ & _ & _ & _ & _ & Hx & _).
    destruct (Hc1 tm1) as (Hs1 & Hx1 & Hp1). unfold c1 in *.
    split_and!; autorewrite with hw_rw; try done; try congruence.
    rewrite Ht. exact Hl.
Qed.

Lemma clamp_interval : clamp_delay TRANSITION_INTERVAL = TRANSITION_INTERVAL.
Proof. reflexivity. Qed.

(** The hold timer fires: [runTransition] starts a ramp at [d], its
    interval the one live timer. *)
Lemma hold_fire f c d :
  hold_at f c d ->
  exists f' c', drive 1 (f, c) = (f', c') /\ cfg f' = cfg f /\ _transitionStartTime f' = d /\
    ramp_at f' c' (d + TRANSITION_INTERVAL) /\ c_state c' = c_state c.
Proof.
  intros ([Hch [Hex Hp]] & Hiv & h & q & Hl).
  cbn [drive]. unfold prompt_event at 1. cbn [snd]. rewrite Hp.
  rewrite (solo_timer_single f c h _ Hex Hl). cbn [t_cb t_due t_period].
  unfold on_timer. rewrite decide_True by done. rewrite runTransition_eq, Hiv.
  cbn [drive]. eexists _, _. split; [reflexivity|]. split; [reflexivity|]. split; [reflexivity|]. split; [|done].
  split; [done|]. split; [cbn; lia|].
  eexists _, _. split; [reflexivity|]. cbn [mkctx_with c_timers set_timer snd tm_live clear_timer upd_timers tm_now].
  rewrite clamp_interval. apply insert_empty.
Qed.

(** A whole ramp: at most [2 * ramp_ticks T + 2] events until the light
    has flipped, nothing is in flight and the hold timer, if
    [endTansition] armed one, is the only live timer. *)
Lemma ramp_phase f c d :
  ramp_at f c d ->
  exists k f' c', k <= 2 * ramp_ticks (timeTransition f) + 2 /\ drive k (f, c) = (f', c') /\
    cfg f' = cfg f /\ _transitionInterval f' = None /\
    state_light (channelName f) (c_state c') = flipped (state_light (channelName f) (c_state c)) /\
    c_exited c' = false /\ c_pipe c' = [] /\
    if rearms (_stopFlag f) (flipped (state_light (channelName f) (c_state c)))
    then exists d', hold_at f' c' d' else tm_live (c_timers c') = ∅.
Proof.
  intros Hr. pose proof Hr as ([Hch _] & Hst & _).
  destruct (ramp_run (ramp_ticks (timeTransition f)) f c d Hr) as (k & c1 & d1 & Hk & E1 & Hr1 & Hd1 & Hs1).
  { unfold ramp_ticks. rewrite Nat2N.inj_add, N2Nat.id.
    pose proof (N.mul_succ_div_gt (timeTransition f) TRANSITION_INTERVAL ltac:(done)). lia. }
  destruct (ramp_last f c1 d1 Hr1 Hd1) as (c2 & E2 & Hx2 & Hp2 & Hs2 & _ & Hl2).
  pose proof (end_outcome f c2 Hch Hx2 Hp2 Hl2) as Ho.
  destruct (endTansition f false c2) as [f' c'] eqn:E3. rewrite Hs2, Hs1 in Ho.
  exists (2 * k + 2), f', c'. split; [lia|]. split; [rewrite drive_add, E1, E2; by rewrite ?E3|].
  destruct Ho as (? & ? & ? & ? & ? & Ho). split_and!; try done. destruct (rearms _ _); [by eexists|done].
Qed.

(** ** A failing final command

    [sendPigpioCommand] hands a write error to the callback, and
    [endTansition(err)] then does nothing: the interval keeps ticking and
    each tick sends the duty-0 command again. *)

Lemma solo_run_app es1 es2 s :
  solo_run (es1 ++ es2) s = match solo_run es1 s with Some s' => solo_run es2 s' | None => None end.
Proof.
  revert s. induction es1 as [|e es IH]; intros s; [done|]. cbn [app solo_run].
  destruct (solo_step e s); [apply IH|done].
Qed.

Lemma ramp_fail_tick f c d :
  ramp_at f c d -> (timeTransition f <= d - _transitionStartTime f)%N ->
  exists c', solo_run [ev_timer; ev_pipe 0 pipe_write_error] (f, c) = Some (f, c') /\
    ramp_at f c' (d + TRANSITION_INTERVAL) /\ c_state c' = c_state c /\
    c_out c' = c_out c ++ [OPwm (mkPwmCmd (pin (Ports (channelName f))) 0)].
Proof.
  intros Hr Hge. pose proof Hr as ([Hch _] & Hst & h & _ & Hiv & _).
  destruct (ramp_send f c d Hr) as (c1 & E1 & Hx1 & Hp1 & Hs1 & Ho1 & _ & q' & Hl1).
  unfold tick_cmd, step_duty in Hp1, Ho1. rewrite (proj2 (N.ltb_ge _ _) Hge) in Hp1, Ho1. cbn [fst] in Ho1.
  cbn [solo_run]. rewrite E1, (solo_pipe_single f c1 _ pipe_write_error ltac:(discriminate) Hx1 Hp1).
  cbn [snd fmap option_fmap option_map pipe_failed on_pwm]. rewrite decide_True by done. cbn [endTansition].
  eexists. split; [reflexivity|]. cbn [mkctx_with c_state c_out c_timers c_exited c_pipe].
  split_and!; [|done|exact Ho1]. split; [done|]. split; [lia|]. exists h, q'. rewrite Hiv in Hl1. by split.
Qed.

(** C36: the error path of the final command.  When the completion of a
    ramp's final duty-0 command reports a write error, [endTansition]
    does nothing: after [n] such ticks the animator is still ramping, its
    light state unchanged, having sent the duty-0 command [n] times, one
    every [TRANSITION_INTERVAL] ms.  The command is retried until it
    succeeds, and the animation does not advance meanwhile. *)
Theorem final_command_retried n f c d :
  ramp_at f c d -> (timeTransition f <= d - _transitionStartTime f)%N ->
  exists c', solo_run (concat (repeat [ev_timer; ev_pipe 0 pipe_write_error] n)) (f, c) = Some (f, c') /\
    ramp_at f c' (d + TRANSITION_INTERVAL * N.of_nat n) /\ c_state c' = c_state c /\
    c_out c' = c_out c ++ repeat (OPwm (mkPwmCmd (pin (Ports (channelName f))) 0)) n.
Proof.
  revert c d. induction n as [|n IH]; intros c d Hr Hge.
  - exists c. split_and!; [done| |done|by rewrite app_nil_r]. by rewrite N.mul_0_r, N.add_0_r.
  - destruct (ramp_fail_tick f c d Hr Hge) as (c1 & E1 & Hr1 & Hs1 & Ho1).
    destruct (IH c1 (d + TRANSITION_INTERVAL)%N Hr1) as (c' & E & Hr' & Hs' & Ho'); [lia|].
    exists c'. split_and!.
    + cbn [repeat concat]. by rewrite solo_run_app, E1.
    + by replace (d + TRANSITION_INTERVAL * N.of_nat (S n))%N
        with (d + TRANSITION_INTERVAL + TRANSITION_INTERVAL * N.of_nat n)%N by lia.
    + congruence.
    + rewrite Ho', Ho1, <- app_assoc. reflexivity.
Qed.

(** ** Exact timing of a ramp

    A ramp started at [s] ticks at [s + 40 j]; its final tick is the
    [ramp_count T]-th, the first at or past [timeTransition]. *)

Definition ramp_count (T : N) : N := N.max 1 ((T + TRANSITION_INTERVAL - 1) / TRANSITION_INTERVAL).

(** The ms from [runTransition] to the flip of the light. *)
Definition ramp_span (T : N) : N := TRANSITION_INTERVAL * ramp_count T.

(** A full cycle of a running animator: on hold, ramp down, off hold,
    ramp up; [setTimeout] clamps a hold of 0 to 1 ms. *)
Definition cycle_period (f : t) : N :=
  clamp_delay (timeOn f) + clamp_delay (timeOff f) + 2 * ramp_span (timeTransition f).

(** The driver's events in one cycle: two hold timers, and two ramps of
    [ramp_count] ticks each with its completion. *)
Definition cycle_events (T : N) : nat := 2 * (2 * N.to_nat (ramp_count T) + 1).

Lemma ramp_count_spec T :
  (1 <= ramp_count T)%N /\ (T <= TRANSITION_INTERVAL * ramp_count T)%N /\
  forall j, (1 <= j < ramp_count T)%N -> (TRANSITION_INTERVAL * j < T)%N.
Proof.
  unfold ramp_count.
  pose proof (N.div_mod (T + TRANSITION_INTERVAL - 1) TRANSITION_INTERVAL ltac:(done)) as Hd.
  pose proof (N.mod_lt (T + TRANSITION_INTERVAL - 1) TRANSITION_INTERVAL ltac:(done)) as Hm.
  set (q := ((T + TRANSITION_INTERVAL - 1) / TRANSITION_INTERVAL)%N) in *.
  set (r := ((T + TRANSITION_INTERVAL - 1) mod TRANSITION_INTERVAL)%N) in *.
  clearbody q r. unfold TRANSITION_INTERVAL in *.
  destruct (N.max_spec 1 q) as [[? ->]|[? ->]]; split_and!; try lia; intros j Hj; lia.
Qed.

(** The ticks of a ramp from its [j]-th to its last. *)
Lemma ramp_run_exact m f c j :
  ramp_at f c (_transitionStartTime f + TRANSITION_INTERVAL * j) -> (1 <= j)%N ->
  (j + N.of_nat m = ramp_count (timeTransition f))%N ->
  exists c', drive (2 * m) (f, c) = (f, c') /\
    ramp_at f c' (_transitionStartTime f + ramp_span (timeTransition f)) /\ c_state c' = c_state c.
Proof.
  unfold ramp_span. revert c j. induction m as [|m IH]; intros c j Hr Hj Hm.
  - exists c. rewrite <- Hm. split_and!; [done| |done]. by replace (j + N.of_nat 0)%N with j by lia.
  - destruct (ramp_count_spec (timeTransition f)) as (_ & _ & Hlt).
    destruct (ramp_mid f c _ Hr) as (c1 & E1 & Hr1 & Hs1); [specialize (Hlt j ltac:(lia)); lia|].
    destruct (IH c1 (j + 1)%N) as (c' & E & Hr' & Hs'); [|lia|lia|].
    { by replace (_transitionStartTime f + TRANSITION_INTERVAL * (j + 1))%N
        with (_transitionStartTime f + TRANSITION_INTERVAL * j + TRANSITION_INTERVAL)%N by lia. }
    exists c'. split_and!; [|done|congruence].
    replace (2 * S m) with (2 + 2 * m) by lia. by rewrite drive_add, E1.
Qed.

(** The invariant holds along the driver's runs. *)
Lemma drive_inv n s : inv s.1 s.2 -> inv (drive n s).1 (drive n s).2.
Proof.
  intros Hi. pose proof (drive_steps n s) as Hr. revert Hi. induction Hr as [|x y z Hxy _ IH]; [done|].
  intros Hi. apply IH. by eapply inv_step.
Qed.

(** ** The phase of an animator *)

(** Every live timer of the context belongs to the animator. *)
Definition owned_only (ch : PortName) (c : Ctx) : Prop :=
  map_Forall (fun _ x => owns ch (t_cb x) = true) (tm_live (c_timers c)).

Lemma map_single_of {A} (m : gmap nat A) h x :
  m !! h = Some x -> (forall h' x', m !! h' = Some x' -> h' = h) -> m = {[h := x]}.
Proof.
  intros Hh Hu. apply map_eq. intros k. destruct (decide (k = h)) as [->|Hne].
  - by rewrite lookup_singleton_eq.
  - rewrite lookup_singleton_ne by congruence.
    destruct (m !! k) eqn:E; [|done]. by apply Hu in E.
Qed.

Lemma map_empty_of {A} (m : gmap nat A) : (forall h x, m !! h = Some x -> False) -> m = ∅.
Proof. intros Hn. apply map_eq. intros k. rewrite lookup_empty. destruct (m !! k) eqn:E; [|done]. by destruct (Hn _ _ E). Qed.

Lemma is_live_true h (tm : timers Callback) : is_live (Some h) tm = true <-> is_Some (tm_live tm !! h).
Proof. simpl. apply bool_decide_eq_true. Qed.

(** The invariant, read in a context holding only the animator's
    timers: the animator is ramping (its interval the one live timer, the
    hold field naming another handle), holding (its recorded hold timer
    the one live timer) or has no timer at all. *)
Lemma phase_of_inv f c :
  inv f c -> owned_only (channelName f) c ->
  (exists h d q, _transitionInterval f = Some h /\ _stateTimeout f <> Some h /\
     (_transitionStartTime f <= d)%N /\
     tm_live (c_timers c) = {[h := mkTimer d q (Some TRANSITION_INTERVAL) (CbSFPTransitionStep (channelName f))]}) \/
  (_transitionInterval f = None /\ exists h d q, _stateTimeout f = Some h /\
     tm_live (c_timers c) = {[h := mkTimer d q None (CbSFPRunTransition (channelName f))]}) \/
  (_transitionInterval f = None /\ tm_live (c_timers c) = ∅).
Proof.
  intros Hi Ho. unfold owned_only in Ho. pose proof (inv_roles _ _ Hi) as Hr.
  destruct (_transitionInterval f) as [h|] eqn:Hiv.
  - left. destruct (inv_interval _ _ Hi h Hiv) as (x & Hx & Hcb).
    pose proof (inv_distinct _ _ Hi h Hiv) as Hd.
    destruct (Hr h x Hx (Ho h x Hx)) as [(_ & _ & Hper)|(Hsto & _)]; [|done].
    exists h, (t_due x), (t_seq x). split_and!; [done|done| |].
    + pose proof (inv_clock _ _ Hi). pose proof (proj2 (proj2 (inv_wf _ _ Hi h x Hx))). lia.
    + rewrite (map_single_of _ h x Hx); [by destruct x; simpl in *; subst|].
      intros h' x' Hx'. rewrite <- Hiv in Hr.
      eapply roles_at_most_one; [exact Hr|intros _; apply (inv_excl _ _ Hi); by rewrite Hiv|exact Hx'|exact (Ho _ _ Hx')|exact Hx|exact (Ho _ _ Hx)].
  - right. destruct (_stateTimeout f) as [h|] eqn:Hsto;
      [destruct (tm_live (c_timers c) !! h) as [x|] eqn:Hx|].
    + left. split; [done|].
      destruct (Hr h x Hx (Ho h x Hx)) as [(? & _)|(_ & Hcb & Hper)]; [done|].
      exists h, (t_due x), (t_seq x). split; [done|].
      rewrite (map_single_of _ h x Hx); [by destruct x; simpl in *; subst|].
      intros h' x' Hx'. by destruct (Hr h' x' Hx' (Ho h' x' Hx')) as [(? & _)|([= ->] & _)].
    + right. split; [done|]. apply map_empty_of. intros h' x' Hx'.
      destruct (Hr h' x' Hx' (Ho h' x' Hx')) as [(? & _)|([= <-] & _)]; congruence.
    + right. split; [done|]. apply map_empty_of. intros h' x' Hx'.
      by destruct (Hr h' x' Hx' (Ho h' x' Hx')) as [(? & _)|(? & _)].
Qed.

(** ** A stopped animator halts dark *)

Lemma cfg_inj f g :
  cfg f = cfg g ->
  channelName f = channelName g /\ timeTransition f = timeTransition g /\ _stopFlag f = _stopFlag g /\
  timeOn f = timeOn g /\ timeOff f = timeOff g.
Proof. unfold cfg. intros E. by injection E. Qed.

Lemma drive_settle k n s f' c' :
  k <= n -> drive k s = (f', c') -> quiet c' -> drive n s = (f', c').
Proof.
  intros Hk E Hq. replace n with (k + (n - k)) by lia.
  rewrite drive_add, E. by apply quiet_stuck.
Qed.

(** Within [n] events of the driver, the animator reaches a state with
    no timer, nothing in flight, its light at logical 0, and the stop
    flag set. *)
Definition halts_dark (ch : PortName) (n : nat) (s : t * Ctx) : Prop :=
  exists k f' c', k <= n /\ drive k s = (f', c') /\ quiet c' /\
    state_light ch (c_state c') = 0 /\ _stopFlag f' = true.

Lemma halts_dark_now ch n f c :
  quiet c -> state_light ch (c_state c) = 0 -> _stopFlag f = true -> halts_dark ch n (f, c).
Proof. intros. exists 0, f, c. split_and!; [lia|done..]. Qed.

Lemma halts_dark_after ch k n s f' c' :
  drive k s = (f', c') -> halts_dark ch n (f', c') -> halts_dark ch (k + n) s.
Proof.
  intros E (k' & f'' & c'' & Hk & E' & H). exists (k + k'), f'', c''.
  split; [lia|]. split; [by rewrite drive_add, E|exact H].
Qed.

(** A ramp down with the stop flag set ends the animation. *)
Lemma stopped_ramp_down f c d :
  ramp_at f c d -> _stopFlag f = true -> state_light (channelName f) (c_state c) = 1 ->
  halts_dark (channelName f) (2 * ramp_ticks (timeTransition f) + 2) (f, c).
Proof.
  intros Hr Hs Hl.
  destruct (ramp_phase f c d Hr) as (k & f' & c' & Hk & E & Hcfg & _ & Hl' & _ & Hp & Hn).
  rewrite Hs, Hl in Hn. rewrite Hl in Hl'. cbn in Hn, Hl'.
  destruct (cfg_inj _ _ Hcfg) as (_ & _ & Hs' & _).
  exists k, f', c'. split_and!; try done; congruence.
Qed.

(** The on hold with the stop flag set: its timer fires and the ramp
    down ends the animation. *)
Lemma stopped_hold_on f c d :
  hold_at f c d -> _stopFlag f = true -> state_light (channelName f) (c_state c) = 1 ->
  halts_dark (channelName f) (1 + (2 * ramp_ticks (timeTransition f) + 2)) (f, c).
Proof.
  intros Hh Hs Hl. destruct (hold_fire f c d Hh) as (f' & c' & E & Hcfg & _ & Hr & Hst).
  destruct (cfg_inj _ _ Hcfg) as (Hch & HT & Hs' & _).
  apply (halts_dark_after _ _ _ _ _ _ E). rewrite <- Hch, <- HT.
  apply (stopped_ramp_down f' c' _ Hr); [congruence|]. by rewrite Hst, Hch.
Qed.

(** A ramp with the stop flag set, up or down, ends the animation. *)
Lemma stopped_ramp f c d :
  ramp_at f c d -> _stopFlag f = true -> state_light (channelName f) (c_state c) <= 1 ->
  halts_dark (channelName f) (stop_fuel (timeTransition f)) (f, c).
Proof.
  intros Hr Hs Hl.
  destruct (decide (state_light (channelName f) (c_state c) = 1)) as [H1|H0].
  - destruct (stopped_ramp_down f c d Hr Hs H1) as (k & f' & c' & Hk & H).
    exists k, f', c'. split; [unfold stop_fuel in *; lia|exact H].
  - assert (state_light (channelName f) (c_state c) = 0) as H0' by lia.
    destruct (ramp_phase f c d Hr) as (k & f' & c' & Hk & E & Hcfg & _ & Hl' & _ & _ & Hn).
    rewrite Hs, H0' in Hn. rewrite H0' in Hl'. cbn in Hn, Hl'. destruct Hn as [d' Hh].
    destruct (cfg_inj _ _ Hcfg) as (Hch & HT & Hs' & _).
    pose proof (stopped_hold_on f' c' d' Hh ltac:(congruence) ltac:(congruence)) as H.
    rewrite Hch, HT in H. unfold stop_fuel.
    replace (2 * (2 * ramp_ticks (timeTransition f) + 2) + 1)
      with (k + (2 * (2 * ramp_ticks (timeTransition f) + 2) + 1 - k)) by lia.
    eapply halts_dark_after; [exact E|].
    destruct H as (k' & f'' & c'' & Hk' & H). exists k', f'', c''. split; [lia|exact H].
Qed.

Lemma halts_dark_mono ch n m s : n <= m -> halts_dark ch n s -> halts_dark ch m s.
Proof. intros Hnm (k & f' & c' & Hk & H). exists k, f', c'. split; [lia|exact H]. Qed.

Lemma live_clear h (tm : timers Callback) :
  tm_live (clear_timer h tm) = match h with Some h => delete h (tm_live tm) | None => tm_live tm end.
Proof. by destruct h. Qed.

(** [stop] during a ramp: the ramp goes on, with the stop flag set. *)
Lemma stop_ramping f c h d q :
  alone f c -> _transitionInterval f = Some h -> _stateTimeout f <> Some h ->
  (_transitionStartTime f <= d)%N ->
  tm_live (c_timers c) = {[h := mkTimer d q (Some TRANSITION_INTERVAL) (CbSFPTransitionStep (channelName f))]} ->
  let '(f', c') := stop f c in
  ramp_at f' c' d /\ _stopFlag f' = true /\ channelName f' = channelName f /\
  timeTransition f' = timeTransition f /\ c_state c' = c_state c.
Proof.
  intros Ha Hiv Hsto Hst Hl. rewrite stop_eq.
  destruct (truthy _).
  - split_and!; try done. split; [exact Ha|]. split; [exact Hst|]. by exists h, q.
  - destruct Ha as (Hch & Hx & Hp). split_and!; try done. split; [done|]. split; [exact Hst|].
    exists h, q. split; [done|]. cbn [mkctx_with c_timers]. rewrite live_clear, Hl.
    destruct (_stateTimeout f) as [h2|]; [|done]. apply delete_singleton_ne. congruence.
Qed.

(** From any state of the invariant, alone in its context and with
    nothing in flight, [stop] followed by the driver halts dark within
    [stop_fuel] events. *)
Lemma stop_halts_dark f c :
  inv f c -> owned_only (channelName f) c -> c_exited c = false -> c_pipe c = [] ->
  (state_light (channelName f) (c_state c) = 0 \/ tm_live (c_timers c) <> ∅) ->
  halts_dark (channelName f) (stop_fuel (timeTransition f)) (stop f c).
Proof.
  intros Hi Ho Hx Hp Hact. pose proof (inv_light _ _ Hi) as Hl1. pose proof (inv_chan _ _ Hi) as Hch.
  destruct (phase_of_inv f c Hi Ho)
    as [(h & d & q & Hiv & Hd & Hst & Hl)|[(Hiv & h & d & q & Hsto & Hl)|(Hiv & Hl)]].
  - pose proof (stop_ramping f c h d q (conj Hch (conj Hx Hp)) Hiv Hd Hst Hl) as Hs.
    destruct (stop f c) as [f' c']. destruct Hs as (Hr & Hs & Hch' & HT & Hst').
    rewrite <- Hch', <- HT. apply (stopped_ramp f' c' d Hr Hs). by rewrite Hst', Hch'.
  - rewrite stop_eq. destruct (truthy _) eqn:T.
    + apply truthy_true in T.
      apply (halts_dark_mono _ (1 + (2 * ramp_ticks (timeTransition f) + 2))); [unfold stop_fuel; lia|].
      apply (stopped_hold_on (set_stopFlag f true) c d); [|done|cbn; lia].
      split_and!; try done. by exists h, q.
    + apply truthy_false in T. apply halts_dark_now; [|done|done].
      split; [|done]. cbn [mkctx_with c_timers]. by rewrite live_clear, Hsto, Hl, delete_singleton_eq.
  - destruct Hact as [H0|]; [|done]. rewrite stop_eq, H0. cbn [truthy negb Nat.eqb].
    apply halts_dark_now; [|done|done]. split; [|done]. cbn [mkctx_with c_timers].
    rewrite live_clear, Hl. destruct (_stateTimeout f); [apply delete_empty|done].
Qed.

(** ** The stop contract *)

(** C2: the spec's stop contract (sections 4.4 and 8) holds of the
    continuous animator.  From any state of its invariant, alone in its
    context with nothing in flight, and either dark or animating, a call
    of [stop] followed by [stop_fuel timeTransition] events of the prompt
    driver (two ramps of [timeTransition / 40 + 1] ticks, each with its
    completion, their final ticks and the on hold) leaves no live timer,
    nothing in flight, the light at logical 0, and the animator halted:
    no event can happen any more. *)
Theorem stop_contract f c :
  inv f c -> owned_only (channelName f) c -> c_exited c = false -> c_pipe c = [] ->
  (state_light (channelName f) (c_state c) = 0 \/ tm_live (c_timers c) <> ∅) ->
  let '(f', c') := drive (stop_fuel (timeTransition f)) (stop f c) in
  quiet c' /\ state_light (channelName f) (c_state c') = 0 /\ _stopFlag f' = true /\
  forall n, drive n (f', c') = (f', c').
Proof.
  intros Hi Ho Hx Hp Hact.
  destruct (stop_halts_dark f c Hi Ho Hx Hp Hact) as (k & f' & c' & Hk & E & Hq & Hl & Hs).
  rewrite (drive_settle _ _ _ _ _ Hk E Hq). split_and!; try done. intros n. by apply quiet_stuck.
Qed.

(** C35: stopped in its off hold (light at logical 0, no ramp running),
    the animator halts at once: [stop] itself cancels the hold timer and
    leaves no live timer of the animator. *)
Theorem stop_in_off_hold f c :
  inv f c -> owned_only (channelName f) c -> c_pipe c = [] ->
  state_light (channelName f) (c_state c) = 0 -> _transitionInterval f = None ->
  quiet (stop f c).2.
Proof.
  intros Hi Ho Hp H0 Hiv. rewrite stop_eq, H0. cbn [truthy negb Nat.eqb snd].
  split; [|done]. cbn [mkctx_with c_timers]. rewrite live_clear.
  destruct (phase_of_inv f c Hi Ho) as [(h & _ & _ & Hiv' & _)|[(_ & h & d & q & Hsto & Hl)|(_ & Hl)]].
  - congruence.
  - by rewrite Hsto, Hl, delete_singleton_eq.
  - rewrite Hl. destruct (_stateTimeout f); [apply delete_empty|done].
Qed.

(** ** The breathing cycle *)

(** A ramp just started by [runTransition]: after [2 * ramp_count]
    events the light has flipped at [ramp_span] ms, and the hold timer of
    the new state is the one live timer unless the animator stopped. *)
Lemma fresh_ramp f c :
  ramp_at f c (_transitionStartTime f + TRANSITION_INTERVAL) ->
  let l' := flipped (state_light (channelName f) (c_state c)) in
  exists f' c', drive (2 * N.to_nat (ramp_count (timeTransition f))) (f, c) = (f', c') /\ cfg f' = cfg f /\
    state_light (channelName f) (c_state c') = l' /\
    if rearms (_stopFlag f) l'
    then hold_at f' c' (_transitionStartTime f + ramp_span (timeTransition f) +
                        clamp_delay (if truthy l' then timeOn f else timeOff f))
    else quiet c'.
Proof.
  intros Hr l'. pose proof Hr as ([Hch _] & _). destruct (ramp_count_spec (timeTransition f)) as (H1 & HT & _).
  destruct (ramp_run_exact (N.to_nat (ramp_count (timeTransition f)) - 1) f c 1) as (c1 & E1 & Hr1 & Hs1);
    [by rewrite N.mul_1_r|lia|lia|].
  destruct (ramp_last f c1 _ Hr1) as (c2 & E2 & Hx2 & Hp2 & Hs2 & Hn2 & Hl2); [unfold ramp_span; lia|].
  pose proof (end_outcome f c2 Hch Hx2 Hp2 Hl2) as Ho.
  destruct (endTansition f false c2) as [f' c'] eqn:E3. rewrite Hs2, Hs1, Hn2 in Ho.
  exists f', c'. split.
  { replace (2 * N.to_nat (ramp_count (timeTransition f)))
      with (2 * (N.to_nat (ramp_count (timeTransition f)) - 1) + 2) by lia.
    rewrite drive_add, E1, E2. by rewrite ?E3. }
  destruct Ho as (Hcfg & _ & Hl & _ & Hp & Ho). split_and!; try done.
  unfold l'. destruct (rearms _ _); [done|by split].
Qed.

(** One cycle of a running animator from its off hold: hold timer, ramp
    up, on hold, ramp down, back in the off hold [cycle_period] later. *)
Lemma one_cycle f c d :
  hold_at f c d -> _stopFlag f = false -> state_light (channelName f) (c_state c) = 0 ->
  exists f' c', drive (cycle_events (timeTransition f)) (f, c) = (f', c') /\ cfg f' = cfg f /\
    hold_at f' c' (d + cycle_period f) /\ state_light (channelName f) (c_state c') = 0.
Proof.
  intros Hh Hs Hl.
  destruct (hold_fire f c d Hh) as (f1 & c1 & E1 & Hcfg1 & Hst1 & Hr1 & Hs1).
  destruct (cfg_inj _ _ Hcfg1) as (Hch1 & HT1 & Hsf1 & Hon1 & Hoff1).
  rewrite <- Hst1 in Hr1. pose proof (fresh_ramp f1 c1 Hr1) as Hf1. cbv zeta in Hf1.
  rewrite Hs1, Hch1, Hl, Hsf1, Hs in Hf1. cbn [flipped truthy rearms negb orb Nat.eqb] in Hf1.
  destruct Hf1 as (f2 & c2 & E2 & Hcfg2 & Hl2 & Hh2).
  destruct (hold_fire f2 c2 _ Hh2) as (f3 & c3 & E3 & Hcfg3 & Hst3 & Hr3 & Hs3).
  destruct (cfg_inj _ _ Hcfg2) as (Hch2 & HT2 & Hsf2 & Hon2 & Hoff2).
  destruct (cfg_inj _ _ Hcfg3) as (Hch3 & HT3 & Hsf3 & Hon3 & Hoff3).
  rewrite <- Hst3 in Hr3. pose proof (fresh_ramp f3 c3 Hr3) as Hf3. cbv zeta in Hf3.
  rewrite Hs3, Hch3, Hch2, Hch1, Hl2, Hsf3, Hsf2, Hsf1, Hs in Hf3. cbn [flipped truthy rearms negb orb Nat.eqb] in Hf3.
  destruct Hf3 as (f4 & c4 & E4 & Hcfg4 & Hl4 & Hh4).
  exists f4, c4. split_and!.
  - unfold cycle_events. rewrite <- HT1.
    replace (2 * (2 * N.to_nat (ramp_count (timeTransition f1)) + 1))
      with (1 + 2 * N.to_nat (ramp_count (timeTransition f1)) + 1 + 2 * N.to_nat (ramp_count (timeTransition f1))) by lia.
    rewrite !drive_add, E1, E2, E3, <- HT2, <- HT3. exact E4.
  - by rewrite Hcfg4, Hcfg3, Hcfg2, Hcfg1.
  - rewrite ?Hst3, ?Hst1, ?HT3, ?HT2, ?HT1, ?Hon1, ?Hoff3, ?Hoff2, ?Hoff1 in Hh4. unfold cycle_period.
    by replace (d + (clamp_delay (timeOn f) + clamp_delay (timeOff f) + 2 * ramp_span (timeTransition f)))%N
      with (d + ramp_span (timeTransition f) + clamp_delay (timeOn f) + ramp_span (timeTransition f) + clamp_delay (timeOff f))%N
      by lia.
  - exact Hl4.
Qed.

(** After one cycle the dog is in its off hold, its hold timer due at
    35000 ms; two more cycles bring it there again at 105000 ms. *)
Lemma cycle_period_cfg f g : cfg f = cfg g -> cycle_period f = cycle_period g.
Proof. intros H. destruct (cfg_inj _ _ H) as (_ & HT & _ & Hon & Hoff). unfold cycle_period. congruence. Qed.

(** C3: the spec's breathing cycle (sections 4.4 and 8): a running
    animator in its off hold, under the prompt driver, is back in its off
    hold, dark, every [cycle_events] events, the hold timer due
    [cycle_period] ms later each time: the on hold, the off hold and two
    ramps of [ramp_span] ms, indefinitely until [stop]. *)
Theorem cycle_repeats m f c d :
  hold_at f c d -> _stopFlag f = false -> state_light (channelName f) (c_state c) = 0 ->
  exists f' c', drive (m * cycle_events (timeTransition f)) (f, c) = (f', c') /\
    hold_at f' c' (d + N.of_nat m * cycle_period f) /\
    state_light (channelName f) (c_state c') = 0 /\ cfg f' = cfg f.
Proof.
  revert f c d. induction m as [|m IH]; intros f c d Hh Hs Hl.
  - exists f, c. split_and!; [done| |done|done]. by rewrite N.mul_0_l, N.add_0_r.
  - destruct (one_cycle f c d Hh Hs Hl) as (f1 & c1 & E1 & Hcfg1 & Hh1 & Hl1).
    destruct (cfg_inj _ _ Hcfg1) as (Hch & HT & Hsf & _).
    destruct (IH f1 c1 _ Hh1) as (f' & c' & E & Hh' & Hl' & Hcfg'); [congruence|by rewrite Hch|].
    rewrite HT in E. rewrite (cycle_period_cfg _ _ Hcfg1) in Hh'. rewrite Hch in Hl'.
    exists f', c'. split_and!; [|by replace (d + N.of_nat (S m) * cycle_period f)%N
                                 with (d + cycle_period f + N.of_nat m * cycle_period f)%N by lia|done|congruence].
    replace (S m * cycle_events (timeTransition f)) with (cycle_events (timeTransition f) + m * cycle_events (timeTransition f)) by lia.
    by rewrite drive_add, E1.
Qed.

(** ** Witnesses *)

(** The dog animator just started in the initial context. *)
Definition started_dog : t * Ctx := start dogFlasher Ctx0.

Lemma inv_started_dog : inv started_dog.1 started_dog.2.
Proof.
  apply inv_start; [|done]. apply inv_init; [by left| |..|done|cbn; lia];
    intros h x; cbn; by rewrite lookup_empty.
Qed.

(** Stopped 120 ms into its first ramp up, the dog halts dark. *)
Lemma stop_contract_witness :
  let s := drive 6 started_dog in
  let '(f', c') := drive (stop_fuel (timeTransition s.1)) (stop s.1 s.2) in
  quiet c' /\ state_light (channelName s.1) (c_state c') = 0 /\ _stopFlag f' = true /\
  forall n, drive n (f', c') = (f', c').
Proof.
  intros s. apply (stop_contract s.1 s.2).
  - apply drive_inv, inv_started_dog.
  - unfold owned_only. eapply bool_decide_unpack. vm_compute. exact I.
  - vm_compute. reflexivity.
  - vm_compute. reflexivity.
  - left. vm_compute. reflexivity.
Defined.

(** After a full cycle (201 events) the dog is in its off hold; a stop
    there leaves no timer. *)
Lemma stop_in_off_hold_witness : quiet (stop (drive 201 started_dog).1 (drive 201 started_dog).2).2.
Proof.
  apply stop_in_off_hold.
  - apply drive_inv, inv_started_dog.
  - unfold owned_only. eapply bool_decide_unpack. vm_compute. exact I.
  - vm_compute. reflexivity.
  - vm_compute. reflexivity.
  - vm_compute. reflexivity.
Defined.

Lemma cycle_repeats_witness :
  let s := drive 201 started_dog in
  exists f' c', drive (2 * cycle_events (timeTransition s.1)) (s.1, s.2) = (f', c') /\
    hold_at f' c' (35000 + N.of_nat 2 * cycle_period s.1) /\
    state_light (channelName s.1) (c_state c') = 0 /\ cfg f' = cfg s.1.
Proof.
  intros s. apply cycle_repeats.
  - split; [split_and!; vm_compute; first [by left|reflexivity]|].
    split; [vm_compute; reflexivity|]. exists 104, 104. vm_compute. reflexivity.
  - vm_compute. reflexivity.
  - vm_compute. reflexivity.
Defined.

(** The dog's first ramp reaches its final tick at 2000 ms (98 events);
    three failing completions later it is still ramping, at 2120 ms. *)
Lemma final_command_retried_witness :
  let s := drive 98 started_dog in
  exists c', solo_run (concat (repeat [ev_timer; ev_pipe 0 pipe_write_error] 3)) (s.1, s.2) = Some (s.1, c') /\
    ramp_at s.1 c' (2000 + TRANSITION_INTERVAL * N.of_nat 3) /\ c_state c' = c_state s.2 /\
    c_out c' = c_out s.2 ++ repeat (OPwm (mkPwmCmd (pin (Ports (channelName s.1))) 0)) 3.
Proof.
  intros s. apply final_command_retried.
  - split; [split_and!; vm_compute; first [by left|reflexivity]|].
    split; [vm_compute; discriminate|]. exists 0, 49. vm_compute. split; reflexivity.
  - vm_compute. discriminate.
Defined.

End PigpioStop.
