(* ===== verification/AnimatorSpec.v ===== *)
(** * The animator's abstract specification, and its refinement

    Spec section 4.4 describes a channel animator as a machine over five
    phases (off hold, ramp up, on hold, ramp down, halted) and a stop
    request: each phase leads to the next, a stop request halts the
    animator in its off hold at once and otherwise lets it finish the
    ramp down first, and [start] begins a ramp up from anywhere.  [astep]
    is that machine.

    [abs] reads the phase of a [SlowFlasherPigpio] (src/halloween.js
    lines 302-370) off its fields, its light state and its timers.
    [refines] shows that every event of the animator's normal regime
    (a timer, a completion, [start], [stop]) either leaves the abstract
    state as it was or takes one [astep]; [normal_run_refines] lifts this
    to every run from a fresh animator: the abstract states of the run
    ([normal_trace]) form a path ([apath]) of the machine.  The invariant carried is [inv] of
    [SlowFlasherPigpio], [owned_only] (the animator alone in its
    context) and [stop_dark]: a stopped animator that is dark and not
    ramping has no live hold timer. *)

From stdpp Require Import gmap.
From Stdlib Require Import NArith.
From S2P Require Import Prelude Timers Ports Runtime Animator SlowFlasherPigpio StopContract.

Module AnimatorSpec.
Import SlowFlasherPigpio PigpioStop.

(** ** The abstract machine *)

Inductive phase := OffHold | RampUp | OnHold | RampDown | Halted.

#[export] Instance phase_eq_dec : EqDecision phase.
Proof. solve_decision. Defined.

Record astate := AState { a_phase : phase; a_stopping : bool }.

(** The spec's cycle and stop contract. *)
Inductive astep : astate -> astate -> Prop :=
  | as_up_done b : astep (AState RampUp b) (AState OnHold b)
  | as_on_done b : astep (AState OnHold b) (AState RampDown b)
  | as_down_hold : astep (AState RampDown false) (AState OffHold false)
  | as_down_halt : astep (AState RampDown true) (AState Halted true)
  | as_off_done : astep (AState OffHold false) (AState RampUp false)
  | as_start s : astep s (AState RampUp false)
  | as_stop p b : astep (AState p b) (AState (if decide (p = OffHold) then Halted else p) true).

(** ** The abstraction *)

(** The phase of the animator: ramping while its interval is recorded,
    holding while its recorded hold timer is live, halted otherwise; up
    or down, on or off, by its light state. *)
Definition abs (f : t) (c : Ctx) : astate :=
  let lit := truthy (state_light (channelName f) (c_state c)) in
  AState (if is_set (_transitionInterval f) then (if lit then RampDown else RampUp)
          else if is_live (_stateTimeout f) (c_timers c) then (if lit then OnHold else OffHold)
          else Halted)
         (_stopFlag f).

(** A stopped animator that is dark and not ramping has no hold timer. *)
Definition stop_dark (f : t) (c : Ctx) : Prop :=
  _stopFlag f = true -> state_light (channelName f) (c_state c) = 0 ->
  _transitionInterval f = None -> is_live (_stateTimeout f) (c_timers c) = false.

(** The invariant of the refinement. *)
Definition rinv (s : t * Ctx) : Prop :=
  inv s.1 s.2 /\ owned_only (channelName s.1) s.2 /\ stop_dark s.1 s.2.

(** ** The animator arms only its own timers *)

Definition own (ch : PortName) (cb : Callback) : Prop := owns ch cb = true.

Ltac own_tac := first [apply owns_step | apply owns_run].

Lemma start_own f : channelName f ∈ anim_lights -> adds_only (own (channelName f)) (start f).
Proof.
  intros Hch c h x. cbn [exec]. rewrite start_eq by done. cbn [snd mkctx_with c_timers set_timer tm_live].
  destruct (decide (h = tm_next (clear_timer (_transitionInterval f) (clear_timer (_stateTimeout f) (c_timers c)))))
    as [->|Hne].
  - rewrite lookup_insert_eq. intros [= <-]. right. apply owns_step.
  - rewrite lookup_insert_ne by done. rewrite !clear_timer_lookup. repeat case_decide; try done. by left.
Qed.

Lemma stop_own f : adds_only (own (channelName f)) (stop f).
Proof. unfold stop. adds_chain own_tac. Qed.

Lemma on_timer_own f cb : adds_only (own (channelName f)) (on_timer f cb).
Proof. unfold on_timer, transitionStep, runTransition. destruct cb; adds_chain own_tac. Qed.

Lemma endTansition_own f err : adds_only (own (channelName f)) (endTansition f err).
Proof. unfold endTansition. adds_chain own_tac. Qed.

Lemma on_pwm_own f cb : adds_only (own (channelName f)) (on_pwm f cb).
Proof.
  destruct cb as [[[ch'] err]|]; cbn [on_pwm]; [case_decide|]; try apply adds_only_ret.
  apply endTansition_own.
Qed.

Lemma owned_exec {A} ch (m : M A) c : owned_only ch c -> adds_only (own ch) m -> owned_only ch (exec m c).
Proof. intros Ho Hm h x Hx. destruct (Hm c h x Hx) as [H|H]; [exact (Ho h x H)|exact H]. Qed.

Lemma owned_fire ch c h cb tm' :
  owned_only ch c -> fire_timer (c_timers c) = Some (h, cb, tm') ->
  owns ch cb = true /\ owned_only ch (upd_timers (fun _ => tm') c).
Proof.
  intros Ho (x & Hx & -> & _ & ->)%fire_timer_spec. split; [exact (Ho h x Hx)|].
  intros h' x'. cbn [upd_timers c_timers tm_live]. destruct (t_period x).
  - destruct (decide (h' = h)) as [->|Hne]; [rewrite lookup_insert_eq; intros [= <-]; exact (Ho h x Hx)|].
    rewrite lookup_insert_ne by done. apply Ho.
  - destruct (decide (h' = h)) as [->|Hne]; [by rewrite lookup_delete_eq|].
    rewrite lookup_delete_ne by done. apply Ho.
Qed.

(** Every event keeps the animator alone in its context, on its channel. *)
Lemma owned_step f c e f' c' :
  channelName f ∈ anim_lights -> owned_only (channelName f) c -> solo_step e (f, c) = Some (f', c') ->
  channelName f' = channelName f /\ owned_only (channelName f') c'.
Proof.
  intros Hch Ho. unfold solo_step. destruct (c_exited c); [done|]. destruct e as [| i r | |].
  - destruct (fire_timer (c_timers c)) as [[[h cb] tm']|] eqn:Hf; [|done]. intros [= E].
    destruct (owned_fire _ _ _ _ _ Ho Hf) as [_ Ho1].
    pose proof (on_timer_channel f cb (upd_timers (fun _ => tm') c)) as Hc. rewrite E in Hc. cbn [fst] in Hc.
    split; [done|]. rewrite Hc. change c' with (snd (f', c')). rewrite <- E. by apply owned_exec, on_timer_own.
  - destruct (pipe_complete i r c) as [[cb c1]|] eqn:Hp; [|done]. intros [= E].
    apply pipe_complete_ctx in Hp as (Ht & _).
    pose proof (on_pwm_channel f cb c1 Hch) as Hc. rewrite E in Hc. cbn [fst] in Hc.
    split; [done|]. rewrite Hc. change c' with (snd (f', c')). rewrite <- E.
    apply owned_exec, on_pwm_own. intros h x. rewrite Ht. apply Ho.
  - intros [= E]. pose proof (start_channel f c) as Hc. rewrite E in Hc. cbn [fst] in Hc.
    split; [done|]. rewrite Hc. change c' with (snd (f', c')). rewrite <- E. by apply owned_exec, start_own.
  - intros [= E]. pose proof (anim_stop_channel f c) as Hc. cbn [anim_channel SlowFlasherPigpio_animator anim_stop eval] in Hc.
    rewrite E in Hc. cbn [fst] in Hc. split; [done|]. rewrite Hc. change c' with (snd (f', c')). rewrite <- E.
    by apply owned_exec, stop_own.
Qed.

(** ** The refinement, event by event *)

Lemma abs_ramp f c h :
  _transitionInterval f = Some h ->
  abs f c = AState (if truthy (state_light (channelName f) (c_state c)) then RampDown else RampUp) (_stopFlag f).
Proof. unfold abs. by intros ->. Qed.

Lemma abs_unset f c :
  _transitionInterval f = None ->
  abs f c = AState (if is_live (_stateTimeout f) (c_timers c)
                    then (if truthy (state_light (channelName f) (c_state c)) then OnHold else OffHold)
                    else Halted) (_stopFlag f).
Proof. unfold abs. by intros ->. Qed.

Lemma is_live_single h x (tm : timers Callback) : tm_live tm = {[h := x]} -> is_live (Some h) tm = true.
Proof. intros Hl. apply is_live_true. rewrite Hl, lookup_singleton_eq. by eexists. Qed.

Lemma is_live_empty o (tm : timers Callback) : tm_live tm = ∅ -> is_live o tm = false.
Proof. intros Hl. destruct o as [h|]; [|done]. cbn. rewrite Hl, lookup_empty. by apply bool_decide_eq_false. Qed.

Lemma transitionStep_state f c :
  channelName f ∈ anim_lights -> c_state (transitionStep f c).2 = c_state c.
Proof. intros Hch. exact (f_equal c_state (transitionStep_eq f c Hch)). Qed.

(** Case on the light state, which the invariant bounds by 1. *)
Ltac light_cases f c Hi :=
  let L := fresh "L" in
  pose proof (inv_light _ _ Hi);
  destruct (state_light (channelName f) (c_state c)) as [|[|]] eqn:L; [| |lia].

(** A timer: a tick of the ramp changes nothing abstract; the hold timer
    ends the hold. *)
Lemma refine_timer f c f' c' :
  rinv (f, c) -> solo_step ev_timer (f, c) = Some (f', c') ->
  stop_dark f' c' /\ (abs f' c' = abs f c \/ astep (abs f c) (abs f' c')).
Proof.
  intros (Hi & Ho & Hd) E. cbn [fst snd] in *. pose proof (inv_chan _ _ Hi) as Hch.
  destruct (c_exited c) eqn:Hx; [unfold solo_step in E; rewrite Hx in E; discriminate|].
  destruct (phase_of_inv f c Hi Ho) as [(h & d & q & Hiv & _ & _ & Hl)|[(Hiv & h & d & q & Hsto & Hl)|(Hiv & Hl)]].
  - rewrite (solo_timer_single f c h _ Hx Hl) in E. cbn [t_cb t_due t_period] in E.
    unfold on_timer in E. rewrite decide_True in E by done. rewrite bind_const in E. injection E as <- <-.
    split; [intros _ _ Hn; congruence|]. left. rewrite !(abs_ramp _ _ h Hiv).
    by rewrite (transitionStep_state f _ Hch).
  - rewrite (solo_timer_single f c h _ Hx Hl) in E. cbn [t_cb t_due t_period] in E.
    unfold on_timer in E. rewrite decide_True in E by done. rewrite runTransition_eq in E. injection E as <- <-.
    split; [intros _ _ Hn; discriminate|]. right.
    rewrite (abs_unset _ _ Hiv), Hsto, (is_live_single _ _ _ Hl). erewrite abs_ramp by reflexivity.
    cbn [channelName _stopFlag mkctx_with c_state upd_timers]. light_cases f c Hi; cbn.
    + destruct (_stopFlag f) eqn:S; [|apply as_off_done].
      exfalso. specialize (Hd S L Hiv). by rewrite Hsto, (is_live_single _ _ _ Hl) in Hd.
    + apply as_on_done.
  - unfold solo_step in E. rewrite Hx in E. unfold fire_timer, next_timer in E.
    by rewrite Hl, map_to_list_empty in E.
Qed.

Lemma abs_ext f c c1 :
  c_timers c1 = c_timers c -> c_state c1 = c_state c -> abs f c1 = abs f c /\ (stop_dark f c -> stop_dark f c1).
Proof. intros Ht Hs. unfold abs, stop_dark. rewrite Ht, Hs. by split. Qed.

Lemma end_pending_pos ch c i cmd :
  c_pipe c !! i = Some (cmd, Some (PcEndTransition ch)) -> end_pending ch c <> 0.
Proof.
  intros Hi%list_elem_of_lookup_2. unfold end_pending.
  assert ((cmd, Some (PcEndTransition ch)) ∈ filter (is_end ch) (c_pipe c)) as Hf
    by (apply list_elem_of_filter; split; [done|exact Hi]).
  destruct (filter (is_end ch) (c_pipe c)); [by apply elem_of_nil in Hf|done].
Qed.

(** The completion of the final command ends the ramp: up into the on
    hold, down into the off hold, or, when stopped, into the halt. *)
Lemma refine_end f c h d q :
  channelName f ∈ anim_lights -> state_light (channelName f) (c_state c) <= 1 ->
  _transitionInterval f = Some h -> _stateTimeout f <> Some h ->
  tm_live (c_timers c) = {[h := mkTimer d q (Some TRANSITION_INTERVAL) (CbSFPTransitionStep (channelName f))]} ->
  let '(f', c') := endTansition f false c in
  stop_dark f' c' /\ astep (abs f c) (abs f' c').
Proof.
  intros Hch Hle Hiv Hsto Hl.
  rewrite endTansition_eq by done. cbv zeta.
  set (l := state_light (channelName f) (c_state c)).
  assert (Htm : tm_live (clear_timer (_transitionInterval f) (c_timers c)) = ∅)
    by (rewrite live_clear, Hiv, Hl; apply delete_singleton_eq).
  set (tm1 := clear_timer (_transitionInterval f) (c_timers c)) in *.
  set (c1 := fun tm => mkctx_with c tm (set_state_light (channelName f) (flipped l) (c_state c))
                         (c_out c ++ [OGpio (channelName f) (flipped l)]) (c_pipe c)).
  assert (Hl1 : forall tm, state_light (channelName f) (c_state (c1 tm)) = flipped l)
    by (intros; apply state_light_set, anim_light_in, Hch).
  rewrite (abs_ramp _ _ _ Hiv). fold l. fold l in Hle.
  destruct (rearms (_stopFlag f) (flipped l)) eqn:R.
  - set (tm2 := snd (set_timer (if truthy (flipped l) then timeOn f else timeOff f) false (CbSFPRunTransition (channelName f)) tm1)).
    destruct (runStateCallback_frame (stateCallback f) (c1 tm2) _ Hch) as (Ht & _ & Hs & _).
    assert (Hlive : is_live (Some (tm_next tm1)) (c_timers (exec (runStateCallback (stateCallback f)) (c1 tm2))) = true).
    { rewrite Ht. apply is_live_true. cbn. rewrite lookup_insert_eq. by eexists. }
    rewrite abs_unset by done. cbn [_stateTimeout set_stateTimeout set_interval channelName _stopFlag].
    unfold c1 in Hlive, Hs, Hl1. rewrite Hlive, Hs, Hl1. split.
    + intros S L _. cbn [channelName set_stateTimeout set_interval _stopFlag] in S, L.
      rewrite Hs, Hl1 in L. by rewrite S, L in R.
    + destruct l as [|[|]]; [| |lia]; cbn; [apply as_up_done|].
      destruct (_stopFlag f); [done|apply as_down_hold].
  - destruct (runStateCallback_frame (stateCallback f) (c1 tm1) _ Hch) as (Ht & _ & Hs & _).
    rewrite abs_unset by done. cbn [_stateTimeout set_interval channelName _stopFlag].
    unfold c1 in Ht. rewrite Ht, (is_live_empty _ _ Htm).
    split; [hnf; intros _ _ _; rewrite Ht; by apply is_live_empty|].
    clearbody l. destruct l as [|[|]]; [| |lia]; destruct (_stopFlag f); cbn in R |- *; try done.
    apply as_down_halt.
Qed.

(** A completion: only the one of the final command of a ramp, when it
    succeeds, changes the abstract state. *)
Lemma refine_pipe f c i r f' c' :
  rinv (f, c) -> solo_step (ev_pipe i r) (f, c) = Some (f', c') ->
  stop_dark f' c' /\ (abs f' c' = abs f c \/ astep (abs f c) (abs f' c')).
Proof.
  intros (Hi & Ho & Hd) E. cbn [fst snd] in *. pose proof (inv_chan _ _ Hi) as Hch.
  unfold solo_step in E. destruct (c_exited c); [discriminate|].
  destruct (pipe_complete i r c) as [[o c1]|] eqn:Hp; [|discriminate]. injection E as E.
  destruct (pipe_complete_ctx _ _ _ _ _ Hp) as (Ht & Hs & _ & _ & Hcb).
  destruct (abs_ext f c c1 Ht Hs) as [Ha Hd1].
  destruct o as [[[ch'] err]|]; cbn [on_pwm] in E; [case_decide as Hc|];
    try (injection E as <- <-; split; [by apply Hd1|by left]).
  subst ch'. destruct err; [injection E as <- <-; split; [by apply Hd1|by left]|].
  destruct (Hcb _ _ eq_refl) as (cmd & Hcmd & _).
  pose proof (end_pending_pos _ _ _ _ Hcmd) as Hpos. destruct (inv_pipe _ _ Hi) as [Hp1 Hp2].
  destruct (Hp2 ltac:(lia)) as [h Hiv].
  destruct (phase_of_inv f c Hi Ho) as [(h' & d & q & Hiv' & Hsto & _ & Hl)|[(Hiv' & _)|(Hiv' & _)]];
    [|congruence|congruence].
  rewrite <- Ht in Hl. pose proof (inv_light _ _ Hi) as Hle. rewrite <- Hs in Hle.
  pose proof (refine_end f c1 h' d q Hch Hle Hiv' Hsto Hl) as R. rewrite E in R.
  destruct R as [Hd' Hstep]. split; [done|right]. by rewrite <- Ha.
Qed.

(** [start] begins a ramp up, not stopped. *)
Lemma refine_start f c f' c' :
  rinv (f, c) -> solo_step ev_start (f, c) = Some (f', c') ->
  stop_dark f' c' /\ astep (abs f c) (abs f' c').
Proof.
  intros (Hi & _ & _) E. pose proof (inv_chan _ _ Hi) as Hch. cbn [fst snd] in *.
  unfold solo_step in E. destruct (c_exited c); [discriminate|]. injection E as E.
  rewrite start_eq in E by done. injection E as <- <-. split; [by intros S|].
  unfold abs at 2. cbn [channelName _stopFlag _transitionInterval is_set mkctx_with c_state].
  rewrite state_light_set by (apply anim_light_in, Hch). apply as_start.
Qed.

Ltac as_stop_tac := match goal with |- astep (AState ?p ?b) _ => apply (as_stop p b) end.

(** [stop] sets the stop request, and halts the animator in its off hold. *)
Lemma refine_stop f c f' c' :
  rinv (f, c) -> solo_step ev_stop (f, c) = Some (f', c') ->
  stop_dark f' c' /\ astep (abs f c) (abs f' c').
Proof.
  intros (Hi & _ & _) E. cbn [fst snd] in *.
  unfold solo_step in E. destruct (c_exited c); [discriminate|]. injection E as E.
  rewrite stop_eq in E. destruct (truthy _) eqn:T; injection E as <- <-.
  - split; [intros _ L; cbn [channelName set_stopFlag] in L; rewrite L in T; discriminate|].
    unfold abs. cbn [channelName _stopFlag _transitionInterval _stateTimeout set_stopFlag]. rewrite T.
    destruct (is_set (_transitionInterval f)), (is_live (_stateTimeout f) (c_timers c)); as_stop_tac.
  - split; [intros _ _ _; done|].
    unfold abs. cbn [channelName _stopFlag _transitionInterval _stateTimeout set_stopFlag set_stateTimeout mkctx_with c_state c_timers].
    rewrite T. cbn [is_live]. destruct (is_set (_transitionInterval f)); [as_stop_tac|].
    destruct (is_live (_stateTimeout f) (c_timers c)); as_stop_tac.
Qed.

(** ** The refinement *)

(** C4: the continuous animator refines the spec's animator machine
    (section 4.4).  From any state of the invariant [rinv], every event
    of the normal regime (a timer, a completion, [start], [stop]) keeps
    the invariant and either leaves the abstract phase and stop request
    as they were or takes one step of [astep]: ramp up, on hold, ramp
    down, off hold and again; a stop request halts the animator in its
    off hold at once and otherwise only after its ramp down. *)
Theorem refines s s' :
  rinv s -> step s s' ->
  rinv s' /\ (abs s'.1 s'.2 = abs s.1 s.2 \/ astep (abs s.1 s.2) (abs s'.1 s'.2)).
Proof.
  intros Hr Hst. destruct s as [f c], s' as [f' c']. pose proof Hr as (Hi & Ho & _).
  pose proof (inv_step _ _ Hi Hst) as Hi'.
  assert (exists e, solo_step e (f, c) = Some (f', c')) as [e Ee] by (inversion Hst; subst; eauto).
  destruct (owned_step f c e f' c' (inv_chan _ _ Hi) Ho Ee) as [_ Ho'].
  assert (stop_dark f' c' /\ (abs f' c' = abs f c \/ astep (abs f c) (abs f' c'))) as [Hd' Ha].
  { destruct e as [| i r | |].
    - by apply refine_timer.
    - by eapply refine_pipe.
    - destruct (refine_start f c f' c' Hr Ee). auto.
    - destruct (refine_stop f c f' c' Hr Ee). auto. }
  done.
Qed.

Lemma rinv_init ch on off tr cb : ch ∈ anim_lights -> rinv (create ch on off tr cb, Ctx0).
Proof.
  intros Hch. split_and!.
  - apply inv_init; [done| |..|done|cbn; chan_cases Hch; cbn; lia]; intros h x; cbn; by rewrite lookup_empty.
  - intros h x. cbn. by rewrite lookup_empty.
  - by intros _ _ _.
Qed.

(** The abstract states a run of the normal regime passes through, one
    per event it takes. *)
Fixpoint normal_trace (es : list event) (s : t * Ctx) : list astate :=
  match es with
  | [] => []
  | e :: es =>
      match normal_step e s with
      | Some s' => abs s'.1 s'.2 :: normal_trace es s'
      | None => []
      end
  end.

(** A path of the spec's machine that may stutter: each state is the
    previous one or one [astep] after it. *)
Fixpoint apath (a : astate) (l : list astate) : Prop :=
  match l with
  | [] => True
  | b :: l => (b = a \/ astep a b) /\ apath b l
  end.

Lemma last_cons_default {A} (a : A) l d d' : List.last (a :: l) d = List.last (a :: l) d'.
Proof. revert a. induction l as [|b l IH]; intros a; [done|]. apply IH. Qed.

Lemma normal_run_path es s s' :
  rinv s -> normal_run es s = Some s' ->
  rinv s' /\ apath (abs s.1 s.2) (normal_trace es s) /\
  List.last (normal_trace es s) (abs s.1 s.2) = abs s'.1 s'.2 /\ length (normal_trace es s) = length es.
Proof.
  revert s. induction es as [|e es IH]; intros s Hr; cbn [normal_run normal_trace]; [intros [= <-]; by split|].
  destruct (normal_step e s) as [s1|] eqn:E; [|done]. intros Hrun.
  destruct (refines s s1 Hr (normal_step_step e s s1 E)) as [Hr1 Ha].
  destruct (IH s1 Hr1 Hrun) as (Hr' & Hp & Hl & Hn).
  split_and!; [done | by split | | by cbn; rewrite Hn].
  destruct (normal_trace es s1); [done|]. rewrite <- Hl. cbn [List.last]. apply last_cons_default.
Qed.

(** C5: every run of the normal regime from a fresh animator is a run of
    the spec's machine: the abstract states it passes through, one per
    event, form a path of [astep] (with stuttering) from the halted,
    stop-requested state, and the last of them is the abstract state of
    the animator at the end of the run. *)
Theorem normal_run_refines ch on off tr cb es f c :
  ch ∈ anim_lights -> normal_run es (create ch on off tr cb, Ctx0) = Some (f, c) ->
  apath (AState Halted true) (normal_trace es (create ch on off tr cb, Ctx0)) /\
  List.last (normal_trace es (create ch on off tr cb, Ctx0)) (AState Halted true) = abs f c /\
  length (normal_trace es (create ch on off tr cb, Ctx0)) = length es.
Proof.
  intros Hch Hrun. exact (proj2 (normal_run_path es _ (f, c) (rinv_init ch on off tr cb Hch) Hrun)).
Qed.

(** ** Witnesses *)

Lemma refines_witness :
  match solo_step ev_timer started_dog with
  | Some s' => rinv s' /\ (abs s'.1 s'.2 = abs started_dog.1 started_dog.2 \/
                           astep (abs started_dog.1 started_dog.2) (abs s'.1 s'.2))
  | None => False
  end.
Proof.
  destruct (solo_step ev_timer started_dog) as [s'|] eqn:E; [|vm_compute in E; discriminate].
  apply refines.
  - split_and!; [apply inv_started_dog|unfold owned_only; eapply bool_decide_unpack; vm_compute; exact I|].
    intros S. vm_compute in S. discriminate.
  - change started_dog with (started_dog.1, started_dog.2) in E |- *. apply step_timer; [|exact E].
    vm_compute. reflexivity.
Defined.

Lemma normal_run_refines_witness :
  match normal_run ([ev_start] ++ prompt_ticks 3 ++ [ev_stop]) (dogFlasher, Ctx0) with
  | Some (f, c) => apath (AState Halted true) (normal_trace ([ev_start] ++ prompt_ticks 3 ++ [ev_stop])
                                                         (dogFlasher, Ctx0))
  | None => False
  end.
Proof.
  destruct (normal_run _ _) as [[f c]|] eqn:E; [|vm_compute in E; discriminate].
  exact (proj1 (normal_run_refines lightDog _ _ _ _ _ f c lightDog_anim E)).
Defined.

End AnimatorSpec.
