(* ===== verification/SlowFlasher.v ===== *)
(** * SlowFlasher: the stepped breathing animator

    [src/halloween.js] lines 215-299.  The stepped animator drives its
    light by software PWM over plain GPIO writes: a ramp is an interval of
    [PWM_PRECISION] (10) ms; at each tick the light is switched to the
    opposite of its logical state and a one-shot timer of
    [transitionTable[count]] ms switches it back, so the light spends a
    growing share of each 10 ms cycle in the new state.  After the last
    entry the logical state flips, the interval is cleared and the hold
    timer ([timeOn] or [timeOff]) is armed unless the animator was stopped
    and the light is now off.  [createTransitionTable] computes the table:
    in closed form ([createTransitionTable], a map over the loop's range)
    and as the code's [for] loop with fuel ([createTransitionTable_for]),
    the two proved to agree.

    The program builds its three animators of this kind inside a comment
    (lines 510-526): it runs [SlowFlasherPigpio] instead.  The model is
    nevertheless a second instance of the [Animator] interface, as the
    code was written to be swapped in. *)

From stdpp Require Import gmap.
From Stdlib Require Import NArith QArith Qround ZArith.
From S2P Require Import Prelude Timers Ports Runtime Animator SlowFlasherPigpio.

Module TransitionTable.

(** [Math.round(x)]: the nearest integer, halves rounded up. *)
Definition js_round (x : Q) : Z := Qfloor (x + (1 # 2)).

(** [var steps = duration / PWM_PRECISION]. *)
Definition steps (duration : N) : Q :=
  inject_Z (Z.of_N duration) / inject_Z (Z.of_N PWM_PRECISION).

(** The values [n = 0, 1, ...] with [n < steps]: as many as the ceiling
    of [steps]. *)
Definition loop_count (s : Q) : nat := Z.to_nat (Qceiling s).

(** [Math.round((n / steps * 0.8 + 0.1) * PWM_PRECISION)]. *)
Definition entry (s : Q) (n : nat) : Z :=
  js_round ((inject_Z (Z.of_nat n) / s * (8 # 10) + (1 # 10)) * inject_Z (Z.of_N PWM_PRECISION)).

(** [createTransitionTable(duration)]. *)
Definition createTransitionTable (duration : N) : list Z :=
  let s := steps duration in entry s <$> seq 0 (loop_count s).

(** The [for] loop of [createTransitionTable] as the code runs it: each
    pass tests [n < steps] on the rational [steps] and pushes the entry
    of [n].  The loop runs for at most [fuel] tests and gives [None]
    when the fuel runs out before the test fails. *)
Fixpoint table_for (fuel : nat) (s : Q) (n : nat) (table : list Z) : option (list Z) :=
  match fuel with
  | O => None
  | S fuel' =>
      if Qlt_le_dec (inject_Z (Z.of_nat n)) s
      then table_for fuel' s (S n) (table ++ [entry s n])
      else Some table
  end.

(** [var table = []; for (var n = 0; n < steps; ++n) ...; return table]. *)
Definition createTransitionTable_for (fuel : nat) (duration : N) : option (list Z) :=
  table_for fuel (steps duration) 0 [].

(** ** Lemmas *)

Lemma Qceiling_div (a b : Z) : (0 < b)%Z -> Qceiling (inject_Z a / inject_Z b) = (- (- a / b))%Z.
Proof.
  intros Hb. unfold Qceiling. f_equal. rewrite Zdiv_Qdiv. apply Qfloor_comp.
  rewrite inject_Z_opp. field. intros Hq. unfold Qeq in Hq. simpl in Hq. lia.
Qed.

(** The loop runs for the [n] with [n * PWM_PRECISION < duration]. *)
Lemma loop_count_steps d : loop_count (steps d) = N.to_nat ((d + 9) / 10).
Proof.
  unfold loop_count, steps. rewrite Qceiling_div by (simpl; lia).
  change (Z.of_N PWM_PRECISION) with 10%Z.
  apply Nat2Z.inj. rewrite Z2Nat.id by zdiv_lia. rewrite N_nat_Z, N2Z.inj_div, N2Z.inj_add. simpl.
  zdiv_lia.
Qed.

Lemma in_loop d n : (n < N.to_nat ((d + 9) / 10))%nat <-> (Z.of_nat n * 10 < Z.of_N d)%Z.
Proof.
  rewrite Nat2Z.inj_lt, N_nat_Z, N2Z.inj_div, N2Z.inj_add. simpl. split; zdiv_lia.
Qed.

(** A table entry in closed form: [(160 n + 3 d) / (2 d)]. *)
Lemma entry_closed d n :
  (0 < d)%N -> entry (steps d) n = ((160 * Z.of_nat n + 3 * Z.of_N d) / (2 * Z.of_N d))%Z.
Proof.
  intros Hd. unfold entry, js_round, steps. rewrite Zdiv_Qdiv. apply Qfloor_comp.
  rewrite inject_Z_plus, !inject_Z_mult. change (Z.of_N PWM_PRECISION) with 10%Z.
  field. intros Hq. unfold Qeq in Hq. simpl in Hq. lia.
Qed.

(** C32: the table has one entry per started 10 ms step of the duration,
    the [i]-th being [(160 i + 3 d) / (2 d)]: entries never decrease
    and lie in [1, 9], so each pulse's timeout ends strictly inside the
    [PWM_PRECISION] cycle that armed it. *)
Theorem createTransitionTable_spec d :
  length (createTransitionTable d) = N.to_nat ((d + 9) / 10) /\
  (forall i x, createTransitionTable d !! i = Some x ->
     x = ((160 * Z.of_nat i + 3 * Z.of_N d) / (2 * Z.of_N d))%Z /\
     (1 <= x <= 9)%Z /\ (x < Z.of_N PWM_PRECISION)%Z) /\
  (forall i j xi xj, (i <= j)%nat -> createTransitionTable d !! i = Some xi ->
     createTransitionTable d !! j = Some xj -> (xi <= xj)%Z).
Proof.
  unfold createTransitionTable. rewrite loop_count_steps.
  assert (Hl : forall i x, (entry (steps d) <$> seq 0 (N.to_nat ((d + 9) / 10))) !! i = Some x ->
             (0 < d)%N /\ (Z.of_nat i * 10 < Z.of_N d)%Z /\
             x = ((160 * Z.of_nat i + 3 * Z.of_N d) / (2 * Z.of_N d))%Z).
  { intros i x Hx. rewrite list_lookup_fmap in Hx.
    destruct (seq 0 _ !! i) eqn:Hs; simplify_eq/=.
    apply lookup_seq in Hs as [-> Hi]. apply in_loop in Hi.
    assert (0 < d)%N by lia. split_and!; [done | lia | by apply entry_closed]. }
  split_and!.
  - by rewrite length_fmap, length_seq.
  - intros i x Hx. destruct (Hl i x Hx) as (Hd & Hi & ->). change (Z.of_N PWM_PRECISION) with 10%Z.
    split_and!; [done | zdiv_lia ..].
  - intros i j xi xj Hij Hi Hj. destruct (Hl i xi Hi) as (Hd & _ & ->), (Hl j xj Hj) as (_ & _ & ->).
    apply Z.div_le_mono; lia.
Qed.

(** The loop test [n < steps] on whole [n]. *)
Lemma in_steps d n : (inject_Z (Z.of_nat n) < steps d)%Q <-> (Z.of_nat n * 10 < Z.of_N d)%Z.
Proof.
  unfold steps. change (Z.of_N PWM_PRECISION) with 10%Z.
  unfold Qlt, Qdiv, Qmult, Qinv, inject_Z. simpl. lia.
Qed.

(** The loop from [n <= ceil(d/10)] with [table]: it pushes the entries
    of [n .. ceil(d/10) - 1] when the fuel exceeds the passes left, and
    runs out otherwise. *)
Lemma table_for_run d fuel n table :
  (n <= N.to_nat ((d + 9) / 10))%nat ->
  table_for fuel (steps d) n table =
    if decide (N.to_nat ((d + 9) / 10) - n < fuel)%nat
    then Some (table ++ (entry (steps d) <$> seq n (N.to_nat ((d + 9) / 10) - n)))
    else None.
Proof.
  set (c := N.to_nat ((d + 9) / 10)). revert n table.
  induction fuel as [|fuel IH]; intros n table Hn; [done|]. cbn [table_for].
  destruct (Qlt_le_dec _ _) as [Hlt|Hge].
  - apply in_steps, in_loop in Hlt. fold c in Hlt. rewrite IH by lia.
    replace (c - n)%nat with (S (c - S n)) by lia. cbn [seq fmap list_fmap].
    rewrite <- app_assoc. repeat case_decide; done || lia.
  - assert (n = c) as ->.
    { destruct (decide (n < c)%nat) as [Hlt|]; [|lia].
      apply in_loop, in_steps in Hlt. apply Qle_not_lt in Hge. done. }
    rewrite Nat.sub_diag, decide_True by lia. by rewrite app_nil_r.
Qed.

(** C33: the [for] loop of [createTransitionTable] terminates after
    exactly [ceil(d/10)] passes: with more loop tests than that it
    returns a table, with at most that many it does not get to return. *)
Theorem createTransitionTable_terminates fuel d :
  is_Some (createTransitionTable_for fuel d) <-> (N.to_nat ((d + 9) / 10) < fuel)%nat.
Proof.
  unfold createTransitionTable_for. rewrite table_for_run, Nat.sub_0_r by apply Nat.le_0_l.
  case_decide; split; intros Hs; [done | by eexists | by destruct Hs | lia].
Qed.

(** C34: the loop computes the closed form: given more loop tests than
    its [ceil(d/10)] passes, the [for] loop returns, and what it returns
    is [createTransitionTable d], the entries of [0 .. ceil(d/10) - 1]. *)
Theorem createTransitionTable_for_equiv fuel d :
  (N.to_nat ((d + 9) / 10) < fuel)%nat ->
  createTransitionTable_for fuel d = Some (createTransitionTable d).
Proof.
  intros Hf. unfold createTransitionTable_for, createTransitionTable.
  rewrite table_for_run, loop_count_steps, Nat.sub_0_r by apply Nat.le_0_l.
  by rewrite decide_True.
Qed.

Lemma createTransitionTable_for_equiv_witness :
  createTransitionTable_for 200 SKULL1_TRANSITION = Some (createTransitionTable SKULL1_TRANSITION).
Proof. apply (createTransitionTable_for_equiv 200). vm_compute. lia. Defined.

End TransitionTable.

Module SlowFlasher.
Import TransitionTable.

Record t := mk {
  channelName : PortName;
  timeOn : N; timeOff : N;
  transitionTable : list Z;
  stateCallback : option StateCb;
  _transitionCount : nat;
  _transitionInterval : option nat;
  _stateTimeout : option nat;
  _stopFlag : bool
}.

(** [new SlowFlasher(channelName, timeOn, timeOff, transitionTable, stateCallback)]. *)
Definition create (ch : PortName) (on off : N) (table : list Z) (cb : option StateCb) : t :=
  mk ch on off table cb 0 None None true.

Definition set_count (f : t) (n : nat) : t :=
  mk (channelName f) (timeOn f) (timeOff f) (transitionTable f) (stateCallback f)
     n (_transitionInterval f) (_stateTimeout f) (_stopFlag f).
Definition set_interval (f : t) (h : option nat) : t :=
  mk (channelName f) (timeOn f) (timeOff f) (transitionTable f) (stateCallback f)
     (_transitionCount f) h (_stateTimeout f) (_stopFlag f).
Definition set_stateTimeout (f : t) (h : option nat) : t :=
  mk (channelName f) (timeOn f) (timeOff f) (transitionTable f) (stateCallback f)
     (_transitionCount f) (_transitionInterval f) h (_stopFlag f).
Definition set_stopFlag (f : t) (b : bool) : t :=
  mk (channelName f) (timeOn f) (timeOff f) (transitionTable f) (stateCallback f)
     (_transitionCount f) (_transitionInterval f) (_stateTimeout f) b.

(** [channelOn()] and [channelOff()]. *)
Definition channelOn (f : t) : M unit := portOn (channelName f).
Definition channelOff (f : t) : M unit := portOff (channelName f).

(** [transitionStep()]: one tick of the software PWM. *)
Definition transitionStep (f : t) : M t :=
  let ch := channelName f in
  s <- getLight ch ;;
  (if negb (truthy s) then channelOn f else channelOff f) ;;
  if (_transitionCount f <? length (transitionTable f))%nat then
    s <- getLight ch ;;
    let d := Z.to_N (nth (_transitionCount f) (transitionTable f) 0%Z) in
    _ <- (if negb (truthy s) then setTimeout (CbSFChannelOff ch) d
          else setTimeout (CbSFChannelOn ch) d) ;;
    ret (set_count f (S (_transitionCount f)))
  else
    s <- getLight ch ;;
    setLight ch (if truthy s then 0 else 1) ;;
    clearTimer (_transitionInterval f) ;;
    let f := set_interval f None in
    s' <- getLight ch ;;
    f <- (if negb (_stopFlag f) || truthy s'
          then h <- setTimeout (CbSFRunTransition ch) (if truthy s' then timeOn f else timeOff f) ;;
               ret (set_stateTimeout f (Some h))
          else ret f) ;;
    runStateCallback (stateCallback f) ;;
    ret f.

(** [runTransition()]. *)
Definition runTransition (f : t) : M t :=
  let f := set_count f 0 in
  (if is_set (_transitionInterval f) then clearTimer (_transitionInterval f) else ret tt) ;;
  h <- setInterval (CbSFTransitionStep (channelName f)) PWM_PRECISION ;;
  ret (set_interval f (Some h)).

(** [this.start()]. *)
Definition start (f : t) : M t :=
  channelOff f ;;
  setLight (channelName f) 0 ;;
  f <- (if is_set (_stateTimeout f)
        then clearTimer (_stateTimeout f) ;; ret (set_stateTimeout f None)
        else ret f) ;;
  runTransition (set_stopFlag f false).

(** [this.stop()]. *)
Definition stop (f : t) : M t :=
  s <- getLight (channelName f) ;;
  f <- (if is_set (_stateTimeout f) && negb (truthy s)
        then clearTimer (_stateTimeout f) ;; ret (set_stateTimeout f None)
        else ret f) ;;
  ret (set_stopFlag f true).

(** The closures of the animator, dispatched. *)
Definition on_timer (f : t) (cb : Callback) : M t :=
  match cb with
  | CbSFTransitionStep ch => if decide (ch = channelName f) then transitionStep f else ret f
  | CbSFChannelOn ch => if decide (ch = channelName f) then channelOn f ;; ret f else ret f
  | CbSFChannelOff ch => if decide (ch = channelName f) then channelOff f ;; ret f else ret f
  | CbSFRunTransition ch => if decide (ch = channelName f) then runTransition f else ret f
  | _ => ret f
  end.

(** The three animators of the commented-out block (lines 510-526). *)
Definition skull1Flasher : t :=
  create lightSkull1 SKULL1_ON_DURATION SKULL1_OFF_DURATION (createTransitionTable SKULL1_TRANSITION) None.
Definition skull2Flasher : t :=
  create lightSkull2 SKULL2_ON_DURATION SKULL2_OFF_DURATION (createTransitionTable SKULL2_TRANSITION) None.
Definition dogFlasher : t :=
  create lightDog DOG_ON_DURATION DOG_OFF_DURATION (createTransitionTable DOG_TRANSITION)
         (Some ControlDogSound).

(** ** Functional behaviour *)

(** C31: one tick of the stepped ramp.  A tick inside the table switches
    the light to the level opposite its logical state and arms one
    one-shot timer of [transitionTable[count]] ms switching it back; it
    advances the count and changes neither the logical state nor the
    other timers.  The tick after the last entry ends the ramp: the
    logical state flips and the matching level is written, the interval
    is cleared, and the hold timer of the new state is armed unless the
    animator was stopped and the light is now off; the state callback
    runs last. *)
Theorem stepped_tick_spec f c :
  channelName f ∈ anim_lights ->
  let ch := channelName f in
  let s := state_light ch (c_state c) in
  let '(f', c') := transitionStep f c in
  if (_transitionCount f <? length (transitionTable f))%nat then
    c_out c' = c_out c ++ [OGpio ch (flipped s)] /\ c_state c' = c_state c /\
    _transitionCount f' = S (_transitionCount f) /\
    _transitionInterval f' = _transitionInterval f /\ _stateTimeout f' = _stateTimeout f /\
    tm_live (c_timers c') =
      <[tm_next (c_timers c) :=
          mkTimer (tm_now (c_timers c) + clamp_delay (Z.to_N (nth (_transitionCount f) (transitionTable f) 0%Z)))
                  (tm_next (c_timers c)) None
                  (if truthy s then CbSFChannelOn ch else CbSFChannelOff ch)]>
        (tm_live (c_timers c))
  else
    state_light ch (c_state c') = flipped s /\
    (exists rest, c_out c' = c_out c ++ OGpio ch (flipped s) :: rest) /\
    _transitionInterval f' = None /\ _stopFlag f' = _stopFlag f /\
    let tm := clear_timer (_transitionInterval f) (c_timers c) in
    if rearms (_stopFlag f) (flipped s)
    then _stateTimeout f' = Some (tm_next tm) /\
         tm_live (c_timers c') =
           <[tm_next tm := mkTimer (tm_now tm + clamp_delay (if truthy (flipped s) then timeOn f else timeOff f))
                             (tm_next tm) None (CbSFRunTransition ch)]> (tm_live tm)
    else _stateTimeout f' = _stateTimeout f /\ c_timers c' = tm.
Proof.
  intros Hch. destruct f as [ch on off tb cb n iv sto sflag]; simpl in Hch |- *.
  destruct c as [[now live next] [] io out pipe procs pid ex].
  unfold transitionStep, flipped, rearms, runStateCallback, controlDogSound. simpl.
  destruct (n <? length tb)%nat; chan_cases Hch; simpl.
  1-3: case_truthy; try discriminate; split_and!; reflexivity.
  all: destruct sflag, iv, cb as [[]|]; simpl; case_truthy; split_and!;
    try discriminate; try reflexivity; try (eexists; rewrite <- ?app_assoc; reflexivity).
Qed.

(** ** The animator alone

    Firing the next timer of the registry and running the closure it
    holds: the event loop restricted to one animator. *)
Definition fire (s : t * Ctx) : option (t * Ctx) :=
  let (f, c) := s in
  if c_exited c then None else
  match fire_timer (c_timers c) with
  | Some (_, cb, tm') => Some (on_timer f cb (upd_timers (fun _ => tm') c))
  | None => None
  end.

Fixpoint fire_n (n : nat) (s : t * Ctx) : option (t * Ctx) :=
  match n with
  | O => Some s
  | S n => match fire s with Some s' => fire_n n s' | None => None end
  end.

(** ** The animator interface *)

Lemma stepped_runTransition_frame f c : ctx_frame c (runTransition f c).2.
Proof. unfold runTransition. frame_chain. Qed.

Lemma stepped_start_frame f c : channelName f <> lightNet -> ctx_frame c (start f c).2.
Proof.
  intros Hch. unfold start.
  apply frame_bind; [apply frame_portOff | intros ? ?].
  apply frame_bind; [by apply frame_setLight | intros ? ?].
  apply frame_bind; [frame_chain | intros ? ?]. apply stepped_runTransition_frame.
Qed.

Lemma stepped_stop_frame f c : ctx_frame c (stop f c).2.
Proof. unfold stop. frame_chain. Qed.

Lemma stepped_start_channel f c : channelName (eval (start f) c) = channelName f.
Proof.
  destruct f as [ch on off tb cb n iv sto sflag].
  destruct c as [[now live next] [] io out pipe procs pid ex].
  unfold eval, start, runTransition. destruct ch, sto, iv; reflexivity.
Qed.

Lemma stepped_stop_channel f c : channelName (eval (stop f) c) = channelName f.
Proof.
  destruct f as [ch on off tb cb n iv sto sflag].
  unfold eval, stop. simpl. by destruct (_ && _).
Qed.

(** The closures this animator arms. *)
Definition arms (cb : Callback) : Prop :=
  exists ch, cb = CbSFTransitionStep ch \/ cb = CbSFChannelOn ch \/ cb = CbSFChannelOff ch \/
             cb = CbSFRunTransition ch.

Ltac arms_tac := eexists; first [by left | by right; left | by right; right; left | by right; right; right].

Lemma stepped_start_adds f : adds_only arms (start f).
Proof. unfold start, channelOff. adds_chain arms_tac. Qed.

Lemma stepped_stop_adds f : adds_only arms (stop f).
Proof. unfold stop. adds_chain arms_tac. Qed.

(** The stepped animator drives plain GPIO only. *)
Lemma stepped_start_pipe f : keeps_pipe (start f).
Proof. unfold start, runTransition, channelOff. pipe_chain. Qed.

Lemma stepped_stop_pipe f : keeps_pipe (stop f).
Proof. unfold stop. pipe_chain. Qed.

#[export] Instance SlowFlasher_animator : Animator t := {
  anim_channel := channelName;
  anim_start := start;
  anim_stop := stop;
  anim_cb := arms;
  anim_start_channel := stepped_start_channel;
  anim_stop_channel := stepped_stop_channel;
  anim_start_frame := stepped_start_frame;
  anim_stop_frame f c _ := stepped_stop_frame f c;
  anim_start_adds := stepped_start_adds;
  anim_stop_adds := stepped_stop_adds;
  anim_start_pipe := stepped_start_pipe;
  anim_stop_pipe := stepped_stop_pipe
}.

(** ** Witnesses *)

Lemma skull1_anim : lightSkull1 ∈ anim_lights.
Proof. by right; left. Qed.

Lemma stepped_tick_spec_witness :
  let '(f', c') := transitionStep skull1Flasher Ctx0 in _transitionCount f' = 1%nat.
Proof.
  pose proof (stepped_tick_spec skull1Flasher Ctx0 skull1_anim) as H.
  cbv zeta in H. destruct (transitionStep skull1Flasher Ctx0). vm_compute in H. tauto.
Defined.

End SlowFlasher.
