(* ===== verification/Sensors.v ===== *)
(** * Sensors: [SensorWatch] and [SensorArray]

    [src/halloween.js] lines 137-183.  A [SensorWatch] keeps one field,
    [_stateTimeout], and writes the shared [State[sensorName]]: on a
    rising edge of an absent sensor it marks it present and arms
    [setTimeout(cb, SENSOR_TIMEOUT)]; on a falling edge it marks it
    absent at once and cancels the timeout.  [SensorArray] owns the three
    watches; its [getState] is the OR of the enabled sensors, and the
    callback it gives the watches calls [startPerformance] (with no
    argument) only if [getState()] holds when the timeout fires. *)

From stdpp Require Import gmap.
From Stdlib Require Import NArith.
From S2P Require Import Prelude Timers Ports Runtime Animator.

Module SensorWatch.

Record t := mk { sensorName : Sensor; _stateTimeout : option nat }.

(** [new SensorWatch(sensorName, cb)]. *)
Definition create (x : Sensor) : t := mk x None.

(** The [gpio.watch] handler, for the edge value [data] ([err] is
    ignored by the code). *)
Definition watch (w : t) (data : bool) : M t :=
  let x := sensorName w in
  if data then
    present <- gets (fun c => state_sensor x (c_state c)) ;;
    if negb present then
      modifyState (set_state_sensor x true) ;;
      (if is_set (_stateTimeout w) then clearTimer (_stateTimeout w) else ret tt) ;;
      h <- setTimeout (CbSensorTimeout x) SENSOR_TIMEOUT ;;
      ret (mk x (Some h))
    else ret w
  else
    modifyState (set_state_sensor x false) ;;
    if is_set (_stateTimeout w) then clearTimer (_stateTimeout w) ;; ret (mk x None)
    else ret w.

(** [this.getState()]. *)
Definition getState (w : t) : M bool := gets (fun c => state_sensor (sensorName w) (c_state c)).

End SensorWatch.

Module SensorArray.

Record t := mk { watch1 : SensorWatch.t; watch2 : SensorWatch.t; watch3 : SensorWatch.t }.

(** [new SensorArray(cb)]: the three watches. *)
Definition create : t :=
  mk (SensorWatch.create Sensor1) (SensorWatch.create Sensor2) (SensorWatch.create Sensor3).

Definition watch_of (a : t) (x : Sensor) : SensorWatch.t :=
  match x with Sensor1 => watch1 a | Sensor2 => watch2 a | Sensor3 => watch3 a end.

Definition set_watch (a : t) (x : Sensor) (w : SensorWatch.t) : t :=
  match x with
  | Sensor1 => mk w (watch2 a) (watch3 a)
  | Sensor2 => mk (watch1 a) w (watch3 a)
  | Sensor3 => mk (watch1 a) (watch2 a) w
  end.

(** [this.getState()]: [(IOEnabled.sensor1 && watch1.getState()) || ...]. *)
Definition getState_pure (io : IOEnabled) (s : JState) : bool :=
  (en_sensor1 io && st_sensor1 s) || (en_sensor2 io && st_sensor2 s) || (en_sensor3 io && st_sensor3 s).

Definition getState : M bool := gets (fun c => getState_pure (c_enabled c) (c_state c)).

(** [callback()]: whether [cb()] (that is [startPerformance()]) runs. *)
Definition callback : M bool := getState.

(** An edge on sensor [x], handled by its watch. *)
Definition on_edge (a : t) (x : Sensor) (data : bool) : M t :=
  w <- SensorWatch.watch (watch_of a x) data ;; ret (set_watch a x w).

(** An edge arms at most the watch's timeout and never ends the process. *)
Lemma on_edge_adds a x data : adds_only (fun cb => exists y, cb = CbSensorTimeout y) (on_edge a x data).
Proof. unfold on_edge, SensorWatch.watch. adds_chain ltac:(by eexists). Qed.

Lemma on_edge_keeps a x data : keeps_exit (on_edge a x data).
Proof. unfold on_edge, SensorWatch.watch. keeps_chain. Qed.

Lemma on_edge_pipe a x data : keeps_pipe (on_edge a x data).
Proof. unfold on_edge, SensorWatch.watch. pipe_chain. Qed.

End SensorArray.

Module SensorProps.
Import SensorWatch.

Lemma watch_eq_rise w c :
  state_sensor (sensorName w) (c_state c) = false ->
  watch w true c =
    (mk (sensorName w) (Some (tm_next (c_timers c))),
     mkCtx (snd (set_timer SENSOR_TIMEOUT false (CbSensorTimeout (sensorName w))
                  (clear_timer (_stateTimeout w) (c_timers c))))
           (set_state_sensor (sensorName w) true (c_state c)) (c_enabled c) (c_out c)
           (c_pipe c) (c_procs c) (c_next_pid c) (c_exited c)).
Proof.
  destruct w as [x sto], c as [[now live next] st io out pipe procs pid ex].
  simpl. intros ->. destruct sto; simpl; by destruct x, st.
Qed.

(** C25: a rising edge of an absent sensor marks it present at once and
    arms one [SENSOR_TIMEOUT] timer for the array's callback, cancelling
    the one the field recorded; it calls no callback itself.  A further
    rising edge while the sensor is present changes nothing: the hold
    timer is not re-armed (the spec says it is). *)
Theorem watch_rising_edge w c :
  let '(w', c') := watch w true c in
  if state_sensor (sensorName w) (c_state c) then w' = w /\ c' = c else
  state_sensor (sensorName w) (c_state c') = true /\
  _stateTimeout w' = Some (tm_next (c_timers c)) /\
  tm_live (c_timers c') =
    <[tm_next (c_timers c) := mkTimer (tm_now (c_timers c) + SENSOR_TIMEOUT) (tm_next (c_timers c))
                                None (CbSensorTimeout (sensorName w))]>
      (tm_live (clear_timer (_stateTimeout w) (c_timers c))) /\
  c_out c' = c_out c /\ st_mode (c_state c') = st_mode (c_state c).
Proof.
  destruct (state_sensor (sensorName w) (c_state c)) eqn:H; [simpl; by rewrite H|].
  rewrite watch_eq_rise by done. simpl.
  rewrite state_sensor_set, mode_set_sensor. destruct (_stateTimeout w); done.
Qed.

(** C26: a falling edge marks the sensor absent at once and cancels its
    pending timeout, whatever the state was. *)
Theorem watch_falling_edge w c :
  let '(w', c') := watch w false c in
  state_sensor (sensorName w) (c_state c') = false /\ _stateTimeout w' = None /\
  c_timers c' = clear_timer (_stateTimeout w) (c_timers c) /\
  (forall y, y <> sensorName w -> state_sensor y (c_state c') = state_sensor y (c_state c)).
Proof.
  destruct w as [x [h|]], c as [tm st io out pipe procs pid ex]; simpl;
    (split; [apply state_sensor_set|]); (split; [done|]); (split; [done|]);
    intros y Hy; by apply state_sensor_set_ne.
Qed.

(** C27: the array is present exactly when some enabled sensor is present. *)
Theorem array_getState_spec io s :
  SensorArray.getState_pure io s = true <->
  exists x, enabled_sensor x io = true /\ state_sensor x s = true.
Proof.
  unfold SensorArray.getState_pure. split.
  - intros H. repeat (apply orb_true_iff in H as [H|H]);
      apply andb_true_iff in H as [H1 H2];
      [exists Sensor1 | exists Sensor2 | exists Sensor3]; auto.
  - intros [[] [H1 H2]]; simpl in *; rewrite H1, H2; simpl; rewrite ?orb_true_r; done.
Qed.

(** The context where sensor 1 is already present. *)
Definition Ctx_sensor1 : Ctx := upd_state (set_state_sensor Sensor1 true) Ctx0.

End SensorProps.
