(* ===== verification/Flasher.v ===== *)
(** * Flasher: the idle strobe

    [src/halloween.js] lines 185-213.  Two fields: the interval handle
    [_interval] and the current channel [_curChannel] (1 or 2).  Every
    [FLASH_INTERVAL] ms [flashOn] turns [flashLight<cur>] on and arms a
    [FLASH_DURATION] timeout running [flashOff], which turns the same
    light off and flips to the other channel ([3 - cur]).  [start] first
    calls [stop], which cancels the interval only; a flash already on is
    still turned off by its pending [flashOff]. *)

From stdpp Require Import gmap.
From Stdlib Require Import NArith.
From S2P Require Import Prelude Timers Ports Runtime Animator.

Module Flasher.

Record t := mk { _interval : option nat; _curChannel : nat }.

(** [new Flasher()]. *)
Definition create : t := mk None 1.

(** ['flashLight' + that._curChannel]: a port only for 1 and 2; any other
    number names no port, and [Ports[...].dir] throws. *)
Definition flash_port (n : nat) : option PortName :=
  match n with 1 => Some flashLight1 | 2 => Some flashLight2 | _ => None end.

(** An uncaught [TypeError] ends the process. *)
Definition crash : M unit := modify (fun c =>
  mkCtx (c_timers c) (c_state c) (c_enabled c) (c_out c) (c_pipe c) (c_procs c) (c_next_pid c) true).

Definition on_port (n : nat) (k : PortName -> M unit) : M unit :=
  match flash_port n with Some p => k p | None => crash end.

(** [flashOff()]. *)
Definition flashOff (f : t) : M t :=
  on_port (_curChannel f) portOff ;;
  ret (mk (_interval f) (3 - _curChannel f)).

(** [flashOn()]. *)
Definition flashOn (f : t) : M unit :=
  on_port (_curChannel f) portOn ;;
  _ <- setTimeout CbFlashOff FLASH_DURATION ;;
  ret tt.

(** [this.stop()]. *)
Definition stop (f : t) : M t :=
  if is_set (_interval f) then clearTimer (_interval f) ;; ret (mk None (_curChannel f))
  else ret f.

(** [this.start()]. *)
Definition start (f : t) : M t :=
  f <- stop f ;;
  h <- setInterval CbFlashOn FLASH_INTERVAL ;;
  ret (mk (Some h) (_curChannel f)).

(** The strobe's closures, dispatched. *)
Definition on_timer (f : t) (cb : Callback) : M t :=
  match cb with
  | CbFlashOn => flashOn f ;; ret f
  | CbFlashOff => flashOff f
  | _ => ret f
  end.

(** ** Properties *)

Definition owns (cb : Callback) : bool :=
  match cb with CbFlashOn | CbFlashOff => true | _ => false end.

Lemma three_minus_valid n : n ∈ [1; 2] -> 3 - n ∈ [1; 2].
Proof.
  intros Hn. apply elem_of_cons in Hn as [->|Hn]; [by right; left|].
  apply elem_of_cons in Hn as [->|Hn]; [by left | inversion Hn].
Qed.

(** The strobe's closures keep the current channel valid, never end the
    process while it is, and arm only [flashOff] timers. *)
Lemma strobe_on_timer_channel f cb c :
  _curChannel f ∈ [1; 2] -> _curChannel (on_timer f cb c).1 ∈ [1; 2].
Proof.
  destruct f as [iv cur]. simpl. intros Hc.
  destruct cb; unfold on_timer, flashOn, flashOff; simpl; try done;
    repeat match goal with |- context [let (_, _) := ?m in _] => destruct m; simpl end;
    first [done | by apply three_minus_valid].
Qed.

Lemma strobe_on_timer_keeps f cb : _curChannel f ∈ [1; 2] -> keeps_exit (on_timer f cb).
Proof.
  destruct f as [iv cur]. simpl. intros Hc.
  apply elem_of_cons in Hc as [->|Hc]; [|apply elem_of_cons in Hc as [->|Hc]; [|inversion Hc]];
    unfold on_timer, flashOn, flashOff, on_port; simpl; destruct cb; keeps_chain.
Qed.

(** The strobe drives plain GPIO only. *)
Lemma strobe_on_timer_pipe f cb : keeps_pipe (on_timer f cb).
Proof.
  unfold on_timer, flashOn, flashOff, on_port, crash. destruct cb; pipe_chain.
Qed.

Lemma strobe_start_pipe f : keeps_pipe (start f).
Proof. unfold start, stop. pipe_chain. Qed.

Lemma strobe_stop_pipe f : keeps_pipe (stop f).
Proof. unfold stop. pipe_chain. Qed.

Lemma strobe_on_timer_adds f cb : adds_only (fun cb => cb = CbFlashOff) (on_timer f cb).
Proof.
  unfold on_timer, flashOn, flashOff, on_port, crash. destruct cb; adds_chain ltac:(cbv beta; reflexivity).
Qed.

(** C28: [start] never double-arms: afterwards the only live [flashOn]
    interval is the fresh one, of period [FLASH_INTERVAL], whatever
    interval was running before.  [stop] cancels the interval at once and
    writes nothing: a flash that is on stays on until its pending
    [flashOff]. *)
Theorem start_stop_interval f c :
  (let '(f', c') := start f c in
   _interval f' = Some (tm_next (c_timers c)) /\ _curChannel f' = _curChannel f /\
   tm_live (c_timers c') =
     <[tm_next (c_timers c) := mkTimer (tm_now (c_timers c) + FLASH_INTERVAL) (tm_next (c_timers c))
                                 (Some FLASH_INTERVAL) CbFlashOn]>
       (tm_live (clear_timer (_interval f) (c_timers c))) /\
   c_out c' = c_out c) /\
  (let '(f', c') := stop f c in
   _interval f' = None /\ c_timers c' = clear_timer (_interval f) (c_timers c) /\
   c_out c' = c_out c /\ _curChannel f' = _curChannel f).
Proof. destruct f as [[h|] cur], c as [[now live next] st io out pipe procs pid ex]; done. Qed.

(** C29: the current channel stays 1 or 2 through every strobe callback and
    every [start]/[stop], so the port name is always defined (the
    [TypeError] branch is dead); each [flashOff] alternates it. *)
Theorem curChannel_valid f cb c :
  _curChannel f ∈ [1; 2] ->
  _curChannel (on_timer f cb c).1 ∈ [1; 2] /\ _curChannel (start f c).1 ∈ [1; 2] /\
  _curChannel (stop f c).1 ∈ [1; 2] /\
  (cb = CbFlashOff -> _curChannel (on_timer f cb c).1 = 3 - _curChannel f).
Proof.
  intros Hc. split_and!; [by apply strobe_on_timer_channel|by destruct f as [[] cur]|by destruct f as [[] cur]|].
  intros ->. destruct f as [iv cur]. unfold on_timer, flashOff. simpl. by destruct (on_port cur portOff c).
Qed.

Lemma curChannel_valid_witness :
  _curChannel (on_timer create CbFlashOff Ctx0).1 = 2.
Proof.
  pose proof (curChannel_valid create CbFlashOff Ctx0 ltac:(by left)) as (_ & _ & _ & H).
  by rewrite (H eq_refl).
Defined.

End Flasher.
