(* ===== verification/Performance.v ===== *)
(** * Performance: the main closure's state machine

    [src/halloween.js] lines 396-587.  The closure's variables are the
    record [t]: the strobe, the three animators, the two pending skull
    starts ([startFlasher1Timeout], [startFlasher2Timeout]), the player
    process and the sensor array ([null] for the first
    [SENSOR_SETUP_TIME] ms).  [State.mode] is the shared mode:
    ['idle'] [idle], ['delay'] [delay] (the spec's Pending), ['run'] [run]
    (Active), ['cool-down'] [cool_down].

    The handlers are [startPerformance], [stopPerformance], the closures
    the program hands to timers (the pre-roll delay, the skull starts,
    the end of the cool-down, the sensor setup, the sensor array's
    callback), the player's close handler and the HTTP handlers.  The
    animators are used through the [Animator] interface only; the random
    start offsets [Math.floor(Math.random() * 3000)] are arguments. *)

From stdpp Require Import gmap.
From Stdlib Require Import NArith String.
From S2P Require Import Prelude Timers Ports Runtime Animator Sensors Flasher SlowFlasherPigpio.

Module Performance.

Section Controller.
Context {A : Type} `{Animator A}.

Record t := mk {
  flasher : Flasher.t;
  dogFlasher : A; skull1Flasher : A; skull2Flasher : A;
  startFlasher1Timeout : option nat;
  startFlasher2Timeout : option nat;
  playerProcess : option nat;
  sensors : option SensorArray.t
}.

Definition set_flasher p x := mk x (dogFlasher p) (skull1Flasher p) (skull2Flasher p)
  (startFlasher1Timeout p) (startFlasher2Timeout p) (playerProcess p) (sensors p).
Definition set_dog p x := mk (flasher p) x (skull1Flasher p) (skull2Flasher p)
  (startFlasher1Timeout p) (startFlasher2Timeout p) (playerProcess p) (sensors p).
Definition set_skull1 p x := mk (flasher p) (dogFlasher p) x (skull2Flasher p)
  (startFlasher1Timeout p) (startFlasher2Timeout p) (playerProcess p) (sensors p).
Definition set_skull2 p x := mk (flasher p) (dogFlasher p) (skull1Flasher p) x
  (startFlasher1Timeout p) (startFlasher2Timeout p) (playerProcess p) (sensors p).
Definition set_t1 p x := mk (flasher p) (dogFlasher p) (skull1Flasher p) (skull2Flasher p)
  x (startFlasher2Timeout p) (playerProcess p) (sensors p).
Definition set_t2 p x := mk (flasher p) (dogFlasher p) (skull1Flasher p) (skull2Flasher p)
  (startFlasher1Timeout p) x (playerProcess p) (sensors p).
Definition set_player p x := mk (flasher p) (dogFlasher p) (skull1Flasher p) (skull2Flasher p)
  (startFlasher1Timeout p) (startFlasher2Timeout p) x (sensors p).
Definition set_sensors p x := mk (flasher p) (dogFlasher p) (skull1Flasher p) (skull2Flasher p)
  (startFlasher1Timeout p) (startFlasher2Timeout p) (playerProcess p) x.

(** [stopPerformance()]. *)
Definition stopPerformance (p : t) : M t :=
  p <- (match playerProcess p with
        | Some pid => quitPlayer pid ;; ret (set_player p None)
        | None => ret p
        end) ;;
  portOff lightNet ;;
  setLight lightNet 0 ;;
  fl <- Flasher.start (flasher p) ;;
  let p := set_flasher p fl in
  dog <- anim_stop (dogFlasher p) ;;
  let p := set_dog p dog in
  p <- (if is_set (startFlasher1Timeout p)
        then clearTimer (startFlasher1Timeout p) ;; ret (set_t1 p None)
        else s1 <- anim_stop (skull1Flasher p) ;; ret (set_skull1 p s1)) ;;
  if is_set (startFlasher2Timeout p)
  then clearTimer (startFlasher2Timeout p) ;; ret (set_t2 p None)
  else s2 <- anim_stop (skull2Flasher p) ;; ret (set_skull2 p s2).

(** [startPerformance(force)]; [r1], [r2] are the two values of
    [Math.floor(Math.random() * 3000)]. *)
Definition startPerformance (force : bool) (r1 r2 : N) (p : t) : M t :=
  if force then
    setMode run ;;
    fl <- Flasher.stop (flasher p) ;;
    let p := set_flasher p fl in
    portOn lightNet ;;
    setLight lightNet 1 ;;
    dog <- anim_start (dogFlasher p) ;;
    let p := set_dog p dog in
    h1 <- setTimeout CbStartSkull1 r1 ;;
    let p := set_t1 p (Some h1) in
    h2 <- setTimeout CbStartSkull2 r2 ;;
    let p := set_t2 p (Some h2) in
    pid <- spawnPlayer ;;
    ret (set_player p (Some pid))
  else
    m <- getMode ;;
    if decide (m = idle) then
      setMode delay ;;
      portOn lightNet ;;
      setLight lightNet 1 ;;
      _ <- setTimeout CbStartDelay START_DELAY ;;
      ret p
    else ret p.

(** [process.exit] on an uncaught [TypeError] ([sensors] still null). *)
Definition crash : M unit := modify (fun c =>
  mkCtx (c_timers c) (c_state c) (c_enabled c) (c_out c) (c_pipe c) (c_procs c) (c_next_pid c) true).

(** The pre-roll delay's closure: [sensors.getState()] decides. *)
Definition onStartDelay (r1 r2 : N) (p : t) : M t :=
  match sensors p with
  | None => crash ;; ret p
  | Some _ =>
      present <- SensorArray.getState ;;
      if present then startPerformance true r1 r2 p
      else setMode idle ;; stopPerformance p
  end.

(** The skull starts' closures. *)
Definition onStartSkull1 (p : t) : M t :=
  s <- anim_start (skull1Flasher p) ;; ret (set_t1 (set_skull1 p s) None).
Definition onStartSkull2 (p : t) : M t :=
  s <- anim_start (skull2Flasher p) ;; ret (set_t2 (set_skull2 p s) None).

(** [playerProcess.on('close', ...)]: registered on every spawned player. *)
Definition onPlayerClose (p : t) : M t :=
  let p := set_player p None in
  p <- stopPerformance p ;;
  setMode cool_down ;;
  _ <- setTimeout CbCoolDownEnd COOL_DOWN_DURATION ;;
  ret p.

(** The cool-down timer's closure. *)
Definition onCoolDownEnd (p : t) : M t := setMode idle ;; ret p.

(** [sensors = new SensorArray(startPerformance)]. *)
Definition onSensorSetup (p : t) : M t := ret (set_sensors p (Some SensorArray.create)).

(** The sensor array's [callback], run by a watch's timeout:
    [startPerformance()] is called with [force] undefined. *)
Definition onSensorTimeout (p : t) : M t :=
  b <- SensorArray.callback ;;
  if b then startPerformance false 0 0 p else ret p.

(** ** HTTP handlers (lines 557-585) *)

Inductive Response := RespOK | RespStatus (s : JState).

Definition postStart (r1 r2 : N) (p : t) : M (t * option Response) :=
  m <- getMode ;;
  p <- (if decide (m <> run) then startPerformance true r1 r2 p else ret p) ;;
  ret (p, Some RespOK).

Definition postStop (p : t) : M (t * option Response) :=
  m <- getMode ;;
  p <- (if decide (m = run) then p <- stopPerformance p ;; setMode idle ;; ret p else ret p) ;;
  ret (p, Some RespOK).

Inductive IOKey := key_sensor1 | key_sensor2 | key_sensor3 | key_music.

Definition set_enabled (k : IOKey) (b : bool) (io : IOEnabled) : IOEnabled :=
  match k with
  | key_sensor1 => mkIOEnabled b (en_sensor2 io) (en_sensor3 io) (en_music io)
  | key_sensor2 => mkIOEnabled (en_sensor1 io) b (en_sensor3 io) (en_music io)
  | key_sensor3 => mkIOEnabled (en_sensor1 io) (en_sensor2 io) b (en_music io)
  | key_music => mkIOEnabled (en_sensor1 io) (en_sensor2 io) (en_sensor3 io) b
  end.

(** [IOEnabled[pin]]. *)
Definition enabled_of (k : IOKey) (io : IOEnabled) : bool :=
  match k with
  | key_sensor1 => en_sensor1 io | key_sensor2 => en_sensor2 io
  | key_sensor3 => en_sensor3 io | key_music => en_music io
  end.

(** A value of [req.body], parsed by [bodyParser.json()] or
    [bodyParser.urlencoded({ extended: true })] (lines 547-548): a string
    (every form value is one), a JSON boolean, number or [null], or an
    array or object.  A key the body lacks is [undefined].  Numbers are
    kept as integers: the handler only compares a value with a string. *)
Inductive BodyValue :=
  | bv_string (s : string)
  | bv_bool (b : bool)
  | bv_number (n : Z)
  | bv_null
  | bv_compound.

(** [v === 'true']: strict equality holds only for that string. *)
Definition strict_eq_true (v : BodyValue) : bool :=
  match v with bv_string s => String.eqb s "true" | _ => false end.

(** [for (var pin in IOEnabled) if (data[pin] !== undefined)
    IOEnabled[pin] = (data[pin] === 'true')]; the handler sends no
    response. *)
Definition postEnabled (data : IOKey -> option BodyValue) (p : t) : M (t * option Response) :=
  modify (upd_enabled (fun io =>
    fold_left (fun io k => match data k with
                           | Some v => set_enabled k (strict_eq_true v) io
                           | None => io
                           end)
              [key_sensor1; key_sensor2; key_sensor3; key_music] io)) ;;
  ret (p, None).

(** [getStatus]: [State.uptime] in whole seconds since start (the clock's
    origin is [startTime]). *)
Definition getStatus (p : t) : M (t * option Response) :=
  now <- curtime ;;
  modifyState (fun s => mkJState (st_mode s) (st_sensor1 s) (st_sensor2 s) (st_sensor3 s)
                          (st_lightNet s) (st_lightDog s) (st_lightSkull1 s) (st_lightSkull2 s)
                          (st_soundDog s) (Some (now / 1000)%N)) ;;
  s <- getState ;;
  ret (p, Some (RespStatus s)).

(** The start of the run: [init()], the mode, the sensor setup timer, the
    strobe started, the three animators given. *)
Definition main (dog skull1 skull2 : A) : M t :=
  modify (fun c => fold_left (fun c pl => emit (OGpio pl.1 pl.2) c) init_writes c) ;;
  setMode idle ;;
  _ <- setTimeout CbSensorSetup SENSOR_SETUP_TIME ;;
  fl <- Flasher.start Flasher.create ;;
  ret (mk fl dog skull1 skull2 None None None None).

(** ** Properties *)

(** The animators drive lights other than the net light. *)
Definition perf_ok (p : t) : Prop :=
  anim_channel (dogFlasher p) <> lightNet /\ anim_channel (skull1Flasher p) <> lightNet /\
  anim_channel (skull2Flasher p) <> lightNet.

(** Name the result of an animator call and record its frame law. *)
Ltac anim_call :=
  match goal with
  | |- context [anim_start ?a ?c] =>
      let F := fresh "F" in let a' := fresh "a" in let c' := fresh "c" in let E := fresh "E" in
      let Hch := fresh "Hch" in
      pose proof (anim_start_frame a c) as F; unfold exec in F;
      pose proof (anim_start_channel a c) as Hch; unfold eval in Hch;
      destruct (anim_start a c) as [a' c'] eqn:E; simpl in F, Hch
  | |- context [anim_stop ?a ?c] =>
      let F := fresh "F" in let a' := fresh "a" in let c' := fresh "c" in let E := fresh "E" in
      let Hch := fresh "Hch" in
      pose proof (anim_stop_frame a c) as F; unfold exec in F;
      pose proof (anim_stop_channel a c) as Hch; unfold eval in Hch;
      destruct (anim_stop a c) as [a' c'] eqn:E; simpl in F, Hch
  end.

(** C16: a sensor trigger in the idle mode enters the pre-roll: the mode
    becomes [delay], the net light is switched on (the physical level is
    0: the port is inverted) and one [START_DELAY] timer is armed.  In
    any other mode it does nothing at all: the pre-roll, the performance
    and the cool-down are not re-entered. *)
Theorem startPerformance_trigger r1 r2 p c :
  let '(p', c') := startPerformance false r1 r2 p c in
  if decide (st_mode (c_state c) = idle) then
    p' = p /\ st_mode (c_state c') = delay /\ st_lightNet (c_state c') = 1 /\
    c_out c' = c_out c ++ [OGpio lightNet 0] /\
    tm_live (c_timers c') =
      <[tm_next (c_timers c) := mkTimer (tm_now (c_timers c) + START_DELAY) (tm_next (c_timers c))
                                  None CbStartDelay]> (tm_live (c_timers c))
  else p' = p /\ c' = c.
Proof.
  destruct c as [[now live next] [[] ? ? ? ? ? ? ? ? ?] io out pipe procs pid ex]; simpl; by repeat split.
Qed.

(** C14: a forced start enters the performance: the mode becomes [run]
    and the strobe's interval is dropped; the net light is switched on
    (its one write, level 0 on the inverted port) before the dog
    animator is started from that context, and the animator the closure
    keeps is the one [start] returned; the two skull starts are armed as
    one-shot timers; then one player is spawned, muted exactly when
    music is disabled, its spawn the one output after the dog's. *)
Theorem startPerformance_force r1 r2 p c :
  perf_ok p ->
  let '(p', c') := startPerformance true r1 r2 p c in
  st_mode (c_state c') = run /\ st_lightNet (c_state c') = 1 /\
  Flasher._interval (flasher p') = None /\
  (exists cm cd, anim_start (dogFlasher p) cm = (dogFlasher p', cd) /\
     st_mode (c_state cm) = run /\ st_lightNet (c_state cm) = 1 /\
     c_out cm = c_out c ++ [OGpio lightNet 0] /\
     c_out c' = c_out cd ++
       [OSpawn (c_next_pid c) SOUND_PLAYER_CMD (player_args (en_music (c_enabled c))) SOUND_PLAYER_CWD]) /\
  playerProcess p' = Some (c_next_pid c) /\ c_procs c' = c_procs c ++ [c_next_pid c] /\
  exists h1 h2 x1 x2,
    startFlasher1Timeout p' = Some h1 /\ startFlasher2Timeout p' = Some h2 /\
    tm_live (c_timers c') !! h1 = Some x1 /\ t_cb x1 = CbStartSkull1 /\ t_period x1 = None /\
    tm_live (c_timers c') !! h2 = Some x2 /\ t_cb x2 = CbStartSkull2 /\ t_period x2 = None.
Proof.
  intros (Hd & _ & _). destruct p as [[fi fc] dog s1 s2 t1 t2 pl sn].
  destruct c as [[now live next] [] io out pipe procs pid ex].
  unfold startPerformance. destruct fi; simpl; anim_call;
    destruct (F Hd) as (Hm & Hn & _ & Hio & Hpr & Hpid & _ & [l Hl]);
    destruct c as [[now' live' next'] [] io' out' pipe' procs' pid' ex']; simpl in *; subst;
    split_and!; try done.
  all: first
    [ do 2 eexists; split; [exact E|]; by split_and!
    | do 4 eexists; split; [reflexivity|]; split; [reflexivity|];
      rewrite lookup_insert_ne, !lookup_insert_eq by lia; split_and!; reflexivity ].
Qed.

(** C18: the main closure's start (the body of lines 396-508 up to the
    web server): every output written off in table order ([init]), the
    mode set to idle, the sensor array left [null] with its creation
    armed [SENSOR_SETUP_TIME] ms later, and the strobe started with the
    one interval that follows; the animators are the three given, and no
    skull start, no player and no process exist. *)
Theorem main_spec dog skull1 skull2 c :
  let '(p, c') := main dog skull1 skull2 c in
  c_out c' = c_out c ++ ((fun pl => OGpio pl.1 pl.2) <$> init_writes) /\
  st_mode (c_state c') = idle /\ sensors p = None /\
  dogFlasher p = dog /\ skull1Flasher p = skull1 /\ skull2Flasher p = skull2 /\
  startFlasher1Timeout p = None /\ startFlasher2Timeout p = None /\ playerProcess p = None /\
  Flasher._interval (flasher p) = Some (S (tm_next (c_timers c))) /\
  tm_live (c_timers c') =
    <[S (tm_next (c_timers c)) := mkTimer (tm_now (c_timers c) + FLASH_INTERVAL) (S (tm_next (c_timers c)))
                                     (Some FLASH_INTERVAL) CbFlashOn]>
      (<[tm_next (c_timers c) := mkTimer (tm_now (c_timers c) + SENSOR_SETUP_TIME) (tm_next (c_timers c))
                                   None CbSensorSetup]> (tm_live (c_timers c))) /\
  c_procs c' = c_procs c /\ c_pipe c' = c_pipe c.
Proof.
  unfold main. cbn -[init_writes]. rewrite fold_emit.
  destruct c as [[now live next] [] io out pipe procs pid ex]. by cbn -[init_writes].
Qed.

(** Run every animator call of the goal, keeping its frame law. *)
Ltac anim_steps :=
  repeat (anim_call;
    match goal with
    | F : _ -> ctx_frame _ ?c |- _ =>
        specialize (F ltac:(assumption));
        let Hm := fresh "Hm" in let Hn := fresh "Hn" in let Hs := fresh "Hs" in
        let Hio := fresh "Hio" in let Hpr := fresh "Hpr" in let Hpid := fresh "Hpid" in
        let Hex := fresh "Hex" in let l := fresh "l" in let Hl := fresh "Hl" in
        destruct F as (Hm & Hn & Hs & Hio & Hpr & Hpid & Hex & [l Hl]);
        destruct c as [? [] ? ? ? ? ? ?];
        pose proof (Hs Sensor1); pose proof (Hs Sensor2); pose proof (Hs Sensor3); clear Hs;
        simpl in *; subst
    end).

(** What the controller's handlers leave alone, and what they set, as
    used by the theorems on sequences of handlers. *)
Definition same_inputs (c c' : Ctx) : Prop :=
  c_enabled c' = c_enabled c /\ (forall x, state_sensor x (c_state c') = state_sensor x (c_state c)).

Lemma same_inputs_getState c c' :
  same_inputs c c' ->
  SensorArray.getState_pure (c_enabled c') (c_state c') = SensorArray.getState_pure (c_enabled c) (c_state c).
Proof.
  intros [Hio Hs]. unfold SensorArray.getState_pure. rewrite Hio.
  pose proof (Hs Sensor1). pose proof (Hs Sensor2). pose proof (Hs Sensor3). simpl in *. congruence.
Qed.

(** The parts a handler keeps: the animators' channels and the strobe's
    current channel. *)
Definition same_parts (p p' : t) : Prop :=
  anim_channel (dogFlasher p') = anim_channel (dogFlasher p) /\
  anim_channel (skull1Flasher p') = anim_channel (skull1Flasher p) /\
  anim_channel (skull2Flasher p') = anim_channel (skull2Flasher p) /\
  Flasher._curChannel (flasher p') = Flasher._curChannel (flasher p).

Lemma perf_ok_same_parts p p' : perf_ok p -> same_parts p p' -> perf_ok p'.
Proof. unfold perf_ok. intros (? & ? & ?) (-> & -> & -> & _). done. Qed.

Lemma force_facts r1 r2 p c :
  perf_ok p ->
  let '(p', c') := startPerformance true r1 r2 p c in
  st_mode (c_state c') = run /\ playerProcess p' = Some (c_next_pid c) /\
  c_procs c' = c_procs c ++ [c_next_pid c] /\ c_next_pid c' = S (c_next_pid c) /\
  same_inputs c c' /\ sensors p' = sensors p /\ same_parts p p' /\ c_exited c' = c_exited c.
Proof.
  intros (Hd & H1 & H2). destruct p as [[fi fc] dog s1 s2 t1 t2 pl sn].
  destruct c as [[now live next] [] io out pipe procs pid ex]. simpl in Hd, H1, H2.
  unfold startPerformance. destruct fi; simpl; anim_steps; split_and!; try done.
  all: try (split; [done | intros []; simpl; auto]).
  all: unfold same_parts; simpl; split_and!; congruence.
Qed.

Lemma stop_facts p c :
  perf_ok p ->
  let '(p', c') := stopPerformance p c in
  st_mode (c_state c') = st_mode (c_state c) /\ playerProcess p' = None /\
  c_procs c' = c_procs c /\ c_next_pid c' = c_next_pid c /\
  same_inputs c c' /\ sensors p' = sensors p /\ same_parts p p' /\
  (forall pid, playerProcess p = Some pid -> OQuit pid ∈ c_out c') /\ c_exited c' = c_exited c.
Proof.
  intros (Hd & H1 & H2). destruct p as [[fi fc] dog s1 s2 t1 t2 pl sn].
  destruct c as [[now live next] [] io out pipe procs pid ex]. simpl in Hd, H1, H2.
  unfold stopPerformance.
  destruct pl, fi, t1, t2; simpl; anim_steps; split_and!; try done.
  all: try (split; [done | intros []; simpl; auto]).
  all: try (unfold same_parts; simpl; split_and!; congruence).
  all: intros ? [= <-]; apply list_elem_of_In; rewrite ?Hl, ?Hl0, ?Hl1;
    rewrite <- ?app_assoc; apply in_app_iff; right; simpl; auto.
Qed.

(** The pending skull starts [stopPerformance] cancels: at their
    handles only an animator's timer can be live afterwards. *)
Lemma stop_cancels p c :
  let '(p', c') := stopPerformance p c in
  forall h x, (startFlasher1Timeout p = Some h \/ startFlasher2Timeout p = Some h) ->
    tm_live (c_timers c') !! h = Some x -> anim_cb (t_cb x).
Proof.
  destruct p as [[fi fc] dog s1 s2 t1 t2 pl sn]. unfold stopPerformance.
  destruct pl, fi, t1, t2; simpl;
    repeat match goal with
    | |- context [anim_stop ?a ?c] =>
        let A := fresh "A" in let a' := fresh "a" in let c' := fresh "c" in
        pose proof (anim_stop_adds a c) as A; unfold exec in A;
        destruct (anim_stop a c) as [a' c']; simpl in A
    end; simpl; try (intros h x Hh Hl; destruct Hh as [[= <-]|[= <-]];
    repeat first
      [ match goal with H : ?a <> ?a |- _ => by destruct H end
      | match goal with Hl : delete _ _ !! _ = Some _ |- _ => apply lookup_delete_Some in Hl as [? Hl] end
      | match goal with
        | Hl : tm_live (c_timers ?c) !! _ = Some _, A : ∀ h x, tm_live (c_timers ?c) !! h = Some x -> _ |- _ =>
            let H' := fresh "Hl" in destruct (A _ _ Hl) as [H'|?]; [clear Hl A; simpl in H'|assumption]
        end ]).
  all: destruct (anim_stop _ _); by intros ? ? [[=]|[=]].
Qed.

(** C15: [stopPerformance] ends what a performance started, in any mode:
    the player is told to quit (['q'] on its stdin) and forgotten, then
    the net light is switched off (level 1 on the inverted port) before
    any animator writes; the strobe runs again; the two pending skull
    starts are cancelled (at their handles only an animator's timer can
    be live afterwards) and forgotten; the mode, the sensors and the
    processes are left alone. *)
Theorem stopPerformance_spec p c :
  perf_ok p ->
  let '(p', c') := stopPerformance p c in
  playerProcess p' = None /\ st_lightNet (c_state c') = 0 /\
  st_mode (c_state c') = st_mode (c_state c) /\
  (exists l, c_out c' = c_out c ++
     match playerProcess p with Some pid => [OQuit pid] | None => [] end ++ OGpio lightNet 1 :: l) /\
  is_Some (Flasher._interval (flasher p')) /\
  startFlasher1Timeout p' = None /\ startFlasher2Timeout p' = None /\
  (forall h x, (startFlasher1Timeout p = Some h \/ startFlasher2Timeout p = Some h) ->
     tm_live (c_timers c') !! h = Some x -> anim_cb (t_cb x)) /\
  sensors p' = sensors p /\ c_procs c' = c_procs c /\ c_enabled c' = c_enabled c.
Proof.
  intros (Hd & H1 & H2). generalize (stop_cancels p c).
  destruct p as [[fi fc] dog s1 s2 t1 t2 pl sn].
  destruct c as [[now live next] [] io out pipe procs pid ex]. simpl in Hd, H1, H2.
  unfold stopPerformance.
  destruct pl, fi, t1, t2; simpl; anim_steps; intros Hc; split_and!; try done;
    eexists; rewrite ?Hl, ?Hl0, ?Hl1; simpl; by rewrite <- ?app_assoc.
Qed.

(** The handlers as the event loop runs them, one equation each. *)
Lemma postStart_eq r1 r2 p c :
  postStart r1 r2 p c =
  (let '(p', c') := if decide (st_mode (c_state c) <> run) then startPerformance true r1 r2 p c
                    else (p, c) in ((p', Some RespOK), c')).
Proof.
  unfold postStart. simpl. destruct (decide _); simpl; [|done].
  by destruct (startPerformance true r1 r2 p c).
Qed.

Lemma postStop_eq p c :
  postStop p c =
  (let '(p', c') := if decide (st_mode (c_state c) = run)
                    then let '(p', c') := stopPerformance p c in (p', upd_state (set_mode idle) c')
                    else (p, c) in ((p', Some RespOK), c')).
Proof.
  unfold postStop. simpl. destruct (decide _); simpl; [|done].
  by destruct (stopPerformance p c).
Qed.

Lemma onStartDelay_eq r1 r2 p c a :
  sensors p = Some a ->
  onStartDelay r1 r2 p c =
  if SensorArray.getState_pure (c_enabled c) (c_state c) then startPerformance true r1 r2 p c
  else stopPerformance p (upd_state (set_mode idle) c).
Proof. intros Hs. unfold onStartDelay. rewrite Hs. simpl. by destruct (SensorArray.getState_pure _ _). Qed.

Lemma onPlayerClose_eq p c :
  onPlayerClose p c =
  (let '(p', c') := stopPerformance (set_player p None) c in
   let c'' := upd_state (set_mode cool_down) c' in
   (p', snd (setTimeout CbCoolDownEnd COOL_DOWN_DURATION c''))).
Proof. unfold onPlayerClose. simpl. by destruct (stopPerformance (set_player p None) c). Qed.

Lemma perf_ok_set_player p x : perf_ok p -> perf_ok (set_player p x).
Proof. done. Qed.

(** C12: [POST /stop] does not end in the idle mode.  It tells the player
    to quit and sets the mode to [idle], but the player's [close] handler
    is still registered: when the player exits it runs [stopPerformance]
    again and enters the cool-down, with its [COOL_DOWN_DURATION] timer
    armed. *)
Theorem postStop_then_player_close p c pid :
  perf_ok p -> st_mode (c_state c) = run -> playerProcess p = Some pid ->
  let '((p1, _), c1) := postStop p c in
  st_mode (c_state c1) = idle /\ OQuit pid ∈ c_out c1 /\
  let '(p2, c2) := onPlayerClose p1 c1 in
  st_mode (c_state c2) = cool_down /\
  exists h x, tm_live (c_timers c2) !! h = Some x /\ t_cb x = CbCoolDownEnd /\
              t_due x = (tm_now (c_timers c2) + COOL_DOWN_DURATION)%N.
Proof.
  intros Hp Hm Hpl. rewrite postStop_eq, Hm, decide_True by done.
  pose proof (stop_facts p c Hp) as F1.
  destruct (stopPerformance p c) as [p1 c1].
  destruct F1 as (_ & _ & _ & _ & _ & _ & Hp1 & Hq & _).
  apply (perf_ok_same_parts _ _ Hp) in Hp1.
  split; [by destruct c1 as [? [] ? ? ? ? ? ?] | split; [by apply Hq|]].
  rewrite onPlayerClose_eq.
  pose proof (stop_facts (set_player p1 None) (upd_state (set_mode idle) c1)
                (perf_ok_set_player _ _ Hp1)) as F2.
  destruct (stopPerformance _ _) as [p2 c2].
  destruct c2 as [[now live next] [] ? ? ? ? ? ?]. simpl.
  split; [done|]. eexists _, _. rewrite lookup_insert_eq. done.
Qed.

(** ** The timers each handler arms, and that no handler ends the process *)

(** The closures the controller's handlers arm, the pre-roll's and the
    sensors' apart. *)
Definition perf_cb (cb : Callback) : Prop :=
  anim_cb cb \/ cb = CbFlashOn \/ cb = CbFlashOff \/ cb = CbStartSkull1 \/ cb = CbStartSkull2 \/
  cb = CbCoolDownEnd.

Ltac perf_cb_tac := first [reflexivity | unfold perf_cb; naive_solver].

Ltac perf_adds :=
  repeat first
    [ progress adds_chain perf_cb_tac
    | eapply adds_only_mono; [|apply anim_start_adds]; intros ? ?; by left
    | eapply adds_only_mono; [|apply anim_stop_adds]; intros ? ?; by left ].

Lemma startPerformance_true_adds r1 r2 p : adds_only perf_cb (startPerformance true r1 r2 p).
Proof. unfold startPerformance. perf_adds. Qed.

Lemma startPerformance_false_adds r1 r2 p :
  adds_only (fun cb => cb = CbStartDelay) (startPerformance false r1 r2 p).
Proof. unfold startPerformance. adds_chain ltac:(cbv beta; reflexivity). Qed.

Lemma stopPerformance_adds p : adds_only perf_cb (stopPerformance p).
Proof. unfold stopPerformance. perf_adds. Qed.

Lemma onStartDelay_adds r1 r2 p : adds_only perf_cb (onStartDelay r1 r2 p).
Proof.
  unfold onStartDelay, crash. destruct (sensors p); perf_adds.
Qed.

Lemma onPlayerClose_adds p : adds_only perf_cb (onPlayerClose p).
Proof. unfold onPlayerClose. perf_adds. Qed.

Lemma postStart_adds r1 r2 p : adds_only perf_cb (postStart r1 r2 p).
Proof. unfold postStart. perf_adds. Qed.

Lemma postStop_adds p : adds_only perf_cb (postStop p).
Proof. unfold postStop. perf_adds. Qed.

Lemma keeps_exit_startPerformance r1 r2 p : perf_ok p -> keeps_exit (startPerformance true r1 r2 p).
Proof.
  intros Hp c. unfold exec. pose proof (force_facts r1 r2 p c Hp) as F.
  destruct (startPerformance true r1 r2 p c). by destruct F as (_ & _ & _ & _ & _ & _ & _ & ?).
Qed.

Lemma keeps_exit_stopPerformance p : perf_ok p -> keeps_exit (stopPerformance p).
Proof.
  intros Hp c. unfold exec. pose proof (stop_facts p c Hp) as F.
  destruct (stopPerformance p c). by destruct F as (_ & _ & _ & _ & _ & _ & _ & _ & ?).
Qed.

(** The controller itself sends no PWM command: the commands in flight
    are the animators' alone. *)
Ltac perf_pipe :=
  repeat (pipe_chain; try apply Flasher.strobe_start_pipe; try apply Flasher.strobe_stop_pipe;
          try (progress unfold crash, SensorArray.callback, SensorArray.getState)).

Lemma stopPerformance_pipe p : keeps_pipe (stopPerformance p).
Proof. unfold stopPerformance. perf_pipe. Qed.

Lemma startPerformance_pipe b r1 r2 p : keeps_pipe (startPerformance b r1 r2 p).
Proof. unfold startPerformance. perf_pipe. Qed.

Lemma onStartDelay_pipe r1 r2 p : keeps_pipe (onStartDelay r1 r2 p).
Proof. unfold onStartDelay. perf_pipe. Qed.

Lemma onPlayerClose_pipe p : keeps_pipe (onPlayerClose p).
Proof. unfold onPlayerClose. perf_pipe. Qed.

Lemma onSensorTimeout_pipe p : keeps_pipe (onSensorTimeout p).
Proof. unfold onSensorTimeout. perf_pipe. Qed.

Lemma http_pipe p r1 r2 data :
  keeps_pipe (postStart r1 r2 p) /\ keeps_pipe (postStop p) /\
  keeps_pipe (postEnabled data p) /\ keeps_pipe (getStatus p).
Proof.
  unfold postStart, postStop, postEnabled, getStatus. split_and!; perf_pipe.
Qed.

(** C30: [POST /enabled] sets each flag the request names to whether its
    value is the string ['true'] (any other value, malformed ones
    included, disables it), leaves the other flags, the state and the
    timers alone, and sends no response. *)
Theorem postEnabled_spec data p c :
  let '((p', r), c') := postEnabled data p c in
  p' = p /\ r = None /\ c_state c' = c_state c /\ c_timers c' = c_timers c /\
  forall k, enabled_of k (c_enabled c') =
            match data k with Some v => strict_eq_true v | None => enabled_of k (c_enabled c) end.
Proof.
  destruct c as [tm st [e1 e2 e3 em] out pipe procs pid ex]. simpl.
  split_and!; try done. intros k.
  destruct k; simpl;
    destruct (data key_sensor1), (data key_sensor2), (data key_sensor3), (data key_music); done.
Qed.

(** A JSON body [{"music": true}], as [bodyParser.json()] parses it,
    disables the music: the boolean is not the string ['true']. *)
Example postEnabled_json_true p c :
  en_music (c_enabled (exec (postEnabled (fun k => match k with
                                                   | key_music => Some (bv_bool true)
                                                   | _ => None end) p) c)) = false.
Proof. by destruct c as [tm st [e1 e2 e3 em] out pipe procs pid ex]. Qed.

End Controller.

(** ** The controller with the program's animators *)

Abbreviation SFP := SlowFlasherPigpio.t.
#[local] Existing Instance SlowFlasherPigpio.SlowFlasherPigpio_animator.

Definition perf0 (pl : option nat) : t (A := SFP) :=
  mk Flasher.create SlowFlasherPigpio.dogFlasher SlowFlasherPigpio.skull1Flasher
     SlowFlasherPigpio.skull2Flasher None None pl (Some SensorArray.create).

Lemma perf0_ok pl : perf_ok (perf0 pl).
Proof. split_and!; discriminate. Qed.

Definition Ctx_mode (m : Mode) : Ctx := upd_state (set_mode m) SensorProps.Ctx_sensor1.

(** ** Witnesses *)

Lemma startPerformance_force_witness :
  let '(p', c') := startPerformance true 100 200 (perf0 None) Ctx0 in playerProcess p' = Some 0.
Proof.
  pose proof (startPerformance_force 100 200 (perf0 None) Ctx0 (perf0_ok None)) as H.
  destruct (startPerformance true 100 200 (perf0 None) Ctx0). tauto.
Defined.

Lemma stopPerformance_spec_witness :
  let '(p', c') := stopPerformance (perf0 (Some 0)) (Ctx_mode run) in OQuit 0 ∈ c_out c'.
Proof.
  pose proof (stopPerformance_spec (perf0 (Some 0)) (Ctx_mode run) (perf0_ok _)) as H.
  destruct (stopPerformance (perf0 (Some 0)) (Ctx_mode run)) as [p' c'].
  destruct H as (_ & _ & _ & [l ->] & _). apply list_elem_of_In, in_app_iff. right. by left.
Defined.

Lemma postStop_then_player_close_witness :
  let '((p1, _), c1) := postStop (perf0 (Some 0)) (Ctx_mode run) in
  st_mode (c_state (onPlayerClose p1 c1).2) = cool_down.
Proof.
  pose proof (postStop_then_player_close (perf0 (Some 0)) (Ctx_mode run) 0
                (perf0_ok _) eq_refl eq_refl) as H.
  destruct (postStop (perf0 (Some 0)) (Ctx_mode run)) as [[p1 r] c1].
  destruct H as (_ & _ & H). destruct (onPlayerClose p1 c1). tauto.
Defined.


End Performance.
