(* ===== verification/System.v ===== *)
(** * System: the whole program on the event loop

    [src/halloween.js] as it runs: the main closure (lines 396-587) with
    the three [SlowFlasherPigpio] animators it builds (lines 527-542), on
    Node's event loop.  A [world] is the main closure's variables and the
    context; an [event] is what the loop delivers next:

    - the next timer fires and its closure runs ([ev_fire]; the closure
      of the pre-roll delay draws two [Math.random] offsets, given as
      arguments);
    - a pigpio command completes ([ev_pipe]);
    - a sensor's GPIO reports an edge ([ev_edge]); before the sensor
      array exists no watch is registered and the edge is lost;
    - a player process exits and its [close] handler runs
      ([ev_player_exit]);
    - an HTTP request reaches one of the four routes;
    - the clock advances with no timer due ([ev_wait]);
    - [SIGINT] runs [exit] ([ev_sigint]).

    Nothing runs after [process.exit].  The theorems: the invariant of
    every run and the process ending only on [SIGINT] or an unopenable
    pipe; every command in flight on the pigpio pipe well formed in every
    run; a sensor's edge through its timeout into the pre-roll; and
    what a forced start does to the timers of the pre-roll and of the
    cool-down. *)

From stdpp Require Import gmap.
From Stdlib Require Import NArith String.
From S2P Require Import Prelude Timers Ports Runtime Animator SlowFlasherPigpio Sensors Flasher Performance.

Module System.

#[local] Existing Instance SlowFlasherPigpio.SlowFlasherPigpio_animator.

Abbreviation SFP := SlowFlasherPigpio.t.
Abbreviation P := (@Performance.t SFP).

Record world := mkWorld {
  w_perf : P;                          (** the main closure's variables *)
  w_ctx : Ctx;                         (** shared objects, timers, outputs *)
  w_http : list (option Performance.Response)      (** what each request was answered *)
}.

Inductive event :=
  | ev_fire (r1 r2 : N)
  | ev_pipe (i : nat) (r : PipeResult)
  | ev_edge (x : Sensor) (data : bool)
  | ev_player_exit (pid : nat)
  | ev_post_start (r1 r2 : N)
  | ev_post_stop
  | ev_post_enabled (data : Performance.IOKey -> option Performance.BodyValue)
  | ev_get_status
  | ev_wait (t : N)
  | ev_sigint.

(** The closure of an animator, found by the channel it was built for. *)
Definition on_animator (ch : PortName) (k : SFP -> M SFP) (p : P) : M P :=
  if decide (ch = lightDog) then a <- k (Performance.dogFlasher p) ;; ret (Performance.set_dog p a)
  else if decide (ch = lightSkull1) then a <- k (Performance.skull1Flasher p) ;; ret (Performance.set_skull1 p a)
  else if decide (ch = lightSkull2) then a <- k (Performance.skull2Flasher p) ;; ret (Performance.set_skull2 p a)
  else ret p.

(** The closure a timer holds, run. *)
Definition on_timer (r1 r2 : N) (cb : Callback) (p : P) : M P :=
  match cb with
  | CbSensorTimeout _ => Performance.onSensorTimeout p
  | CbFlashOn | CbFlashOff =>
      fl <- Flasher.on_timer (Performance.flasher p) cb ;; ret (Performance.set_flasher p fl)
  | CbSFPTransitionStep ch | CbSFPRunTransition ch =>
      on_animator ch (fun a => SlowFlasherPigpio.on_timer a cb) p
  | CbSFTransitionStep _ | CbSFChannelOn _ | CbSFChannelOff _ | CbSFRunTransition _ => ret p
  | CbStartSkull1 => Performance.onStartSkull1 p
  | CbStartSkull2 => Performance.onStartSkull2 p
  | CbStartDelay => Performance.onStartDelay r1 r2 p
  | CbCoolDownEnd => Performance.onCoolDownEnd p
  | CbSensorSetup => Performance.onSensorSetup p
  end.

(** [exit()]: every output port written off synchronously, then
    [process.exit()]. *)
Definition sigint (c : Ctx) : Ctx :=
  let c := fold_left (fun c pl => emit (OGpio pl.1 pl.2) c) exit_writes c in
  mkCtx (c_timers c) (c_state c) (c_enabled c) (c_out c) (c_pipe c) (c_procs c) (c_next_pid c) true.

(** Whether no timer is due before [t]. *)
Definition quiet_until (t : N) (tm : timers Callback) : bool :=
  (tm_now tm <=? t)%N &&
  match next_timer tm with Some (_, x) => (t <=? t_due x)%N | None => true end.

Definition answer (w : world) (pr : P * option Performance.Response) (c : Ctx) : world :=
  mkWorld pr.1 c (w_http w ++ [pr.2]).

Definition sys_step (e : event) (w : world) : option world :=
  let p := w_perf w in
  let c := w_ctx w in
  if c_exited c then None else
  match e with
  | ev_fire r1 r2 =>
      match fire_timer (c_timers c) with
      | Some (_, cb, tm') =>
          let '(p', c') := on_timer r1 r2 cb p (upd_timers (fun _ => tm') c) in
          Some (mkWorld p' c' (w_http w))
      | None => None
      end
  | ev_pipe i r =>
      match pipe_complete i r c with
      | Some (Some (PcEndTransition ch, err), c') =>
          let '(p', c'') := on_animator ch (fun a => SlowFlasherPigpio.endTansition a err) p c' in
          Some (mkWorld p' c'' (w_http w))
      | Some (None, c') => Some (mkWorld p c' (w_http w))
      | None => None
      end
  | ev_edge x b =>
      match Performance.sensors p with
      | Some a =>
          let '(a', c') := SensorArray.on_edge a x b c in
          Some (mkWorld (Performance.set_sensors p (Some a')) c' (w_http w))
      | None => Some w
      end
  | ev_player_exit pid =>
      if bool_decide (pid ∈ c_procs c) then
        let c' := upd_procs (filter (fun q => q <> pid)) c in
        let '(p', c'') := Performance.onPlayerClose p c' in
        Some (mkWorld p' c'' (w_http w))
      else None
  | ev_post_start r1 r2 => let '(pr, c') := Performance.postStart r1 r2 p c in Some (answer w pr c')
  | ev_post_stop => let '(pr, c') := Performance.postStop p c in Some (answer w pr c')
  | ev_post_enabled data => let '(pr, c') := Performance.postEnabled data p c in Some (answer w pr c')
  | ev_get_status => let '(pr, c') := Performance.getStatus p c in Some (answer w pr c')
  | ev_wait t =>
      if quiet_until t (c_timers c) then Some (mkWorld p (upd_timers (advance t) c) (w_http w))
      else None
  | ev_sigint => Some (mkWorld p (sigint c) (w_http w))
  end.

Fixpoint sys_run (es : list event) (w : world) : option world :=
  match es with
  | [] => Some w
  | e :: es => match sys_step e w with Some w' => sys_run es w' | None => None end
  end.

(** The program's start: the main closure on a fresh context at time 0. *)
Definition boot : world :=
  let '(p, c) := Performance.main SlowFlasherPigpio.dogFlasher SlowFlasherPigpio.skull1Flasher
                   SlowFlasherPigpio.skull2Flasher Ctx0 in
  mkWorld p c [].

(** ** The program never ends itself on a timer, an edge or a request

    The code has two ways to end the process besides [SIGINT] and a
    pigpio pipe that cannot be opened: the [TypeError] of the pre-roll's
    closure when [sensors] is still [null], and the [TypeError] of the
    strobe when [_curChannel] is neither 1 nor 2.  The invariant shows
    both unreachable: the strobe's channel stays valid, the animators
    keep their lights, and a timer whose closure reads [sensors] (the
    pre-roll and the sensors' timeouts) is live only once the array
    exists. *)

Definition needs_sensors (cb : Callback) : Prop := cb = CbStartDelay \/ exists x, cb = CbSensorTimeout x.

Definition parts_ok (p : P) : Prop :=
  SlowFlasherPigpio.channelName (Performance.dogFlasher p) = lightDog /\
  SlowFlasherPigpio.channelName (Performance.skull1Flasher p) = lightSkull1 /\
  SlowFlasherPigpio.channelName (Performance.skull2Flasher p) = lightSkull2 /\
  Flasher._curChannel (Performance.flasher p) ∈ [1; 2].

Definition timers_ok (p : P) (live : gmap nat (timer Callback)) : Prop :=
  forall h x, live !! h = Some x -> needs_sensors (t_cb x) -> is_Some (Performance.sensors p).

Definition sys_inv (w : world) : Prop :=
  parts_ok (w_perf w) /\ timers_ok (w_perf w) (tm_live (c_timers (w_ctx w))).

(** What a handler run on [p] must do for the invariant to hold after it. *)
Definition handler_ok (p : P) (m : M P) : Prop :=
  adds_only (fun cb => needs_sensors cb -> is_Some (Performance.sensors p)) m /\
  forall c, parts_ok (eval m c) /\
            (is_Some (Performance.sensors p) -> is_Some (Performance.sensors (eval m c))) /\
            c_exited (exec m c) = c_exited c.

Lemma handler_ok_inv p m c :
  timers_ok p (tm_live (c_timers c)) -> handler_ok p m ->
  let '(p', c') := m c in parts_ok p' /\ timers_ok p' (tm_live (c_timers c')) /\ c_exited c' = c_exited c.
Proof.
  intros Ht [Ha Hf]. specialize (Hf c). specialize (Ha c). unfold eval, exec in *.
  destruct (m c) as [p' c']; simpl in *. destruct Hf as (Hp & Hs & He).
  split_and!; [done | | done]. intros h x Hx Hn.
  destruct (Ha h x Hx) as [Hx'|Hq]; apply Hs; [by apply (Ht h x) | by apply Hq].
Qed.

Lemma parts_ok_perf_ok p : parts_ok p -> Performance.perf_ok p.
Proof. intros (Hd & H1 & H2 & _). unfold Performance.perf_ok. simpl. by rewrite Hd, H1, H2. Qed.

Lemma parts_ok_same p p' : parts_ok p -> Performance.same_parts p p' -> parts_ok p'.
Proof. intros (? & ? & ? & ?) (? & ? & ? & ?). unfold parts_ok. simpl in *. split_and!; congruence. Qed.

Lemma perf_cb_not_needs cb : @Performance.perf_cb SFP _ cb -> needs_sensors cb -> False.
Proof.
  unfold Performance.perf_cb. simpl. unfold SlowFlasherPigpio.arms.
  intros Hcb Hn. destruct Hn as [-> | [y ->]];
    destruct Hcb as [[ch [Hc|Hc]]|Hcb]; try discriminate; repeat destruct Hcb as [Hcb|Hcb]; discriminate.
Qed.

Lemma adds_perf_cb (p : P) (m : M P) :
  adds_only (@Performance.perf_cb SFP _) m -> adds_only (fun cb => needs_sensors cb -> is_Some (Performance.sensors p)) m.
Proof. apply adds_only_mono. intros cb Hcb Hn. by destruct (perf_cb_not_needs cb). Qed.

Lemma handler_ok_ret p : parts_ok p -> handler_ok p (ret p).
Proof. intros Hp. split; [apply adds_only_ret | done]. Qed.

Lemma handler_ok_force r1 r2 p : parts_ok p -> handler_ok p (Performance.startPerformance true r1 r2 p).
Proof.
  intros Hp. split; [apply adds_perf_cb, Performance.startPerformance_true_adds|]. intros c.
  pose proof (Performance.force_facts r1 r2 p c (parts_ok_perf_ok p Hp)) as F. unfold eval, exec.
  destruct (Performance.startPerformance true r1 r2 p c) as [p' c']; simpl.
  destruct F as (_ & _ & _ & _ & _ & -> & Hs & ->). split_and!; try done. by apply (parts_ok_same p).
Qed.

Lemma handler_ok_stop p : parts_ok p -> handler_ok p (Performance.stopPerformance p).
Proof.
  intros Hp. split; [apply adds_perf_cb, Performance.stopPerformance_adds|]. intros c.
  pose proof (Performance.stop_facts p c (parts_ok_perf_ok p Hp)) as F. unfold eval, exec.
  destruct (Performance.stopPerformance p c) as [p' c']; simpl.
  destruct F as (_ & _ & _ & _ & _ & -> & Hs & _ & ->). split_and!; try done. by apply (parts_ok_same p).
Qed.

(** Changes of the context around a handler that keep the invariant:
    they end nothing and arm no closure that reads [sensors]. *)
Definition ctx_ok (f : Ctx -> Ctx) : Prop :=
  forall c, c_exited (f c) = c_exited c /\
    forall h x, tm_live (c_timers (f c)) !! h = Some x ->
      tm_live (c_timers c) !! h = Some x \/ ~ needs_sensors (t_cb x).

Lemma ctx_ok_upd_state g : ctx_ok (upd_state g).
Proof. intros c. split; [done|]. intros h x Hx. by left. Qed.

Lemma ctx_ok_cool_down : ctx_ok (fun c => snd (setTimeout CbCoolDownEnd COOL_DOWN_DURATION c)).
Proof.
  intros c. split; [done|]. intros h x. simpl.
  destruct (decide (h = tm_next (c_timers c))) as [->|Hne].
  - rewrite lookup_insert_eq. intros [= <-]. right. simpl. by intros [? | [? ?]].
  - rewrite lookup_insert_ne by done. by left.
Qed.

Lemma handler_ok_ext p m m' : (forall c, m c = m' c) -> handler_ok p m -> handler_ok p m'.
Proof.
  intros E [Ha Hf]. split.
  - intros c h x. unfold exec. rewrite <- E. apply Ha.
  - intros c. unfold eval, exec. rewrite <- E. apply Hf.
Qed.

Lemma handler_ok_case p (Pc : Ctx -> Prop) (dec : forall c, Decision (Pc c)) m1 m2 :
  handler_ok p m1 -> handler_ok p m2 -> handler_ok p (fun c => if decide (Pc c) then m1 c else m2 c).
Proof.
  intros [Ha1 Hf1] [Ha2 Hf2]. split.
  - intros c h x. unfold exec. destruct (decide (Pc c)); [apply Ha1 | apply Ha2].
  - intros c. unfold eval, exec. destruct (decide (Pc c)); [apply Hf1 | apply Hf2].
Qed.

Lemma handler_ok_case_bool p (b : Ctx -> bool) m1 m2 :
  handler_ok p m1 -> handler_ok p m2 -> handler_ok p (fun c => if b c then m1 c else m2 c).
Proof.
  intros [Ha1 Hf1] [Ha2 Hf2]. split.
  - intros c h x. unfold exec. destruct (b c); [apply Ha1 | apply Ha2].
  - intros c. unfold eval, exec. destruct (b c); [apply Hf1 | apply Hf2].
Qed.

Lemma handler_ok_pre p f m : ctx_ok f -> handler_ok p m -> handler_ok p (fun c => m (f c)).
Proof.
  intros Hf0 [Ha Hf]. split.
  - intros c h x Hx. destruct (Ha (f c) h x Hx) as [Hx'|Hq]; [|by right].
    destruct (Hf0 c) as [_ Hl]. destruct (Hl h x Hx') as [?|Hn]; [by left | right; by intros ?%Hn].
  - intros c. destruct (Hf (f c)) as (? & ? & He). split_and!; try done.
    unfold exec in *. rewrite He. apply Hf0.
Qed.

Lemma handler_ok_post p f m :
  ctx_ok f -> handler_ok p m -> handler_ok p (fun c => let '(p', c') := m c in (p', f c')).
Proof.
  intros Hf0 [Ha Hf]. split.
  - intros c h x. unfold exec. specialize (Ha c h x). unfold exec in Ha.
    destruct (m c) as [p' c']; simpl in *. intros Hx.
    destruct (Hf0 c') as [_ Hl]. destruct (Hl h x Hx) as [Hx'|Hn]; [by apply Ha | right; by intros ?%Hn].
  - intros c. specialize (Hf c). unfold eval, exec in *. destruct (m c) as [p' c']; simpl in *.
    destruct Hf as (? & ? & He). split_and!; try done. rewrite <- He. apply Hf0.
Qed.

Lemma handler_ok_onStartDelay r1 r2 p a :
  parts_ok p -> Performance.sensors p = Some a -> handler_ok p (Performance.onStartDelay r1 r2 p).
Proof.
  intros Hp Hs.
  eapply handler_ok_ext; [intros c; symmetry; apply (Performance.onStartDelay_eq _ _ _ _ a Hs)|].
  apply (handler_ok_case_bool p (fun c => SensorArray.getState_pure (c_enabled c) (c_state c))
           (Performance.startPerformance true r1 r2 p) (fun c => Performance.stopPerformance p (upd_state (set_mode idle) c))).
  - by apply handler_ok_force.
  - apply handler_ok_pre; [apply ctx_ok_upd_state | by apply handler_ok_stop].
Qed.

Lemma handler_ok_onPlayerClose p : parts_ok p -> handler_ok p (Performance.onPlayerClose p).
Proof.
  intros Hp. eapply handler_ok_ext; [intros c; symmetry; apply Performance.onPlayerClose_eq|].
  eapply handler_ok_post with (f := fun c => snd (setTimeout CbCoolDownEnd COOL_DOWN_DURATION (upd_state (set_mode cool_down) c))).
  - intros c. destruct (ctx_ok_cool_down (upd_state (set_mode cool_down) c)) as [He Hl]. split; [done|].
    intros h x Hx. destruct (Hl h x Hx) as [Hx'|Hn]; [by left | by right].
  - apply (handler_ok_stop (Performance.set_player p None)). done.
Qed.

Lemma handler_ok_onSensorTimeout p : parts_ok p -> is_Some (Performance.sensors p) ->
  handler_ok p (Performance.onSensorTimeout p).
Proof.
  intros Hp Hs. split.
  - unfold Performance.onSensorTimeout. apply adds_only_bind; [by apply adds_only_timers_same | intros b].
    apply adds_only_if; [|apply adds_only_ret].
    eapply adds_only_mono; [|apply Performance.startPerformance_false_adds]. by intros cb -> _.
  - intros c. unfold Performance.onSensorTimeout, Performance.startPerformance. simpl.
    destruct (SensorArray.getState_pure _ _); simpl; [destruct (decide _)|]; simpl; done.
Qed.

(** The two randomly delayed skull starts: each starts one animator. *)
Ltac skull_start_ok :=
  let Hp := fresh "Hp" in let Hch := fresh "Hch" in let Hfr := fresh "Hfr" in
  intros Hp; split;
  [ apply adds_only_bind; [|intros; apply adds_only_ret];
    eapply adds_only_mono; [|apply SlowFlasherPigpio.start_adds];
    intros cb Hcb Hn; by destruct (perf_cb_not_needs cb); [left|]
  | intros c; destruct Hp as (Hd & H1 & H2 & Hf); unfold eval, exec; simpl;
    match goal with
    | |- context [SlowFlasherPigpio.start ?a c] =>
        pose proof (SlowFlasherPigpio.start_channel a c) as Hch;
        pose proof (SlowFlasherPigpio.start_frame a c ltac:(by rewrite ?H1, ?H2)) as Hfr;
        destruct (SlowFlasherPigpio.start a c) as [a' c']
    end; simpl in *;
    split_and!; [unfold parts_ok; simpl; split_and!; congruence | done | apply Hfr] ].

Lemma handler_ok_onStartSkull1 p : parts_ok p -> handler_ok p (Performance.onStartSkull1 p).
Proof. unfold Performance.onStartSkull1. skull_start_ok. Qed.

Lemma handler_ok_onStartSkull2 p : parts_ok p -> handler_ok p (Performance.onStartSkull2 p).
Proof. unfold Performance.onStartSkull2. skull_start_ok. Qed.

Lemma handler_ok_flash cb p : parts_ok p ->
  handler_ok p (fl <- Flasher.on_timer (Performance.flasher p) cb ;; ret (Performance.set_flasher p fl)).
Proof.
  intros Hp. split.
  - apply adds_only_bind; [|intros; apply adds_only_ret].
    eapply adds_only_mono; [|apply Flasher.strobe_on_timer_adds]. by intros ? -> [? | [? ?]].
  - intros c. destruct Hp as (Hd & H1 & H2 & Hf). unfold eval, exec. simpl.
    pose proof (Flasher.strobe_on_timer_channel _ cb c Hf) as Hf'.
    pose proof (Flasher.strobe_on_timer_keeps _ cb Hf c) as He. unfold exec in He.
    destruct (Flasher.on_timer _ cb c) as [fl c']. simpl in *. by split_and!.
Qed.

(** An animator's closure, run on the animator of its channel. *)
Lemma handler_ok_animator ch (k : SFP -> M SFP) p : parts_ok p ->
  (forall a, adds_only SlowFlasherPigpio.arms (k a)) ->
  (forall a c, SlowFlasherPigpio.channelName a ∈ anim_lights ->
     SlowFlasherPigpio.channelName (k a c).1 = SlowFlasherPigpio.channelName a) ->
  (forall a, keeps_exit (k a)) ->
  handler_ok p (on_animator ch k p).
Proof.
  intros Hp Ha Hch He. split.
  - unfold on_animator. repeat destruct (decide _); try apply adds_only_ret.
    all: apply adds_only_bind; [|intros; apply adds_only_ret].
    all: eapply adds_only_mono; [|apply Ha]; intros cb Hcb Hn; by destruct (perf_cb_not_needs cb); [left|].
  - intros c. destruct Hp as (Hd & H1 & H2 & Hf). unfold on_animator, eval, exec.
    repeat destruct (decide _); simpl; try (by split_and!);
    match goal with |- context [k ?a c] =>
      pose proof (Hch a c) as Hc; pose proof (He a c) as Hx; unfold exec in Hx;
      destruct (k a c) as [a' c']; simpl in *
    end;
    (split_and!; [unfold parts_ok; simpl; split_and!; try done | done | done]);
    rewrite Hc; try done; rewrite ?Hd, ?H1, ?H2; first [by left | by right; left | by right; right; left].
Qed.

Lemma handler_ok_on_timer r1 r2 cb p :
  parts_ok p -> (needs_sensors cb -> is_Some (Performance.sensors p)) -> handler_ok p (on_timer r1 r2 cb p).
Proof.
  intros Hp Hn. destruct cb; cbn [on_timer].
  - apply handler_ok_onSensorTimeout; [done | apply Hn; right; by eexists].
  - by apply handler_ok_flash.
  - by apply handler_ok_flash.
  - by apply handler_ok_ret.
  - by apply handler_ok_ret.
  - by apply handler_ok_ret.
  - by apply handler_ok_ret.
  - apply handler_ok_animator; try done.
    + intros; apply SlowFlasherPigpio.on_timer_adds.
    + intros; apply SlowFlasherPigpio.on_timer_channel.
    + intros; apply SlowFlasherPigpio.on_timer_keeps.
  - apply handler_ok_animator; try done.
    + intros; apply SlowFlasherPigpio.on_timer_adds.
    + intros; apply SlowFlasherPigpio.on_timer_channel.
    + intros; apply SlowFlasherPigpio.on_timer_keeps.
  - by apply handler_ok_onStartSkull1.
  - by apply handler_ok_onStartSkull2.
  - destruct (Hn (or_introl eq_refl)) as [a Ha]. by apply (handler_ok_onStartDelay _ _ _ a).
  - split; [by apply adds_only_timers_same | done].
  - split; [apply adds_only_ret | done].
Qed.

Lemma timers_ok_fire p tm h cb tm' :
  timers_ok p (tm_live tm) -> fire_timer tm = Some (h, cb, tm') ->
  timers_ok p (tm_live tm') /\ (needs_sensors cb -> is_Some (Performance.sensors p)).
Proof.
  intros Ht (x & Hx & -> & _ & ->)%fire_timer_spec. split; [|by apply (Ht h x)].
  intros h' x'. simpl. destruct (t_period x) as [q|].
  - destruct (decide (h' = h)) as [->|Hne].
    + rewrite lookup_insert_eq. intros [= <-]. by apply (Ht h x).
    + rewrite lookup_insert_ne by done. apply Ht.
  - destruct (decide (h' = h)) as [->|Hne]; [by rewrite lookup_delete_eq|].
    rewrite lookup_delete_ne by done. apply Ht.
Qed.

Lemma fold_emit_timers l c :
  c_timers (fold_left (fun c pl => emit (OGpio pl.1 pl.2) c) l c) = c_timers c.
Proof. revert c. induction l as [|pl l IH]; intros c; simpl; [done|]. by rewrite IH. Qed.

Lemma sigint_timers c : c_timers (sigint c) = c_timers c.
Proof. apply fold_emit_timers. Qed.

Lemma handler_ok_world (p : P) m c http :
  sys_inv (mkWorld p c http) -> handler_ok p m ->
  let '(p', c') := m c in sys_inv (mkWorld p' c' http) /\ c_exited c' = c_exited c.
Proof.
  intros [Hp Ht] Hm. pose proof (handler_ok_inv p m c Ht Hm) as H.
  destruct (m c). unfold sys_inv. simpl. tauto.
Qed.

(** Every event keeps the invariant, and only [SIGINT] and a pigpio pipe
    that cannot be opened end the process. *)
Lemma sys_step_inv e w w' :
  sys_inv w -> sys_step e w = Some w' ->
  sys_inv w' /\ (c_exited (w_ctx w') = true -> e = ev_sigint \/ exists i, e = ev_pipe i pipe_open_error).
Proof.
  destruct w as [p c http]. intros Hi. pose proof Hi as [Hp Ht]. simpl in Hp, Ht.
  unfold sys_step. simpl. destruct (c_exited c) eqn:Ex; [discriminate|].
  destruct e as [r1 r2|i r|x b|pid|r1 r2| |data| |t|].
  - destruct (fire_timer (c_timers c)) as [[[h cb] tm']|] eqn:Ef; [|discriminate].
    apply timers_ok_fire with (p := p) in Ef as [Ht' Hn]; [|done].
    pose proof (handler_ok_world p (on_timer r1 r2 cb p) (upd_timers (fun _ => tm') c) http
                  (conj Hp Ht') (handler_ok_on_timer r1 r2 cb p Hp Hn)) as H.
    destruct (on_timer r1 r2 cb p _) as [p' c']. intros [= <-]. destruct H as [H1 H2].
    split; [done|]. simpl. rewrite H2. simpl. by rewrite Ex.
  - destruct (pipe_complete i r c) as [[o c']|] eqn:Ep; [|discriminate].
    apply pipe_complete_ctx in Ep as (Htm & _ & Hex & Ho & _).
    assert (Hi' : sys_inv (mkWorld p c' http)) by (split; [done | simpl; by rewrite Htm]).
    destruct o as [[[ch] err]|].
    + assert (r <> pipe_open_error) as Hr by (intros Hr; by specialize (Ho Hr)).
      pose proof (handler_ok_world p (on_animator ch (fun a => SlowFlasherPigpio.endTansition a err) p) c' http Hi'
                    (handler_ok_animator ch _ p Hp (fun a => SlowFlasherPigpio.endTansition_adds a err)
                       (fun a c0 H => SlowFlasherPigpio.endTansition_channel a err c0 H)
                       (fun a => SlowFlasherPigpio.endTansition_keeps a err))) as H.
      destruct (on_animator _ _ p c') as [p' c'']. intros [= <-]. destruct H as [H1 H2].
      split; [done|]. simpl. rewrite H2, (Hex Hr), Ex. done.
    + intros [= <-]. split; [done|]. simpl. intros He. right. exists i.
      destruct r; try done; rewrite (Hex ltac:(done)), Ex in He; discriminate.
  - destruct (Performance.sensors p) as [a|] eqn:Es; [|intros [= <-]; split; [done | simpl; by rewrite Ex]].
    pose proof (SensorArray.on_edge_keeps a x b c) as Hk. unfold exec in Hk.
    destruct (SensorArray.on_edge a x b c) as [a' c'] eqn:E. intros [= <-]. simpl in *.
    split; [split; [done | intros ? ? _ _; by eexists] | by rewrite Hk, Ex].
  - destruct (bool_decide _); [|discriminate].
    assert (Hi' : sys_inv (mkWorld p (upd_procs (filter (fun q => q <> pid)) c) http)) by done.
    pose proof (handler_ok_world p _ _ http Hi' (handler_ok_onPlayerClose p Hp)) as H.
    destruct (Performance.onPlayerClose p _) as [p' c'']. intros [= <-]. destruct H as [H1 H2].
    split; [done|]. simpl. rewrite H2. simpl. by rewrite Ex.
  - rewrite Performance.postStart_eq.
    pose proof (handler_ok_world p _ c http Hi
                  (handler_ok_case p (fun c => st_mode (c_state c) <> run) _ _ _
                     (handler_ok_force r1 r2 p Hp) (handler_ok_ret p Hp))) as H. cbv beta in H.
    destruct (if decide _ then _ else _) as [p' c']. intros [= <-]. destruct H as [H1 H2].
    split; [done|]. simpl. by rewrite H2, Ex.
  - rewrite Performance.postStop_eq.
    pose proof (handler_ok_world p _ c http Hi
                  (handler_ok_case p (fun c => st_mode (c_state c) = run) _ _ _
                     (handler_ok_post p _ _ (ctx_ok_upd_state (set_mode idle)) (handler_ok_stop p Hp))
                     (handler_ok_ret p Hp))) as H. cbv beta in H.
    destruct (if decide _ then _ else _) as [p' c']. intros [= <-]. destruct H as [H1 H2].
    split; [done|]. simpl. by rewrite H2, Ex.
  - intros [= <-]. split; [done | simpl; by rewrite Ex].
  - intros [= <-]. split; [done | simpl; by rewrite Ex].
  - destruct (quiet_until t (c_timers c)); [|discriminate]. intros [= <-].
    split; [done | simpl; by rewrite Ex].
  - intros [= <-]. split; [split; [done | cbn [w_ctx w_perf]; rewrite sigint_timers; apply Ht] | by left].
Qed.

Definition reads_sensors (cb : Callback) : bool :=
  match cb with CbStartDelay | CbSensorTimeout _ => true | _ => false end.

Lemma needs_sensors_reads cb : needs_sensors cb -> reads_sensors cb = true.
Proof. by intros [-> | [x ->]]. Qed.

Lemma boot_inv : sys_inv boot.
Proof.
  split; [split_and!; [done | done | done | by left] |].
  assert (Hb : map_Forall (fun _ x => reads_sensors (t_cb x) = false) (tm_live (c_timers (w_ctx boot))))
    by (apply (bool_decide_unpack _); vm_compute; reflexivity).
  intros h x Hx Hn%needs_sensors_reads. specialize (Hb h x Hx). simpl in Hb. congruence.
Qed.

Lemma sys_run_inv es w w' :
  sys_inv w -> sys_run es w = Some w' ->
  sys_inv w' /\ (c_exited (w_ctx w') = true ->
                 c_exited (w_ctx w) = true \/ ev_sigint ∈ es \/ exists i, ev_pipe i pipe_open_error ∈ es).
Proof.
  revert w. induction es as [|e es IH]; intros w Hi Hr; simpl in Hr.
  - injection Hr as <-. split; [done | by left].
  - destruct (sys_step e w) as [w1|] eqn:Hs; [|discriminate].
    destruct (sys_step_inv e w w1 Hi Hs) as [Hi1 Hx1].
    destruct (IH w1 Hi1 Hr) as [Hi' Hx']. split; [done|]. intros He.
    destruct (Hx' He) as [He1 | [Hsig | [i Hp]]].
    + destruct (Hx1 He1) as [-> | [i ->]]; right; [left; by left | right; exists i; by left].
    + right; left; by right.
    + right; right; exists i; by right.
Qed.

(** ** The commands on the pigpio pipe are well formed

    Only an animator's ramp tick sends a command: every other handler
    keeps the commands in flight ([keeps_pipe]); a tick of an animated
    light sends a well-formed one ([transitionStep_typed]), and a
    completion removes one. *)

Definition in_flight_ok (w : world) : Prop := Forall pwm_typed (c_pipe (w_ctx w)).

Lemma keeps_pipe_typed {A} (m : M A) c :
  keeps_pipe m -> Forall pwm_typed (c_pipe c) -> Forall pwm_typed (c_pipe (exec m c)).
Proof. intros Hm. by rewrite Hm. Qed.

Lemma on_animator_typed ch (k : SFP -> M SFP) p c :
  parts_ok p ->
  (forall a c, SlowFlasherPigpio.channelName a ∈ anim_lights ->
     Forall pwm_typed (c_pipe c) -> Forall pwm_typed (c_pipe (exec (k a) c))) ->
  Forall pwm_typed (c_pipe c) -> Forall pwm_typed (c_pipe (exec (on_animator ch k p) c)).
Proof.
  intros (Hd & H1 & H2 & _) Hk Hc. unfold on_animator.
  repeat case_decide; rewrite ?exec_bind; try done; apply Hk; try done;
    rewrite ?Hd, ?H1, ?H2; first [by left | by right; left | by right; right; left].
Qed.

Lemma on_timer_typed r1 r2 cb p c :
  parts_ok p -> Forall pwm_typed (c_pipe c) -> Forall pwm_typed (c_pipe (exec (on_timer r1 r2 cb p) c)).
Proof.
  intros Hp Hc. destruct cb; cbn [on_timer];
    first [ apply on_animator_typed; [done | intros ? ? ?; by apply SlowFlasherPigpio.animator_on_timer_typed | done]
          | apply keeps_pipe_typed; [|done] ];
    first [ apply Performance.onSensorTimeout_pipe | apply Performance.onStartDelay_pipe
          | apply keeps_pipe_bind; [apply Flasher.strobe_on_timer_pipe | intros; apply keeps_pipe_ret]
          | pipe_chain ].
Qed.

Lemma fold_emit_pipe l c :
  c_pipe (fold_left (fun c pl => emit (OGpio pl.1 pl.2) c) l c) = c_pipe c.
Proof. revert c. induction l as [|pl l IH]; intros c; simpl; [done|]. by rewrite IH. Qed.

Lemma sigint_pipe c : c_pipe (sigint c) = c_pipe c.
Proof. apply fold_emit_pipe. Qed.

Lemma sys_step_typed e w w' :
  sys_inv w -> in_flight_ok w -> sys_step e w = Some w' -> in_flight_ok w'.
Proof.
  destruct w as [p c http]. intros [Hp _] Hc. unfold in_flight_ok in *. simpl in Hc.
  unfold sys_step. simpl. destruct (c_exited c); [discriminate|].
  destruct e as [r1 r2|i r|x b|pid|r1 r2| |data| |t|].
  - destruct (fire_timer (c_timers c)) as [[[h cb] tm']|]; [|discriminate].
    pose proof (on_timer_typed r1 r2 cb p (upd_timers (fun _ => tm') c) Hp Hc) as H. unfold exec in H.
    destruct (on_timer r1 r2 cb p _) as [p' c']. by intros [= <-].
  - destruct (pipe_complete i r c) as [[o c']|] eqn:Ep; [|discriminate].
    assert (Hc' : Forall pwm_typed (c_pipe c')).
    { rewrite (pipe_complete_pipe i r c o c' Ep).
      apply Forall_app; split; [by apply Forall_take | by apply Forall_drop]. }
    destruct o as [[[ch] err]|]; [|by intros [= <-]].
    pose proof (on_animator_typed ch (fun a => SlowFlasherPigpio.endTansition a err) p c' Hp
                  (fun a c0 _ H => keeps_pipe_typed _ c0 (SlowFlasherPigpio.endTansition_pipe a err) H) Hc') as H.
    unfold exec in H. destruct (on_animator _ _ p c') as [p' c'']. by intros [= <-].
  - destruct (Performance.sensors p) as [a|]; [|by intros [= <-]].
    pose proof (keeps_pipe_typed _ c (SensorArray.on_edge_pipe a x b) Hc) as H. unfold exec in H.
    destruct (SensorArray.on_edge a x b c) as [a' c']. by intros [= <-].
  - destruct (bool_decide _); [|discriminate].
    pose proof (keeps_pipe_typed _ (upd_procs (filter (fun q => q <> pid)) c)
                  (Performance.onPlayerClose_pipe p) Hc) as H. unfold exec in H.
    destruct (Performance.onPlayerClose p _) as [p' c'']. by intros [= <-].
  - pose proof (keeps_pipe_typed _ c (proj1 (Performance.http_pipe p r1 r2 (fun _ => None))) Hc) as H.
    unfold exec in H. destruct (Performance.postStart r1 r2 p c) as [pr c']. by intros [= <-].
  - pose proof (keeps_pipe_typed _ c (proj1 (proj2 (Performance.http_pipe p 0 0 (fun _ => None)))) Hc) as H.
    unfold exec in H. destruct (Performance.postStop p c) as [pr c']. by intros [= <-].
  - pose proof (keeps_pipe_typed _ c (proj1 (proj2 (proj2 (Performance.http_pipe p 0 0 data)))) Hc) as H.
    unfold exec in H. destruct (Performance.postEnabled data p c) as [pr c']. by intros [= <-].
  - pose proof (keeps_pipe_typed _ c (proj2 (proj2 (proj2 (Performance.http_pipe p 0 0 (fun _ => None))))) Hc) as H.
    unfold exec in H. destruct (Performance.getStatus p c) as [pr c']. by intros [= <-].
  - destruct (quiet_until t (c_timers c)); [|discriminate]. by intros [= <-].
  - intros [= <-]. cbn [w_ctx]. by rewrite sigint_pipe.
Qed.

Lemma boot_in_flight : in_flight_ok boot.
Proof.
  unfold in_flight_ok. replace (c_pipe (w_ctx boot)) with (@nil (PwmCmd * option PwmCallback))
    by (vm_compute; reflexivity). constructor.
Qed.

Lemma sys_run_typed es w w' :
  sys_inv w -> in_flight_ok w -> sys_run es w = Some w' -> in_flight_ok w'.
Proof.
  revert w. induction es as [|e es IH]; intros w Hi Hc Hr; simpl in Hr; [by injection Hr as <-|].
  destruct (sys_step e w) as [w1|] eqn:Hs; [|discriminate].
  apply (IH w1); [apply (sys_step_inv e w w1 Hi Hs) | apply (sys_step_typed e w w1 Hi Hc Hs) | done].
Qed.

(** ** Safety of every run *)

(** C8: in every run of the program from its start, whatever the order of
    timers, edges, pipe completions, player exits and requests, the
    strobe's channel stays 1 or 2, each animator keeps its light, and a
    timer whose closure reads [sensors] (the pre-roll's, a sensor's
    timeout) is live only once the sensor array exists. *)
Theorem reachable_inv es w :
  sys_run es boot = Some w -> parts_ok (w_perf w) /\ timers_ok (w_perf w) (tm_live (c_timers (w_ctx w))).
Proof. intros H. apply (sys_run_inv es boot w boot_inv H). Qed.

(** C7: the process ends only on [SIGINT] or when the pigpio pipe cannot
    be opened: no timer closure, sensor edge, player exit or HTTP request
    reaches one of the code's [TypeError] branches ([sensors] still
    [null] in the pre-roll's closure, a strobe channel other than 1 or
    2). *)
Theorem exits_only_on_sigint_or_pipe es w :
  sys_run es boot = Some w -> c_exited (w_ctx w) = true ->
  ev_sigint ∈ es \/ exists i, ev_pipe i pipe_open_error ∈ es.
Proof.
  intros H He. destruct (sys_run_inv es boot w boot_inv H) as [_ Hx].
  destruct (Hx He) as [Hb | Hr]; [vm_compute in Hb; discriminate | exact Hr].
Qed.

(** C9: in every run of the program, every command in flight on the
    pigpio pipe is well formed: a PWM command for the GPIO pin of the dog
    or of a skull light, with a duty in [0, 250] (the daemon's range), and
    with a completion callback only on a duty-0 command, ending a ramp of
    the light whose pin it names.  The strobe, the net light and the
    sound never reach the daemon. *)
Theorem pipe_commands_well_typed es w :
  sys_run es boot = Some w -> Forall pwm_typed (c_pipe (w_ctx w)).
Proof. intros H. apply (sys_run_typed es boot w boot_inv boot_in_flight H). Qed.


(** ** Driving the loop

    For the witnesses: [settle] acknowledges every command in flight
    (the daemon answering at once); [run_until t] fires, in order, every
    timer due up to [t], settling after each, then lets the clock reach
    [t]. *)
Fixpoint settle (fuel : nat) (w : world) : option world :=
  match fuel with
  | O => Some w
  | S fuel =>
      match c_pipe (w_ctx w) with
      | [] => Some w
      | _ :: _ => match sys_step (ev_pipe 0 pipe_ok) w with Some w' => settle fuel w' | None => None end
      end
  end.

Fixpoint run_until (fuel : nat) (t r1 r2 : N) (w : world) : option world :=
  match fuel with
  | O => None
  | S fuel =>
      match next_timer (c_timers (w_ctx w)) with
      | Some (_, x) =>
          if (t_due x <=? t)%N then
            match sys_step (ev_fire r1 r2) w with
            | Some w' => match settle 8 w' with Some w'' => run_until fuel t r1 r2 w'' | None => None end
            | None => None
            end
          else sys_step (ev_wait t) w
      | None => sys_step (ev_wait t) w
      end
  end.

Lemma sys_run_app es1 es2 w :
  sys_run (es1 ++ es2) w = sys_run es1 w ≫= sys_run es2.
Proof.
  revert w. induction es1 as [|e es1 IH]; intros w; [done|]. simpl.
  destruct (sys_step e w); [apply IH | done].
Qed.

Lemma settle_run n w w' : settle n w = Some w' -> exists es, sys_run es w = Some w'.
Proof.
  revert w. induction n as [|n IH]; intros w; cbn [settle]; [intros [= <-]; by exists []|].
  destruct (c_pipe _); [intros [= <-]; by exists []|].
  destruct (sys_step _ w) as [w1|] eqn:E; [|done]. intros [es Hr]%IH.
  exists (ev_pipe 0 pipe_ok :: es). simpl. by rewrite E.
Qed.

Lemma run_until_run n t r1 r2 w w' : run_until n t r1 r2 w = Some w' -> exists es, sys_run es w = Some w'.
Proof.
  revert w. induction n as [|n IH]; intros w; cbn [run_until]; [done|].
  assert (Hw : forall e, sys_step e w = Some w' -> exists es, sys_run es w = Some w')
    by (intros e E; exists [e]; simpl; by rewrite E).
  destruct (next_timer _) as [[? ?]|]; [case_match|]; [|apply Hw|apply Hw].
  destruct (sys_step _ w) as [w1|] eqn:E; [|done].
  destruct (settle 8 w1) as [w2|] eqn:E2; [|done]. intros [es3 H3]%IH.
  destruct (settle_run _ _ _ E2) as [es2 H2].
  exists (ev_fire r1 r2 :: es2 ++ es3). simpl. by rewrite E, sys_run_app, H2.
Qed.

(** ** Forced starts against the mode's timers

    [POST /start] runs [startPerformance(true)], which cancels only the
    strobe's interval and the dog animator's two recorded timers: the
    timer of the pre-roll or of the cool-down, armed at another handle,
    survives it, and fires later into the performance. *)

(** The handles a forced start clears. *)
Definition force_handles (p : P) : list (option nat) :=
  [Flasher._interval (Performance.flasher p);
   SlowFlasherPigpio._stateTimeout (Performance.dogFlasher p);
   SlowFlasherPigpio._transitionInterval (Performance.dogFlasher p)].

Lemma force_keeps_timer r1 r2 (p : P) c h x :
  timers_wf (c_timers c) -> Some h ∉ force_handles p -> tm_live (c_timers c) !! h = Some x ->
  tm_live (c_timers (Performance.startPerformance true r1 r2 p c).2) !! h = Some x.
Proof.
  intros Hwf Hn Hl. pose proof (proj1 (Hwf h x Hl)) as Hh.
  destruct p as [[fi fc] [ch on off tr cb st iv sto sf] s1 s2 t1 t2 pl sn].
  destruct c as [[now live next] [] io out pipe procs pid ex]; simpl in *.
  unfold force_handles in Hn; simpl in Hn.
  unfold SlowFlasherPigpio.start, SlowFlasherPigpio.runTransition, portOff, gpio_write.
  destruct fi, iv, sto; simpl; destruct (portOff_level ch); simpl;
    rewrite !lookup_insert_ne by lia; rewrite ?lookup_delete_ne; try done;
    intros ->; apply Hn; set_solver.
Qed.

Lemma post_start_step r1 r2 w w1 :
  st_mode (c_state (w_ctx w)) <> run -> sys_step (ev_post_start r1 r2) w = Some w1 ->
  c_exited (w_ctx w) = false /\
  (w_perf w1, w_ctx w1) = Performance.startPerformance true r1 r2 (w_perf w) (w_ctx w).
Proof.
  intros Hm. unfold sys_step. destruct (c_exited (w_ctx w)); [done|].
  rewrite Performance.postStart_eq, decide_True by done.
  destruct (Performance.startPerformance _ _ _ _ _). by intros [= <-].
Qed.

Lemma fire_step r1 r2 w w2 h cb tm' :
  fire_timer (c_timers (w_ctx w)) = Some (h, cb, tm') -> c_exited (w_ctx w) = false ->
  sys_step (ev_fire r1 r2) w = Some w2 ->
  (w_perf w2, w_ctx w2) = on_timer r1 r2 cb (w_perf w) (upd_timers (fun _ => tm') (w_ctx w)).
Proof.
  intros Hf Hx. unfold sys_step. rewrite Hx, Hf. destruct (on_timer _ _ _ _ _). by intros [= <-].
Qed.

(** C11: the pre-roll's timer is not cancelled by a forced start.  From
    a well-formed world in the pre-roll whose [START_DELAY] timer is not
    at a handle the strobe or the dog animator records, [POST /start]
    starts the performance with one player and leaves that timer live;
    when the loop then fires it with a sensor still present, the
    performance is started a second time: a second player is spawned
    while the first still plays, and [playerProcess] forgets the first. *)
Theorem postStart_during_delay_second_player r1 r2 w w1 h x :
  sys_inv w -> timers_wf (c_timers (w_ctx w)) -> st_mode (c_state (w_ctx w)) = delay ->
  tm_live (c_timers (w_ctx w)) !! h = Some x -> t_cb x = CbStartDelay ->
  Some h ∉ force_handles (w_perf w) ->
  sys_step (ev_post_start r1 r2) w = Some w1 ->
  st_mode (c_state (w_ctx w1)) = run /\
  c_procs (w_ctx w1) = c_procs (w_ctx w) ++ [c_next_pid (w_ctx w)] /\
  tm_live (c_timers (w_ctx w1)) !! h = Some x /\
  forall r1' r2' tm' w2,
    fire_timer (c_timers (w_ctx w1)) = Some (h, CbStartDelay, tm') ->
    SensorArray.getState_pure (c_enabled (w_ctx w)) (c_state (w_ctx w)) = true ->
    sys_step (ev_fire r1' r2') w1 = Some w2 ->
    st_mode (c_state (w_ctx w2)) = run /\
    c_procs (w_ctx w2) = c_procs (w_ctx w) ++ [c_next_pid (w_ctx w); S (c_next_pid (w_ctx w))] /\
    Performance.playerProcess (w_perf w2) = Some (S (c_next_pid (w_ctx w))).
Proof.
  intros [Hp Ht] Hwf Hm Hl Hcb Hn Hs.
  destruct (post_start_step r1 r2 w w1 ltac:(by rewrite Hm) Hs) as [Hx E].
  pose proof (force_keeps_timer r1 r2 _ _ h x Hwf Hn Hl) as Hk.
  pose proof (Performance.force_facts r1 r2 (w_perf w) (w_ctx w) (parts_ok_perf_ok _ Hp)) as F.
  pose proof (handler_ok_inv _ _ (w_ctx w) Ht (handler_ok_force r1 r2 _ Hp)) as I.
  rewrite <- E in F, Hk, I. destruct F as (Hm1 & Hpl1 & Hpr1 & Hpid1 & Hin1 & Hsn1 & Hsp1 & _).
  destruct I as (Hp1 & _ & Hx1).
  split_and!; [done | done | done|]. intros r1' r2' tm' w2 Hf Hg Hs2.
  pose proof (fire_step r1' r2' w1 w2 h CbStartDelay tm' Hf ltac:(congruence) Hs2) as E2.
  destruct (Ht h x Hl (or_introl Hcb)) as [a Ha]. cbn [on_timer] in E2.
  rewrite (Performance.onStartDelay_eq _ _ _ _ a) in E2 by congruence.
  assert (Hg2 : SensorArray.getState_pure (c_enabled (upd_timers (fun _ => tm') (w_ctx w1)))
                  (c_state (upd_timers (fun _ => tm') (w_ctx w1))) = true).
  { rewrite <- Hg, <- (Performance.same_inputs_getState _ _ Hin1). by destruct (w_ctx w1). }
  rewrite Hg2 in E2.
  pose proof (Performance.force_facts r1' r2' (w_perf w1) (upd_timers (fun _ => tm') (w_ctx w1))
                (parts_ok_perf_ok _ Hp1)) as F2.
  rewrite <- E2 in F2. destruct F2 as (Hm2 & Hpl2 & Hpr2 & _). simpl in *.
  rewrite Hpr2, Hpr1, <- app_assoc, Hpl2, Hpid1. done.
Qed.

(** C13: [POST /start] is accepted in the cool-down (the guard is only
    [mode != 'run']), and the cool-down's timer is not cancelled.  From a
    well-formed world in the cool-down whose [COOL_DOWN_DURATION] timer
    is not at a handle the strobe or the dog animator records, the
    request starts a performance with one player and leaves that timer
    live; when the loop fires it, the mode becomes [idle] while the
    player plays, so a sensor trigger can start the pre-roll again. *)
Theorem postStart_in_cool_down r1 r2 w w1 h x :
  sys_inv w -> timers_wf (c_timers (w_ctx w)) -> st_mode (c_state (w_ctx w)) = cool_down ->
  tm_live (c_timers (w_ctx w)) !! h = Some x -> t_cb x = CbCoolDownEnd ->
  Some h ∉ force_handles (w_perf w) ->
  sys_step (ev_post_start r1 r2) w = Some w1 ->
  st_mode (c_state (w_ctx w1)) = run /\
  Performance.playerProcess (w_perf w1) = Some (c_next_pid (w_ctx w)) /\
  c_procs (w_ctx w1) = c_procs (w_ctx w) ++ [c_next_pid (w_ctx w)] /\
  tm_live (c_timers (w_ctx w1)) !! h = Some x /\
  forall r1' r2' tm' w2,
    fire_timer (c_timers (w_ctx w1)) = Some (h, CbCoolDownEnd, tm') ->
    sys_step (ev_fire r1' r2') w1 = Some w2 ->
    st_mode (c_state (w_ctx w2)) = idle /\ c_procs (w_ctx w2) = c_procs (w_ctx w1) /\
    Performance.playerProcess (w_perf w2) = Some (c_next_pid (w_ctx w)).
Proof.
  intros [Hp Ht] Hwf Hm Hl Hcb Hn Hs.
  destruct (post_start_step r1 r2 w w1 ltac:(by rewrite Hm) Hs) as [Hx E].
  pose proof (force_keeps_timer r1 r2 _ _ h x Hwf Hn Hl) as Hk.
  pose proof (Performance.force_facts r1 r2 (w_perf w) (w_ctx w) (parts_ok_perf_ok _ Hp)) as F.
  pose proof (handler_ok_inv _ _ (w_ctx w) Ht (handler_ok_force r1 r2 _ Hp)) as I.
  rewrite <- E in F, Hk, I. destruct F as (Hm1 & Hpl1 & Hpr1 & _).
  destruct I as (_ & _ & Hx1).
  split_and!; [done | done | done | done |]. intros r1' r2' tm' w2 Hf Hs2.
  pose proof (fire_step r1' r2' w1 w2 h CbCoolDownEnd tm' Hf ltac:(congruence) Hs2) as E2.
  simpl in E2. injection E2 as -> ->. destruct (w_ctx w1) as [? [] ? ? ? ? ? ?]. simpl in *. by subst.
Qed.

Lemma reachable_inv_witness :
  match sys_run [ev_fire 0 0; ev_edge Sensor1 true] boot with
  | Some w => parts_ok (w_perf w)
  | None => False
  end.
Proof.
  destruct (sys_run _ boot) as [w|] eqn:E.
  - exact (proj1 (reachable_inv _ w E)).
  - vm_compute in E. discriminate.
Defined.

Lemma exits_only_on_sigint_or_pipe_witness :
  match sys_run [ev_fire 0 0; ev_sigint] boot with
  | Some w => ev_sigint ∈ [ev_fire 0 0; ev_sigint] \/
              exists i, ev_pipe i pipe_open_error ∈ [ev_fire 0 0; ev_sigint]
  | None => False
  end.
Proof.
  destruct (sys_run _ boot) as [w|] eqn:E.
  - apply (exits_only_on_sigint_or_pipe _ w E).
    pose proof (f_equal (fmap (fun w => c_exited (w_ctx w))) E) as Ex.
    vm_compute in Ex. injection Ex as Ex. exact (eq_sym Ex).
  - vm_compute in E. discriminate.
Defined.

Lemma pipe_commands_well_typed_witness :
  match sys_run [ev_post_start 0 0; ev_fire 0 0; ev_fire 0 0; ev_fire 0 0; ev_fire 0 0] boot with
  | Some w => length (c_pipe (w_ctx w)) = 2%nat /\ Forall pwm_typed (c_pipe (w_ctx w))
  | None => False
  end.
Proof.
  destruct (sys_run _ boot) as [w|] eqn:E; [|vm_compute in E; discriminate].
  split; [|exact (pipe_commands_well_typed _ w E)].
  pose proof (f_equal (fmap (fun w => length (c_pipe (w_ctx w)))) E) as L.
  vm_compute in L. injection L as L. exact (eq_sym L).
Defined.

(** Sensor 1 turns active after the sensor setup; its timeout enters the
    pre-roll at 35 000 ms, the strobe flashes, and the clock reaches
    39 000 ms, when the pre-roll's timer is due. *)
Definition preroll_run : list event :=
  repeat (ev_fire 0 0) 30 ++ [ev_edge Sensor1 true] ++ repeat (ev_fire 0 0) 10 ++ [ev_wait 39000].


(** Evaluate a closed equation [E : lhs = Some w] into [E : value = w]. *)
Ltac conc E := vm_compute in E; injection E as E.

Lemma postStart_during_delay_second_player_witness :
  exists w w1 w2, sys_run preroll_run boot = Some w /\ sys_step (ev_post_start 100 100) w = Some w1 /\
    sys_step (ev_fire 0 0) w1 = Some w2 /\ c_procs (w_ctx w2) = [0; 1]%nat.
Proof.
  destruct (sys_run preroll_run boot) as [w|] eqn:E0; [|vm_compute in E0; discriminate].
  destruct (sys_run_inv _ _ _ boot_inv E0) as [Hi _]. pose proof E0 as E. conc E.
  destruct (sys_step (ev_post_start 100 100) w) as [w1|] eqn:E1;
    [|rewrite <- E in E1; vm_compute in E1; discriminate].
  pose proof E1 as F1. rewrite <- E in F1. conc F1.
  destruct (tm_live (c_timers (w_ctx w)) !! 56) as [x|] eqn:Ex;
    [|rewrite <- E in Ex; vm_compute in Ex; discriminate].
  pose proof Ex as Fx. rewrite <- E in Fx. conc Fx.
  destruct (fire_timer (c_timers (w_ctx w1))) as [[[h cb] tm']|] eqn:Ef;
    [|rewrite <- F1 in Ef; vm_compute in Ef; discriminate].
  pose proof Ef as Ff. rewrite <- F1 in Ff. vm_compute in Ff. injection Ff as <- <- _.
  destruct (sys_step (ev_fire 0 0) w1) as [w2|] eqn:E2;
    [|rewrite <- F1 in E2; vm_compute in E2; discriminate].
  destruct (postStart_during_delay_second_player 100 100 w w1 56 x Hi
              ltac:(apply timers_wf_b_spec; rewrite <- E; vm_compute; reflexivity)
              ltac:(rewrite <- E; vm_compute; reflexivity) Ex
              ltac:(rewrite <- Fx; vm_compute; reflexivity)
              ltac:(rewrite <- E; eapply bool_decide_unpack; vm_compute; exact I) E1) as (_ & _ & _ & H2).
  destruct (H2 0%N 0%N tm' w2 Ef ltac:(rewrite <- E; vm_compute; reflexivity) E2) as (_ & Hp & _).
  exists w, w1, w2. refine (conj eq_refl (conj E1 (conj E2 _))). rewrite Hp, <- E. reflexivity.
Defined.

(** A forced start at time 0, its player exiting at once, and the loop run
    to 89 999 ms, one millisecond before the cool-down's timer is due. *)
Definition cool_down_start : list event := [ev_post_start 0 0; ev_player_exit 0].
Definition cool_down_fuel : nat := 300.

Lemma postStart_in_cool_down_witness :
  exists w0 w w1 w2, sys_run cool_down_start boot = Some w0 /\ run_until cool_down_fuel 89999 0 0 w0 = Some w /\
    sys_step (ev_post_start 100 100) w = Some w1 /\
    sys_step (ev_fire 0 0) w1 = Some w2 /\ st_mode (c_state (w_ctx w2)) = idle /\
    Performance.playerProcess (w_perf w2) = Some (c_next_pid (w_ctx w)).
Proof.
  assert (A1 : (fun w => (timers_wf_b (c_timers (w_ctx w)), st_mode (c_state (w_ctx w)),
                          t_cb <$> tm_live (c_timers (w_ctx w)) !! 6,
                          bool_decide (Some 6 ∉ force_handles (w_perf w)))) <$>
               (sys_run cool_down_start boot ≫= run_until cool_down_fuel 89999 0 0) =
               Some (true, cool_down, Some CbCoolDownEnd, true)) by (vm_compute; reflexivity).
  assert (A2 : (fun w => (fun w1 => ((fun p : nat * Callback * timers Callback => p.1) <$>
                                       fire_timer (c_timers (w_ctx w1)),
                                     bool_decide (is_Some (sys_step (ev_fire 0 0) w1)))) <$>
                          sys_step (ev_post_start 100 100) w) <$>
               (sys_run cool_down_start boot ≫= run_until cool_down_fuel 89999 0 0) =
               Some (Some (Some (6%nat, CbCoolDownEnd), true))) by (vm_compute; reflexivity).
  destruct (sys_run cool_down_start boot) as [w0|] eqn:E0; [|discriminate].
  destruct (sys_run_inv _ _ _ boot_inv E0) as [Hi0 _]. cbn [mbind option_bind] in A1, A2.
  destruct (run_until cool_down_fuel 89999 0 0 w0) as [w|] eqn:E; [|discriminate].
  destruct (run_until_run _ _ _ _ _ _ E) as [es Hr].
  destruct (sys_run_inv es w0 w Hi0 Hr) as [Hi _].
  cbn [fmap option_fmap option_map] in A1, A2. injection A1 as Hwf Hm Hx Hn.
  destruct (tm_live (c_timers (w_ctx w)) !! 6) as [x|] eqn:Ex; [|discriminate].
  cbn [fmap option_fmap option_map] in Hx. injection Hx as Hx.
  destruct (sys_step (ev_post_start 100 100) w) as [w1|] eqn:E1; [|discriminate].
  cbn [fmap option_fmap option_map] in A2.
  destruct (fire_timer (c_timers (w_ctx w1))) as [[[h cb] tm']|] eqn:Ef; [|discriminate].
  cbn [fmap option_fmap option_map fst] in A2. injection A2 as Hh Hcb A2. subst h cb.
  destruct (sys_step (ev_fire 0 0) w1) as [w2|] eqn:E2; [|discriminate].
  destruct (postStart_in_cool_down 100 100 w w1 6 x Hi (timers_wf_b_spec _ Hwf) Hm Ex Hx
              (bool_decide_eq_true_1 _ Hn) E1) as (_ & Hp1 & _ & _ & H2).
  destruct (H2 0%N 0%N tm' w2 Ef E2) as (Hm2 & _ & Hp).
  exists w0, w, w1, w2. split_and!; done.
Defined.



End System.
