(* ===== verification/ModeMachine.v ===== *)
(** * ModeMachine: the controller's mode against the spec's state machine

    Spec 4.5 describes the performance controller as a machine over
    [Idle], [Pending], [Active] and [CoolDown].  The program keeps the
    state in [State.mode] ([idle], [delay], [run], [cool_down]) and
    changes it in five places of [src/halloween.js]: [startPerformance]
    (lines 405-457: [run] when forced, [delay] on a trigger in [idle]),
    the pre-roll closure (lines 448-455: [run] or [idle]), the player's
    close handler (lines 430-438: [cool_down]), the cool-down closure
    (lines 435-437: [idle]) and [postStop] (lines 569-575: [idle]).

    [Spec] is the spec's machine with its transitions labelled by their
    cause.  The refinement: in every run of the whole program driven by
    its sensors (any timers, edges, completions, player exits, status
    and [POST /enabled] requests, no [POST /start] or [POST /stop]),
    every event leaves the mode alone or takes one step of the spec's
    machine, of a label the event can cause.  The invariant behind it
    ([ctrl_inv]) ties the mode to the timers and processes: a pre-roll
    timer is live only in [delay], a cool-down timer only in
    [cool_down], each at most once and one-shot, and a player process
    exists only in [run], alone.  With the two control requests the
    refinement fails (System.v: [postStart_in_cool_down],
    [postStart_during_delay_second_player]; Performance.v:
    [postStop_then_player_close]). *)

From stdpp Require Import gmap.
From Stdlib Require Import NArith String.
From S2P Require Import Prelude Timers Ports Runtime Animator SlowFlasherPigpio Sensors Flasher Performance System.

Module Spec.

(** What causes a transition of the spec's controller. *)
Inductive label :=
  | l_trigger          (** a sensor trigger or a start-now request *)
  | l_present          (** the pre-roll delay ends, presence still true *)
  | l_absent           (** the pre-roll delay ends, presence false *)
  | l_force            (** a force-start request *)
  | l_audio_end        (** the audio cue ends *)
  | l_cool_down_end    (** the cool-down timer fires *)
  | l_stop.            (** a stop request *)

(** Spec 4.5, with [idle], [delay], [run], [cool_down] for [Idle],
    [Pending], [Active], [CoolDown]. *)
Inductive step : Mode -> label -> Mode -> Prop :=
  | st_trigger : step idle l_trigger delay
  | st_present : step delay l_present run
  | st_absent : step delay l_absent idle
  | st_force_idle : step idle l_force run
  | st_force_delay : step delay l_force run
  | st_audio_end : step run l_audio_end cool_down
  | st_cool_down_end : step cool_down l_cool_down_end idle
  | st_stop : step run l_stop idle.

End Spec.

Module ModeMachine.
Import System Spec.

#[local] Existing Instance SlowFlasherPigpio.SlowFlasherPigpio_animator.

(** The events of the loop that can cause a transition of a label. *)
Definition label_event (l : label) (e : event) : Prop :=
  match l with
  | l_trigger | l_present | l_absent | l_cool_down_end => exists r1 r2, e = ev_fire r1 r2
  | l_audio_end => exists pid, e = ev_player_exit pid
  | l_force => exists r1 r2, e = ev_post_start r1 r2
  | l_stop => e = ev_post_stop
  end.

(** The events of a run driven by the sensors alone: no control request. *)
Definition sensor_driven (e : event) : bool :=
  match e with ev_post_start _ _ | ev_post_stop => false | _ => true end.

Definition wmode (w : world) : Mode := st_mode (c_state (w_ctx w)).

(** ** The invariant *)

(** A timer of closure [cb] is live only in mode [m], one-shot, and at
    most once. *)
Definition sole (cb : Callback) (m : Mode) (c : Ctx) : Prop :=
  (forall h x, tm_live (c_timers c) !! h = Some x -> t_cb x = cb ->
     st_mode (c_state c) = m /\ t_period x = None) /\
  (forall h x h' x', tm_live (c_timers c) !! h = Some x -> t_cb x = cb ->
     tm_live (c_timers c) !! h' = Some x' -> t_cb x' = cb -> h' = h).

Definition ctrl_inv (c : Ctx) : Prop :=
  sole CbStartDelay delay c /\ sole CbCoolDownEnd cool_down c /\
  forall pid, pid ∈ c_procs c -> st_mode (c_state c) = run /\ c_procs c = [pid].

(** The closures the controller's mode depends on. *)
Definition ctrl_free (cb : Callback) : Prop := cb <> CbStartDelay /\ cb <> CbCoolDownEnd.

(** ** Computations that leave the mode and the processes alone *)

Definition keeps_ctrl {A} (m : M A) : Prop :=
  forall c, st_mode (c_state (exec m c)) = st_mode (c_state c) /\ c_procs (exec m c) = c_procs c.

(** A handler that leaves the mode and processes alone and arms no
    timer the mode depends on. *)
Definition quiet {A} (m : M A) : Prop := adds_only ctrl_free m /\ keeps_ctrl m.

Lemma keeps_ctrl_ret {A} (a : A) : keeps_ctrl (ret a).
Proof. done. Qed.

Lemma keeps_ctrl_bind {A B} (m : M A) (k : A -> M B) :
  keeps_ctrl m -> (forall a, keeps_ctrl (k a)) -> keeps_ctrl (bind m k).
Proof.
  intros Hm Hk c. rewrite exec_bind. destruct (Hk (eval m c) (exec m c)) as [-> ->]. apply Hm.
Qed.

Lemma keeps_ctrl_if {A} (b : bool) (m1 m2 : M A) :
  keeps_ctrl m1 -> keeps_ctrl m2 -> keeps_ctrl (if b then m1 else m2).
Proof. by destruct b. Qed.

Lemma keeps_ctrl_portOn p : keeps_ctrl (portOn p).
Proof. intros c. unfold portOn, gpio_write. by destruct (portOn_level p). Qed.
Lemma keeps_ctrl_portOff p : keeps_ctrl (portOff p).
Proof. intros c. unfold portOff, gpio_write. by destruct (portOff_level p). Qed.
Lemma keeps_ctrl_portPWM p v cb : keeps_ctrl (portPWM p v cb).
Proof. intros c. unfold portPWM. by destruct (portPWM_cmd p v). Qed.
Lemma keeps_ctrl_setTimeout cb d : keeps_ctrl (setTimeout cb d).
Proof. intros c. unfold setTimeout. simpl. by destruct (set_timer d false cb (c_timers c)). Qed.
Lemma keeps_ctrl_setInterval cb d : keeps_ctrl (setInterval cb d).
Proof. intros c. unfold setInterval. simpl. by destruct (set_timer d true cb (c_timers c)). Qed.
Lemma keeps_ctrl_setLight ch n : keeps_ctrl (setLight ch n).
Proof. intros c. split; [apply mode_set_light | done]. Qed.
Lemma keeps_ctrl_set_sensor x b : keeps_ctrl (modifyState (set_state_sensor x b)).
Proof. intros c. split; [apply mode_set_sensor | done]. Qed.

(** [ctrl_chain] proves [keeps_ctrl m] for a computation built from the
    primitives that do not set the mode. *)
Ltac ctrl_chain :=
  repeat first
    [ apply keeps_ctrl_ret
    | apply keeps_ctrl_portOn | apply keeps_ctrl_portOff | apply keeps_ctrl_portPWM
    | apply keeps_ctrl_setTimeout | apply keeps_ctrl_setInterval
    | apply keeps_ctrl_setLight | apply keeps_ctrl_set_sensor
    | apply keeps_ctrl_bind; [|intros ?]
    | apply keeps_ctrl_if
    | intros ?; split; reflexivity
    | progress unfold runStateCallback, controlDogSound, clearTimer, getLight, curtime, quitPlayer
    | match goal with |- keeps_ctrl (match ?x with _ => _ end) => destruct x end ].

Ltac free_tac := unfold ctrl_free; split; discriminate.

Lemma arms_free cb : SlowFlasherPigpio.arms cb -> ctrl_free cb.
Proof. intros [ch [-> | ->]]; free_tac. Qed.

(** [quiet_chain] proves [quiet m] for such a computation, the program's
    animators' methods included. *)
Ltac free_adds :=
  repeat first
    [ progress adds_chain free_tac
    | eapply adds_only_mono; [apply arms_free | apply SlowFlasherPigpio.start_adds]
    | eapply adds_only_mono; [apply arms_free | apply SlowFlasherPigpio.stop_adds] ].

Ltac quiet_chain := split; [free_adds | ctrl_chain].

(** The handlers that leave the mode alone. *)

Lemma stopPerformance_quiet (p : P) : quiet (Performance.stopPerformance p).
Proof. unfold Performance.stopPerformance. quiet_chain. Qed.

Lemma animator_quiet (a : SFP) cb err :
  quiet (SlowFlasherPigpio.on_timer a cb) /\ quiet (SlowFlasherPigpio.endTansition a err).
Proof.
  split; [unfold SlowFlasherPigpio.on_timer, SlowFlasherPigpio.transitionStep,
                 SlowFlasherPigpio.runTransition
         | unfold SlowFlasherPigpio.endTansition]; quiet_chain.
Qed.

Lemma on_animator_quiet ch (k : SFP -> M SFP) (p : P) :
  (forall a, quiet (k a)) -> quiet (on_animator ch k p).
Proof.
  intros Hk. unfold on_animator.
  split; repeat case_decide;
    first [ apply adds_only_ret | apply keeps_ctrl_ret
          | apply adds_only_bind; [apply Hk | intros; apply adds_only_ret]
          | apply keeps_ctrl_bind; [apply Hk | intros; apply keeps_ctrl_ret] ].
Qed.

Lemma flash_quiet (p : P) cb :
  quiet (fl <- Flasher.on_timer (Performance.flasher p) cb ;; ret (Performance.set_flasher p fl)).
Proof.
  unfold Flasher.on_timer, Flasher.flashOn, Flasher.flashOff, Flasher.on_port, Flasher.crash.
  quiet_chain.
Qed.

Lemma on_edge_quiet a x b : quiet (SensorArray.on_edge a x b).
Proof. unfold SensorArray.on_edge, SensorWatch.watch. quiet_chain. Qed.

Lemma skull_quiet (p : P) : quiet (Performance.onStartSkull1 p) /\ quiet (Performance.onStartSkull2 p).
Proof. unfold Performance.onStartSkull1, Performance.onStartSkull2. split; quiet_chain. Qed.

Lemma status_quiet (p : P) data : quiet (Performance.postEnabled data p) /\ quiet (Performance.getStatus p).
Proof. unfold Performance.postEnabled, Performance.getStatus. split; quiet_chain. Qed.

(** ** The invariant across the handlers *)

Lemma sole_sub cb m c c' :
  (forall h x, tm_live (c_timers c') !! h = Some x -> t_cb x = cb -> tm_live (c_timers c) !! h = Some x) ->
  st_mode (c_state c') = st_mode (c_state c) -> sole cb m c -> sole cb m c'.
Proof.
  intros Hsub Hm [H1 H2]. split.
  - intros h x Hx Hc. rewrite Hm. exact (H1 h x (Hsub h x Hx Hc) Hc).
  - intros h x h' x' Hx Hc Hx' Hc'. exact (H2 h x h' x' (Hsub h x Hx Hc) Hc (Hsub h' x' Hx' Hc') Hc').
Qed.

Lemma sole_none cb m c :
  (forall h x, tm_live (c_timers c) !! h = Some x -> t_cb x <> cb) -> sole cb m c.
Proof. intros H. split; [intros h x Hx Hc | intros h x h' x' Hx Hc]; by destruct (H h x Hx Hc). Qed.

Lemma ctrl_inv_ext c c' :
  tm_live (c_timers c') = tm_live (c_timers c) -> st_mode (c_state c') = st_mode (c_state c) ->
  c_procs c' = c_procs c -> ctrl_inv c -> ctrl_inv c'.
Proof.
  intros Ht Hm Hp (Hd & Hc & Hpr). split_and!; [eapply sole_sub; [|done|done]; by rewrite Ht ..|].
  intros pid. rewrite Hp, Hm. apply Hpr.
Qed.

(** A quiet handler keeps the invariant and the mode. *)
Lemma quiet_inv {A} (m : M A) c :
  ctrl_inv c -> quiet m -> ctrl_inv (exec m c) /\ st_mode (c_state (exec m c)) = st_mode (c_state c).
Proof.
  intros (Hd & Hc & Hpr) [Ha Hk]. destruct (Hk c) as [Hm Hp].
  assert (Hsub : forall cb, ~ ctrl_free cb ->
            forall h x, tm_live (c_timers (exec m c)) !! h = Some x -> t_cb x = cb ->
                        tm_live (c_timers c) !! h = Some x).
  { intros cb Hn h x Hx <-. by destruct (Ha c h x Hx). }
  split; [|done]. split_and!.
  - apply (sole_sub _ _ c); [apply Hsub; by intros [? ?] | done | done].
  - apply (sole_sub _ _ c); [apply Hsub; by intros [? ?] | done | done].
  - intros pid. rewrite Hp, Hm. apply Hpr.
Qed.

(** Outside [delay], [cool_down] and [run] nothing the mode depends on
    is live: the mode may be set freely. *)
Lemma ctrl_inv_clear c :
  (forall h x, tm_live (c_timers c) !! h = Some x -> ctrl_free (t_cb x)) -> c_procs c = [] ->
  ctrl_inv c.
Proof.
  intros Hf Hp. split_and!; [apply sole_none; intros h x Hx; apply (Hf h x Hx) ..|].
  rewrite Hp. intros pid Hin. by apply elem_of_nil in Hin.
Qed.

Lemma ctrl_inv_set_mode m c :
  (forall h x, tm_live (c_timers c) !! h = Some x -> ctrl_free (t_cb x)) -> c_procs c = [] ->
  ctrl_inv (upd_state (set_mode m) c).
Proof. intros Hf Hp. by apply ctrl_inv_clear. Qed.

(** What the invariant says of a mode other than [delay], [cool_down]
    and [run]'s process. *)
Lemma ctrl_inv_free c :
  ctrl_inv c -> st_mode (c_state c) <> delay -> st_mode (c_state c) <> cool_down ->
  forall h x, tm_live (c_timers c) !! h = Some x -> ctrl_free (t_cb x).
Proof.
  intros ([Hd _] & [Hc _] & _) Hnd Hnc h x Hx. split; intros Hcb.
  - by destruct (Hd h x Hx Hcb).
  - by destruct (Hc h x Hx Hcb).
Qed.

Lemma ctrl_inv_no_procs c : ctrl_inv c -> st_mode (c_state c) <> run -> c_procs c = [].
Proof.
  intros (_ & _ & Hp) Hn. destruct (c_procs c) as [|pid l] eqn:E; [done|].
  destruct (Hp pid) as [? _]; [rewrite ?E; left | done].
Qed.

(** Arming the only timer of [cb], in the mode it belongs to. *)
Lemma sole_arm cb m c d :
  (forall h x, tm_live (c_timers c) !! h = Some x -> t_cb x <> cb) -> st_mode (c_state c) = m ->
  sole cb m (exec (setTimeout cb d) c).
Proof.
  intros Hn Hm. unfold setTimeout. cbn.
  assert (Hl : forall h x, <[tm_next (c_timers c) := mkTimer (tm_now (c_timers c) + clamp_delay d)
                              (tm_next (c_timers c)) None cb]> (tm_live (c_timers c)) !! h = Some x ->
               t_cb x = cb -> h = tm_next (c_timers c) /\ t_period x = None).
  { intros h x Hx Hc. destruct (decide (h = tm_next (c_timers c))) as [->|Hne].
    - rewrite lookup_insert_eq in Hx. by injection Hx as <-.
    - rewrite lookup_insert_ne in Hx by done. by destruct (Hn h x Hx Hc). }
  split.
  - intros h x Hx Hc. split; [done | apply (Hl h x Hx Hc)].
  - intros h x h' x' Hx Hc Hx' Hc'. by rewrite (proj1 (Hl h x Hx Hc)), (proj1 (Hl h' x' Hx' Hc')).
Qed.

Lemma sole_setTimeout cb' cb m c d :
  cb' <> cb -> sole cb m c -> sole cb m (exec (setTimeout cb' d) c).
Proof.
  intros Hne. apply sole_sub; [|done]. intros h x Hx Hc. unfold setTimeout in Hx. cbn in Hx.
  destruct (decide (h = tm_next (c_timers c))) as [->|Hh].
  - rewrite lookup_insert_eq in Hx. injection Hx as <-. by destruct Hne.
  - by rewrite lookup_insert_ne in Hx.
Qed.

(** Firing the next timer: a pre-roll or cool-down timer fires in its
    own mode and leaves no other of its kind. *)
Lemma fire_sub c x h cb0 m0 h' x' :
  sole cb0 m0 c -> tm_live (c_timers c) !! h = Some x ->
  (match t_period x with
   | None => delete h (tm_live (c_timers c))
   | Some p => <[h := mkTimer (t_due x + p) (tm_next (c_timers c)) (Some p) (t_cb x)]> (tm_live (c_timers c))
   end) !! h' = Some x' ->
  t_cb x' = cb0 -> tm_live (c_timers c) !! h' = Some x' /\ h' <> h.
Proof.
  intros [H1 _] Hx. destruct (t_period x) as [q|] eqn:Hq; destruct (decide (h' = h)) as [->|Hne].
  - rewrite lookup_insert_eq. intros [= <-] Hc. simpl in Hc. destruct (H1 h x Hx Hc) as [_ Hn]. congruence.
  - by rewrite lookup_insert_ne.
  - by rewrite lookup_delete_eq.
  - by rewrite lookup_delete_ne.
Qed.

Lemma ctrl_inv_fire c h cb tm' :
  ctrl_inv c -> fire_timer (c_timers c) = Some (h, cb, tm') ->
  ctrl_inv (upd_timers (fun _ => tm') c) /\
  (cb = CbStartDelay -> st_mode (c_state c) = delay /\
     forall h x, tm_live tm' !! h = Some x -> t_cb x <> CbStartDelay) /\
  (cb = CbCoolDownEnd -> st_mode (c_state c) = cool_down /\
     forall h x, tm_live tm' !! h = Some x -> t_cb x <> CbCoolDownEnd).
Proof.
  intros (Hd & Hc & Hp) (x & Hx & -> & _ & ->)%fire_timer_spec.
  assert (Hgone : forall cb0 m0, sole cb0 m0 c -> t_cb x = cb0 ->
            st_mode (c_state c) = m0 /\
            forall h' x', tm_live (mkTimers (t_due x) (match t_period x with
                 | None => delete h (tm_live (c_timers c))
                 | Some p => <[h := mkTimer (t_due x + p) (tm_next (c_timers c)) (Some p) (t_cb x)]>
                               (tm_live (c_timers c)) end) (S (tm_next (c_timers c)))) !! h' = Some x' ->
                 t_cb x' <> cb0).
  { intros cb0 m0 Hs Hcb. split; [apply (proj1 Hs h x Hx Hcb)|].
    intros h' x' Hx' Hc'. destruct (fire_sub c x h cb0 m0 h' x' Hs Hx Hx' Hc') as [Hl Hne].
    apply Hne. exact (proj2 Hs h x h' x' Hx Hcb Hl Hc'). }
  split_and!; [| intros; by apply Hgone .. ].
  split_and!; [| |done].
  - apply (sole_sub _ _ c); [|done|done].
    intros h0 x0 H0 Hc0. exact (proj1 (fire_sub c x h _ _ h0 x0 Hd Hx H0 Hc0)).
  - apply (sole_sub _ _ c); [|done|done].
    intros h0 x0 H0 Hc0. exact (proj1 (fire_sub c x h _ _ h0 x0 Hc Hx H0 Hc0)).
Qed.

(** A sensor trigger: in [idle] it enters [delay] with the only pre-roll
    timer; otherwise it does nothing. *)
Lemma trigger_eq r1 r2 (p : P) c :
  exec (Performance.startPerformance false r1 r2 p) c =
  if decide (st_mode (c_state c) = idle)
  then exec (setTimeout CbStartDelay START_DELAY)
         (exec (portOn lightNet ;; setLight lightNet 1) (upd_state (set_mode delay) c))
  else c.
Proof.
  unfold Performance.startPerformance. simpl. case_decide; [|done].
  destruct c as [tm st io out pipe procs pid ex]. reflexivity.
Qed.

Lemma trigger_inv r1 r2 (p : P) c :
  ctrl_inv c ->
  let c' := exec (Performance.startPerformance false r1 r2 p) c in
  ctrl_inv c' /\ (st_mode (c_state c') = st_mode (c_state c) \/
                  st_mode (c_state c) = idle /\ st_mode (c_state c') = delay).
Proof.
  intros Hi. cbv zeta. rewrite trigger_eq. case_decide as Hm; [|by split; [|left]].
  assert (Hf := ctrl_inv_free c Hi ltac:(by rewrite Hm) ltac:(by rewrite Hm)).
  assert (Hp := ctrl_inv_no_procs c Hi ltac:(by rewrite Hm)).
  pose proof (ctrl_inv_set_mode delay c Hf Hp) as H1.
  assert (Hq : quiet (portOn lightNet ;; setLight lightNet 1)) by quiet_chain.
  destruct (quiet_inv _ _ H1 Hq) as [(Hd & Hc & Hpr) Hm2].
  set (c2 := exec (portOn lightNet ;; setLight lightNet 1) (upd_state (set_mode delay) c)) in *.
  assert (Ht : tm_live (c_timers c2) = tm_live (c_timers c)).
  { subst c2. rewrite exec_bind. unfold portOn, gpio_write. simpl. by destruct (portOn_level lightNet). }
  destruct (keeps_ctrl_setTimeout CbStartDelay START_DELAY c2) as [Hm3 Hp3].
  split; [split_and! | right; split; [done|]].
  - apply sole_arm; [|done]. rewrite Ht. intros h x Hx. apply (Hf h x Hx).
  - by apply sole_setTimeout.
  - intros pid. rewrite Hm3, Hp3. apply Hpr.
  - by rewrite Hm3, Hm2.
Qed.

(** Nothing the mode depends on is live. *)
Lemma sole_free cb m c :
  (forall h x, tm_live (c_timers c) !! h = Some x -> ctrl_free (t_cb x)) -> cb = CbStartDelay \/ cb = CbCoolDownEnd ->
  sole cb m c.
Proof.
  intros Hf Hcb. apply sole_none. intros h x Hx. destruct (Hf h x Hx).
  destruct Hcb as [-> | ->]; done.
Qed.

(** A forced start from a state with nothing of the mode live enters
    [run] with its player as the only process. *)
Lemma force_inv r1 r2 (p : P) c :
  Performance.perf_ok p ->
  (forall h x, tm_live (c_timers c) !! h = Some x -> ctrl_free (t_cb x)) -> c_procs c = [] ->
  let c' := exec (Performance.startPerformance true r1 r2 p) c in
  ctrl_inv c' /\ st_mode (c_state c') = run.
Proof.
  intros Hok Hf Hp. pose proof (Performance.force_facts r1 r2 p c Hok) as F.
  assert (Ha : adds_only ctrl_free (Performance.startPerformance true r1 r2 p))
    by (unfold Performance.startPerformance; free_adds).
  specialize (Ha c). cbv zeta. unfold exec in *.
  destruct (Performance.startPerformance true r1 r2 p c) as [p' c']; simpl in *.
  destruct F as (Hm & _ & Hpr & _).
  assert (Hfree : forall h x, tm_live (c_timers c') !! h = Some x -> ctrl_free (t_cb x)).
  { intros h x Hx. destruct (Ha h x Hx) as [Hx'|]; [apply (Hf h x Hx') | done]. }
  split; [|done]. split_and!; [apply sole_free; auto ..|].
  intros pid. rewrite Hpr, Hp. intros ->%list_elem_of_singleton. done.
Qed.

(** The player's exit in [run]: the stop sequence, [cool_down] and the
    only cool-down timer. *)
Lemma player_exit_inv (p : P) c :
  ctrl_inv c -> (forall h x, tm_live (c_timers c) !! h = Some x -> ctrl_free (t_cb x)) -> c_procs c = [] ->
  let c' := exec (Performance.onPlayerClose p) c in
  ctrl_inv c' /\ st_mode (c_state c') = cool_down.
Proof.
  intros Hi Hf Hp. pose proof (stopPerformance_quiet (Performance.set_player p None)) as Hq.
  destruct (quiet_inv _ c Hi Hq) as [Hi1 _].
  pose proof (proj1 Hq c) as Ha. pose proof (proj2 (proj2 Hq c)) as Hp1.
  cbv zeta. unfold exec in *. rewrite Performance.onPlayerClose_eq.
  destruct (Performance.stopPerformance _ c) as [p1 c1]; simpl in *.
  assert (Hf1 : forall h x, tm_live (c_timers c1) !! h = Some x -> ctrl_free (t_cb x)).
  { intros h x Hx. destruct (Ha h x Hx) as [Hx'|]; [apply (Hf h x Hx') | done]. }
  rewrite Hp in Hp1.
  pose proof (ctrl_inv_set_mode cool_down c1 Hf1 Hp1) as (Hd2 & _ & Hpr2).
  set (c2 := upd_state (set_mode cool_down) c1) in *.
  destruct (keeps_ctrl_setTimeout CbCoolDownEnd COOL_DOWN_DURATION c2) as [Hm3 Hp3]. unfold exec in Hm3, Hp3.
  split; [split_and! | done].
  - exact (sole_setTimeout CbCoolDownEnd CbStartDelay delay c2 COOL_DOWN_DURATION ltac:(done) Hd2).
  - apply (sole_arm CbCoolDownEnd cool_down c2); [|done]. intros h x Hx. apply (Hf1 h x Hx).
  - intros pid. pose proof (Hpr2 pid) as H. rewrite <- Hm3, <- Hp3 in H. exact H.
Qed.

Lemma onSensorTimeout_exec (p : P) c :
  exec (Performance.onSensorTimeout p) c =
  if SensorArray.getState_pure (c_enabled c) (c_state c)
  then exec (Performance.startPerformance false 0 0 p) c else c.
Proof. unfold Performance.onSensorTimeout. simpl. by destruct (SensorArray.getState_pure _ _). Qed.

(** A timer's closure, in a run driven by the sensors. *)
Lemma on_timer_mode r1 r2 cb (p : P) c h tm' :
  parts_ok p -> (needs_sensors cb -> is_Some (Performance.sensors p)) -> ctrl_inv c ->
  fire_timer (c_timers c) = Some (h, cb, tm') ->
  let c' := exec (on_timer r1 r2 cb p) (upd_timers (fun _ => tm') c) in
  ctrl_inv c' /\ (st_mode (c_state c') = st_mode (c_state c) \/
    exists l, label_event l (ev_fire r1 r2) /\ step (st_mode (c_state c)) l (st_mode (c_state c'))).
Proof.
  intros Hpk Hn Hi Ef. destruct (ctrl_inv_fire c h cb tm' Hi Ef) as (Hi0 & Hsd & Hcd).
  set (c0 := upd_timers (fun _ => tm') c) in *.
  assert (Hm0 : st_mode (c_state c0) = st_mode (c_state c)) by done.
  assert (Hq : forall (m : M P), quiet m ->
             ctrl_inv (exec m c0) /\ st_mode (c_state (exec m c0)) = st_mode (c_state c)).
  { intros m Hm. rewrite <- Hm0. by apply quiet_inv. }
  cbv zeta. destruct cb; cbn [on_timer].
  - rewrite onSensorTimeout_exec.
    destruct (SensorArray.getState_pure _ _); [|split; [done | by left]].
    pose proof (trigger_inv 0 0 p c0 Hi0) as [Hi' Hm']. split; [done|]. destruct Hm' as [Hm'|[Hid Hd']]; [left; congruence|].
    right. exists l_trigger. split; [by exists r1, r2|]. rewrite <- Hm0, Hid, Hd'. constructor.
  - destruct (Hq _ (flash_quiet p CbFlashOn)). by split; [|left].
  - destruct (Hq _ (flash_quiet p CbFlashOff)). by split; [|left].
  - by split; [|left].
  - by split; [|left].
  - by split; [|left].
  - by split; [|left].
  - destruct (Hq _ (on_animator_quiet ch _ p
                      (fun a => proj1 (animator_quiet a (CbSFPTransitionStep ch) false)))).
    by split; [|left].
  - destruct (Hq _ (on_animator_quiet ch _ p
                      (fun a => proj1 (animator_quiet a (CbSFPRunTransition ch) false)))).
    by split; [|left].
  - destruct (Hq _ (proj1 (skull_quiet p))). by split; [|left].
  - destruct (Hq _ (proj2 (skull_quiet p))). by split; [|left].
  - destruct (Hsd eq_refl) as [Hmd Hnone]. destruct (Hn (or_introl eq_refl)) as [a Ha].
    assert (Hf0 : forall h x, tm_live (c_timers c0) !! h = Some x -> ctrl_free (t_cb x)).
    { intros h0 x0 Hx0. split; [apply (Hnone h0 x0 Hx0)|].
      intros Hc. destruct Hi0 as (_ & [Hc1 _] & _). destruct (Hc1 h0 x0 Hx0 Hc) as [Hcm _].
      rewrite Hm0, Hmd in Hcm. discriminate. }
    assert (Hp0 : c_procs c0 = []) by (apply ctrl_inv_no_procs; [done | by rewrite Hm0, Hmd]).
    unfold exec. rewrite (Performance.onStartDelay_eq _ _ _ _ a Ha).
    destruct (SensorArray.getState_pure _ _).
    + destruct (force_inv r1 r2 p c0 (parts_ok_perf_ok p Hpk) Hf0 Hp0) as [Hi' Hr].
      split; [done|]. right. exists l_present. split; [by exists r1, r2|].
      unfold exec in Hr. rewrite Hr, Hmd. constructor.
    + pose proof (ctrl_inv_set_mode idle c0 Hf0 Hp0) as H1.
      destruct (quiet_inv _ _ H1 (stopPerformance_quiet p)) as [Hi' Hm'].
      split; [done|]. right. exists l_absent. split; [by exists r1, r2|].
      unfold exec in Hm'. rewrite Hm', Hmd. constructor.
  - destruct (Hcd eq_refl) as [Hmc Hnone].
    assert (Hf0 : forall h x, tm_live (c_timers c0) !! h = Some x -> ctrl_free (t_cb x)).
    { intros h0 x0 Hx0. split; [|apply (Hnone h0 x0 Hx0)].
      intros Hc. destruct Hi0 as ([Hd1 _] & _ & _). destruct (Hd1 h0 x0 Hx0 Hc) as [Hdm _].
      rewrite Hm0, Hmc in Hdm. discriminate. }
    assert (Hp0 : c_procs c0 = []) by (apply ctrl_inv_no_procs; [done | by rewrite Hm0, Hmc]).
    split; [by apply ctrl_inv_set_mode|]. right. exists l_cool_down_end.
    split; [by exists r1, r2|]. rewrite Hmc. constructor.
  - by split; [|left].
Qed.

Lemma pipe_complete_procs i r c o c' :
  pipe_complete i r c = Some (o, c') -> c_procs c' = c_procs c.
Proof.
  unfold pipe_complete. destruct (c_pipe c !! i) as [[cmd cb]|]; [|done].
  by destruct r; intros [= <- <-].
Qed.

Lemma sigint_ctrl c :
  tm_live (c_timers (sigint c)) = tm_live (c_timers c) /\
  st_mode (c_state (sigint c)) = st_mode (c_state c) /\ c_procs (sigint c) = c_procs c.
Proof.
  rewrite sigint_timers. split; [done|]. unfold sigint. simpl. generalize exit_writes c.
  intros l. induction l as [|pl l IH]; intros c0; simpl; [done|]. apply IH.
Qed.

(** Every event of a run driven by the sensors keeps the invariant and
    leaves the mode or takes one step of the spec's machine. *)
Lemma mode_step e w w' :
  sys_inv w -> ctrl_inv (w_ctx w) -> sensor_driven e = true -> sys_step e w = Some w' ->
  ctrl_inv (w_ctx w') /\
  (wmode w' = wmode w \/ exists l, label_event l e /\ step (wmode w) l (wmode w')).
Proof.
  destruct w as [p c http]. intros [Hp Ht] Hi Hsd. simpl in Hp, Ht, Hi.
  unfold sys_step, wmode. simpl. destruct (c_exited c); [discriminate|].
  assert (Hq : forall A (m : M A), quiet m ->
             ctrl_inv (exec m c) /\ st_mode (c_state (exec m c)) = st_mode (c_state c))
    by (intros A m Hm; by apply quiet_inv).
  destruct e as [r1 r2|i r|x b|pid|r1 r2| |data| |t|]; try discriminate Hsd.
  - destruct (fire_timer (c_timers c)) as [[[h cb] tm']|] eqn:Ef; [|discriminate].
    destruct (timers_ok_fire p _ h cb tm' Ht Ef) as [_ Hn].
    pose proof (on_timer_mode r1 r2 cb p c h tm' Hp Hn Hi Ef) as H. unfold exec in H.
    destruct (on_timer r1 r2 cb p _) as [p' c']. by intros [= <-].
  - destruct (pipe_complete i r c) as [[o c']|] eqn:Ep; [|discriminate].
    pose proof Ep as (Htm & Hst & _)%pipe_complete_ctx.
    assert (Hi' : ctrl_inv c') by (apply (ctrl_inv_ext c); [by rewrite Htm | by rewrite Hst
                                   | by eapply pipe_complete_procs | done]).
    destruct o as [[[ch] err]|]; [|intros [= <-]; split; [done | left; simpl; by rewrite Hst]].
    pose proof (quiet_inv _ c' Hi' (on_animator_quiet ch _ p
                  (fun a => proj2 (animator_quiet a CbSensorSetup err)))) as [H1 H2].
    unfold exec in H1, H2. destruct (on_animator _ _ p c') as [p' c'']. intros [= <-].
    split; [done|]. left. simpl in *. by rewrite H2, Hst.
  - destruct (Performance.sensors p) as [a|]; [|intros [= <-]; by split; [|left]].
    pose proof (Hq _ _ (on_edge_quiet a x b)) as [H1 H2]. unfold exec in H1, H2.
    destruct (SensorArray.on_edge a x b c) as [a' c']. intros [= <-]. by split; [|left].
  - destruct (bool_decide_reflect (pid ∈ c_procs c)) as [Hin|]; [|discriminate].
    destruct Hi as (Hd & Hc & Hpr). destruct (Hpr pid Hin) as [Hrun Hone].
    set (c1 := upd_procs (filter (fun q => q <> pid)) c).
    assert (Hf1 : forall h x, tm_live (c_timers c1) !! h = Some x -> ctrl_free (t_cb x)).
    { apply (ctrl_inv_free c); [done | by rewrite Hrun | by rewrite Hrun]. }
    assert (Hp1 : c_procs c1 = []).
    { subst c1. cbn. rewrite Hone. cbn. by case_decide. }
    pose proof (player_exit_inv p c1 (ctrl_inv_clear c1 Hf1 Hp1) Hf1 Hp1) as [H1 H2].
    unfold exec in H1, H2. destruct (Performance.onPlayerClose p c1) as [p' c''].
    intros [= <-]. split; [done|]. right. exists l_audio_end.
    split; [by exists pid|]. simpl in *. rewrite H2, Hrun. constructor.
  - pose proof (Hq _ _ (proj1 (status_quiet p data))) as [H1 H2]. unfold exec in H1, H2.
    destruct (Performance.postEnabled data p c) as [pr c']. intros [= <-]. by split; [|left].
  - pose proof (Hq _ _ (proj2 (status_quiet p (fun _ => None)))) as [H1 H2]. unfold exec in H1, H2.
    destruct (Performance.getStatus p c) as [pr c']. intros [= <-]. by split; [|left].
  - destruct (quiet_until t (c_timers c)); [|discriminate]. intros [= <-].
    split; [|by left]. by apply (ctrl_inv_ext c).
  - intros [= <-]. destruct (sigint_ctrl c) as (H1 & H2 & H3).
    split; [by apply (ctrl_inv_ext c) | left; exact H2].
Qed.

(** ** Runs driven by the sensors *)

Definition is_ctrl (cb : Callback) : bool :=
  match cb with CbStartDelay | CbCoolDownEnd => true | _ => false end.

Lemma boot_ctrl : ctrl_inv (w_ctx boot).
Proof.
  assert (Hb : map_Forall (fun _ x => is_ctrl (t_cb x) = false) (tm_live (c_timers (w_ctx boot))))
    by (apply (bool_decide_unpack _); vm_compute; reflexivity).
  apply ctrl_inv_clear; [|vm_compute; reflexivity].
  intros h x Hx. specialize (Hb h x Hx). simpl in Hb. by split; intros Hc; rewrite Hc in Hb.
Qed.

Lemma sensor_run_inv es w w' :
  sys_inv w -> ctrl_inv (w_ctx w) -> forallb sensor_driven es = true -> sys_run es w = Some w' ->
  sys_inv w' /\ ctrl_inv (w_ctx w').
Proof.
  revert w. induction es as [|e es IH]; intros w Hs Hc Hd Hr; simpl in Hr; [by injection Hr as <-|].
  apply andb_prop in Hd as [He Hd].
  destruct (sys_step e w) as [w1|] eqn:Hst; [|discriminate].
  apply (IH w1); [apply (sys_step_inv e w w1 Hs Hst) | apply (mode_step e w w1 Hs Hc He Hst) | done..].
Qed.

Lemma sys_run_snoc es e w0 :
  sys_run (es ++ [e]) w0 = match sys_run es w0 with Some w => sys_step e w | None => None end.
Proof.
  revert w0. induction es as [|e0 es IH]; intros w0; simpl; [by destruct (sys_step e w0)|].
  destruct (sys_step e0 w0); [apply IH | done].
Qed.

(** C6: the controller refines the spec's machine in every run driven by
    the sensors: from the program's start, through any timers, sensor
    edges, pigpio completions, player exits, status and [POST /enabled]
    requests, each event leaves the mode as it is or takes one step of
    spec 4.5's machine, with a label the event can cause (a timer for a
    trigger, the end of the pre-roll or of the cool-down, a player's exit
    for the end of the audio).  And a sound player runs only in the
    performance, one at a time.  [POST /start] and [POST /stop] are what
    breaks it (C12, C13, C11). *)
Theorem sensor_driven_refines es e w w' :
  forallb sensor_driven (es ++ [e]) = true -> sys_run es boot = Some w -> sys_step e w = Some w' ->
  (wmode w' = wmode w \/ exists l, label_event l e /\ step (wmode w) l (wmode w')) /\
  (forall pid, pid ∈ c_procs (w_ctx w') -> wmode w' = run /\ c_procs (w_ctx w') = [pid]).
Proof.
  intros Hd Hr Hs. rewrite forallb_app in Hd. apply andb_prop in Hd as [Hd He]. simpl in He.
  rewrite andb_true_r in He.
  destruct (sensor_run_inv es boot w boot_inv boot_ctrl Hd Hr) as [Hi Hc].
  destruct (mode_step e w w' Hi Hc He Hs) as [(_ & _ & Hp) Hm]. split; [exact Hm | exact Hp].
Qed.

Definition trigger_run : list event :=
  repeat (ev_fire 0 0) 30 ++ [ev_edge Sensor1 true] ++ repeat (ev_fire 0 0) 5.

Lemma sensor_driven_refines_witness :
  match sys_run trigger_run boot with
  | Some w =>
      match sys_step (ev_fire 0 0) w with
      | Some w' => wmode w = idle /\ wmode w' = delay /\
                   (wmode w' = wmode w \/ exists l, label_event l (ev_fire 0 0) /\ step (wmode w) l (wmode w'))
      | None => False
      end
  | None => False
  end.
Proof.
  assert (M1 : fmap wmode (sys_run trigger_run boot) = Some idle) by (vm_compute; reflexivity).
  assert (M2 : fmap wmode (sys_run (trigger_run ++ [ev_fire 0 0]) boot) = Some delay)
    by (vm_compute; reflexivity).
  rewrite sys_run_snoc in M2.
  destruct (sys_run trigger_run boot) as [w|] eqn:E; [|discriminate].
  destruct (sys_step (ev_fire 0 0) w) as [w'|] eqn:E'; [|discriminate].
  injection M1 as M1. injection M2 as M2. split_and!; [done | done |].
  exact (proj1 (sensor_driven_refines trigger_run (ev_fire 0 0) w w' ltac:(vm_compute; reflexivity) E E')).
Defined.

End ModeMachine.
