(* ===== verification/TestScript.v ===== *)
(** * The bench script [src/test.js]

    A stand-alone script that checks the wiring: [init] creates the GPIO
    objects of its own port table (no write), [testOutput] switches seven
    outputs on, and a [setTimeout] of 2000 ms switches them off again;
    [SIGINT] unexports the pins (no write).  Its port table is the main
    program's without the [invert] flag of the net light, and its
    [portOn] and [portOff] write 1 and 0 whatever the port.

    The script runs on the same timer registry as the main program, with
    its one closure [TestOff]. *)

From stdpp Require Import gmap.
From Stdlib Require Import NArith.
From S2P Require Import Prelude Timers Ports.

Module TestScript.

(** The port table of [test.js] (lines 8-19): no port is inverted. *)
Definition TestPorts (p : PortName) : Port :=
  match p with
  | sensor1 => mkPort 22 dir_in false
  | sensor2 => mkPort 23 dir_in false
  | sensor3 => mkPort 27 dir_in false
  | lightNet => mkPort 2 dir_out false
  | lightDog => mkPort 18 dir_out false
  | soundDog => mkPort 17 dir_out false
  | lightSkull1 => mkPort 14 dir_out false
  | lightSkull2 => mkPort 15 dir_out false
  | flashLight1 => mkPort 3 dir_out false
  | flashLight2 => mkPort 4 dir_out false
  end.

(** [portOn] and [portOff] (lines 22-33): [gpio.write(1)] / [gpio.write(0)]
    on an output. *)
Definition portOn (p : PortName) : option (PortName * nat) :=
  if bool_decide (dir (TestPorts p) = dir_out) then Some (p, 1) else None.
Definition portOff (p : PortName) : option (PortName * nat) :=
  if bool_decide (dir (TestPorts p) = dir_out) then Some (p, 0) else None.

(** The ports [testOutput] switches, in its order (lines 55-61 and 65-71). *)
Definition tested : list PortName :=
  [lightNet; lightDog; soundDog; lightSkull1; lightSkull2; flashLight1; flashLight2].

Inductive Callback := TestOff.

(** The script's state: the timer registry and the writes, each with the
    time it happened. *)
Record bench := mkBench { b_timers : timers Callback; b_out : list (N * (PortName * nat)) }.

Definition writes (now : N) (ws : list (PortName * nat)) : list (N * (PortName * nat)) :=
  (fun w => (now, w)) <$> ws.

(** [init(); testOutput();] at time 0 (lines 35-41, 54-75, 78-80). *)
Definition start : bench :=
  let tm := empty_timers 0 in
  mkBench (snd (set_timer 2000 false TestOff tm)) (writes 0 (omap portOn tested)).

(** The event loop: the pending timer fires and switches the ports off. *)
Definition fire (b : bench) : option bench :=
  match fire_timer (b_timers b) with
  | Some (_, TestOff, tm') => Some (mkBench tm' (b_out b ++ writes (tm_now tm') (omap portOff tested)))
  | None => None
  end.

(** C37: the bench script's whole run, and the net light it drives
    backwards.  At time 0 it writes 1 to each of the seven tested outputs
    in [testOutput]'s order; its one timer fires at 2000 ms and writes 0
    to the same seven in the same order, and then no timer is left.  By
    the main program's table the net light is active-low: 1 is its off
    level and 0 its on level, so the "on" phase leaves the net dark and
    the "off" phase lights it, while 1 and 0 are the on and off levels of
    the six other outputs. *)
Theorem bench_net_light_backwards :
  b_out start = (fun p => (0%N, (p, 1))) <$> tested /\
  (exists b, fire start = Some b /\
     b_out b = b_out start ++ ((fun p => (2000%N, (p, 0))) <$> tested) /\ fire b = None) /\
  portOn_level lightNet = Some 0 /\ portOff_level lightNet = Some 1 /\
  Forall (fun p => p = lightNet \/ (portOn_level p = Some 1 /\ portOff_level p = Some 0)) tested.
Proof.
  split_and!; [reflexivity| |reflexivity|reflexivity|].
  - eexists. split; [vm_compute; reflexivity|]. split; vm_compute; reflexivity.
  - repeat constructor; first [by left | right; split; reflexivity].
Qed.

End TestScript.
